(** * LinkedIn auto-poster: a shallow embedding of [linkedin_auto_poster.py]

    The development follows the source file top to bottom: the text
    helpers Python provides ([str.replace], [str.strip], [str.join]),
    the MD5 digest behind [get_article_hash], the dedup cache
    ([posted_articles.json]) as a finite map keyed by digest, then the five
    steps of [main] written in a small state-and-exception monad.

    Python [str] values are modelled as Rocq [string]s holding the UTF-8
    encoding of the text, so that [url.encode()] is the identity on the
    underlying bytes. *)

From Stdlib Require Import ZArith Lia Ascii String List Bool Sorted.
From stdpp Require Import base option list strings gmap pretty.

Local Open Scope string_scope.

(** ** MD5 (RFC 1321), the digest computed by [hashlib.md5] *)

Module Md5.

Local Open Scope Z_scope.

Definition mask32 : Z := 0xffffffff.
Definition wrap32 (x : Z) : Z := Z.land x mask32.
Definition add32 (x y : Z) : Z := wrap32 (x + y).
Definition not32 (x : Z) : Z := Z.lxor x mask32.

Definition rotl32 (x : Z) (c : Z) : Z :=
  wrap32 (Z.lor (Z.shiftl x c) (Z.shiftr x (32 - c))).

(** Per-round shift amounts. *)
Definition shifts : list Z :=
  [7; 12; 17; 22; 7; 12; 17; 22; 7; 12; 17; 22; 7; 12; 17; 22;
   5;  9; 14; 20; 5;  9; 14; 20; 5;  9; 14; 20; 5;  9; 14; 20;
   4; 11; 16; 23; 4; 11; 16; 23; 4; 11; 16; 23; 4; 11; 16; 23;
   6; 10; 15; 21; 6; 10; 15; 21; 6; 10; 15; 21; 6; 10; 15; 21].

(** [floor (2^32 * abs (sin (i + 1)))] for [i] in [0..63]. *)
Definition sines : list Z :=
  [0xd76aa478; 0xe8c7b756; 0x242070db; 0xc1bdceee;
   0xf57c0faf; 0x4787c62a; 0xa8304613; 0xfd469501;
   0x698098d8; 0x8b44f7af; 0xffff5bb1; 0x895cd7be;
   0x6b901122; 0xfd987193; 0xa679438e; 0x49b40821;
   0xf61e2562; 0xc040b340; 0x265e5a51; 0xe9b6c7aa;
   0xd62f105d; 0x02441453; 0xd8a1e681; 0xe7d3fbc8;
   0x21e1cde6; 0xc33707d6; 0xf4d50d87; 0x455a14ed;
   0xa9e3e905; 0xfcefa3f8; 0x676f02d9; 0x8d2a4c8a;
   0xfffa3942; 0x8771f681; 0x6d9d6122; 0xfde5380c;
   0xa4beea44; 0x4bdecfa9; 0xf6bb4b60; 0xbebfbc70;
   0x289b7ec6; 0xeaa127fa; 0xd4ef3085; 0x04881d05;
   0xd9d4d039; 0xe6db99e5; 0x1fa27cf8; 0xc4ac5665;
   0xf4292244; 0x432aff97; 0xab9423a7; 0xfc93a039;
   0x655b59c3; 0x8f0ccc92; 0xffeff47d; 0x85845dd1;
   0x6fa87e4f; 0xfe2ce6e0; 0xa3014314; 0x4e0811a1;
   0xf7537e82; 0xbd3af235; 0x2ad7d2bb; 0xeb86d391].

Definition nthZ (l : list Z) (i : nat) : Z := nth i l 0.

(** The message with its padding: a single 1 bit, zeros up to 56 modulo
    64 bytes, then the bit length as a 64-bit little-endian integer. *)
Fixpoint le_bytes (n : nat) (x : Z) : list Z :=
  match n with
  | O => []
  | S n' => Z.land x 0xff :: le_bytes n' (Z.shiftr x 8)
  end.

Definition pad (msg : list Z) : list Z :=
  let len := Z.of_nat (length msg) in
  let zeros := Z.to_nat ((55 - len) mod 64) in
  msg ++ [0x80] ++ repeat 0 zeros ++ le_bytes 8 (Z.land (8 * len) 0xffffffffffffffff).

Fixpoint le_word (bs : list Z) : Z :=
  match bs with
  | [] => 0
  | b :: bs' => Z.lor b (Z.shiftl (le_word bs') 8)
  end.

Fixpoint words (n : nat) (bs : list Z) : list Z :=
  match n with
  | O => []
  | S n' => le_word (firstn 4 bs) :: words n' (skipn 4 bs)
  end.

Record regs := Regs { rA : Z; rB : Z; rC : Z; rD : Z }.

Definition init : regs :=
  Regs 0x67452301 0xefcdab89 0x98badcfe 0x10325476.

Definition step (m : list Z) (r : regs) (i : nat) : regs :=
  let '(Regs a b c d) := r in
  let '(f, g) :=
    match Nat.div i 16 with
    | 0%nat => (Z.lor (Z.land b c) (Z.land (not32 b) d), i)
    | 1%nat => (Z.lor (Z.land d b) (Z.land (not32 d) c), Nat.modulo (5 * i + 1) 16)
    | 2%nat => (Z.lxor (Z.lxor b c) d, Nat.modulo (3 * i + 5) 16)
    | _ => (Z.lxor c (Z.lor b (not32 d)), Nat.modulo (7 * i) 16)
    end in
  let f' := add32 (add32 (add32 f a) (nthZ sines i)) (nthZ m g) in
  Regs d (add32 b (rotl32 f' (nthZ shifts i))) b c.

Definition chunk (r : regs) (m : list Z) : regs :=
  let r' := fold_left (step m) (seq 0 64) r in
  Regs (add32 (rA r) (rA r')) (add32 (rB r) (rB r'))
       (add32 (rC r) (rC r')) (add32 (rD r) (rD r')).

Fixpoint chunks (n : nat) (r : regs) (bs : list Z) : regs :=
  match n with
  | O => r
  | S n' => chunks n' (chunk r (words 16 (firstn 64 bs))) (skipn 64 bs)
  end.

Definition digest (msg : list Z) : list Z :=
  let p := pad msg in
  let r := chunks (Nat.div (length p) 64) init p in
  le_bytes 4 (rA r) ++ le_bytes 4 (rB r) ++ le_bytes 4 (rC r) ++ le_bytes 4 (rD r).

Definition hex_digit (x : Z) : ascii :=
  nth (Z.to_nat x) (list_ascii_of_string "0123456789abcdef") "0"%char.

Definition hex_byte (b : Z) : list ascii :=
  [hex_digit (Z.shiftr b 4); hex_digit (Z.land b 0xf)].

Definition bytes_of_string (s : string) : list Z :=
  map (fun c => Z.of_N (N_of_ascii c)) (list_ascii_of_string s).

(** [hashlib.md5(data).hexdigest()] *)
Definition hexdigest (data : string) : string :=
  string_of_list_ascii (concat (map hex_byte (digest (bytes_of_string data)))).

End Md5.

(** ** The Python string operations the program uses *)

Module Py.

Definition chr (n : nat) : string := String (ascii_of_nat n) "".
Definition utf8 (bytes : list nat) : string :=
  string_of_list_ascii (map ascii_of_nat bytes).

Definition nl : string := chr 10.
Definition dq : string := chr 34.
Definition quoted (s : string) : string := dq +:+ s +:+ dq.

(** [sub in s] *)
Fixpoint str_in (sub s : string) : bool :=
  String.prefix sub s ||
  match s with
  | EmptyString => false
  | String _ s' => str_in sub s'
  end.

Fixpoint drop_chars (n : nat) (s : string) : string :=
  match n, s with
  | S n', String _ s' => drop_chars n' s'
  | _, _ => s
  end.

(** [s.replace(old, new)] for a non-empty pattern [old]: occurrences are
    found left to right and do not overlap.  [skip] counts the characters
    of the occurrence just replaced that are still to be passed over. *)
Fixpoint replace_from (old new : string) (skip : nat) (s : string) : string :=
  match s with
  | EmptyString => EmptyString
  | String c s' =>
      match skip with
      | S k => replace_from old new k s'
      | O =>
          if String.prefix old s
          then new +:+ replace_from old new (Nat.pred (String.length old)) s'
          else String c (replace_from old new O s')
      end
  end.

Definition replace (old new s : string) : string := replace_from old new O s.

(** The characters for which [str.isspace] holds, in UTF-8. *)
Definition whitespace : list string :=
  map chr [9; 10; 11; 12; 13; 28; 29; 30; 31; 32]%nat ++
  map utf8 [[194; 133]; [194; 160]; [225; 154; 128];
            [226; 128; 128]; [226; 128; 129]; [226; 128; 130]; [226; 128; 131];
            [226; 128; 132]; [226; 128; 133]; [226; 128; 134]; [226; 128; 135];
            [226; 128; 136]; [226; 128; 137]; [226; 128; 138];
            [226; 128; 168]; [226; 128; 169]; [226; 128; 175];
            [226; 129; 159]; [227; 128; 128]]%nat.

Fixpoint lstrip_with (ws : list string) (fuel : nat) (s : string) : string :=
  match fuel with
  | O => s
  | S fuel' =>
      match List.find (fun w => String.prefix w s) ws with
      | Some w => lstrip_with ws fuel' (drop_chars (String.length w) s)
      | None => s
      end
  end.

Definition lstrip (s : string) : string :=
  lstrip_with whitespace (String.length s) s.

Definition rev_string (s : string) : string :=
  string_of_list_ascii (rev (list_ascii_of_string s)).

Definition rstrip (s : string) : string :=
  rev_string (lstrip_with (map rev_string whitespace) (String.length s) (rev_string s)).

(** [s.strip()] *)
Definition strip (s : string) : string := rstrip (lstrip s).

(** [sep.join(parts)] *)
Fixpoint join (sep : string) (parts : list string) : string :=
  match parts with
  | [] => ""
  | [x] => x
  | x :: rest => x +:+ sep +:+ join sep rest
  end.

(** [s[:n]]: the first [n] characters, a character being one UTF-8
    sequence (a byte outside [0x80..0xBF] followed by its continuation
    bytes). *)
Definition is_continuation (c : ascii) : bool :=
  let n := nat_of_ascii c in (128 <=? n)%nat && (n <? 192)%nat.

Fixpoint take (n : nat) (s : string) : string :=
  match s with
  | EmptyString => EmptyString
  | String c s' =>
      if is_continuation c then String c (take n s')
      else match n with
           | O => EmptyString
           | S n' => String c (take n' s')
           end
  end.

(** [c * n] for a one-character string *)
Definition times (c : ascii) (n : nat) : string :=
  string_of_list_ascii (repeat c n).

(** [str(n)] for an integer *)
Definition str_int (n : Z) : string := pretty n.
Definition str_nat (n : nat) : string := pretty n.

End Py.

(** ** Data *)

(** One element of [entry.content]; only its ['value'] is read. *)
Record content_item := ContentItem { c_value : option string }.

(** A feed entry as [feedparser] hands it over: every key may be absent. *)
Record entry := Entry {
  e_title : option string;
  e_link : option string;
  e_published : option string;
  e_summary : option string;
  e_content : option (list content_item)
}.

(** The [post_data] dict built by [fetch_latest_blog_post]. *)
Record post_data := PostData {
  title : string;
  link : string;
  published : string;
  summary : string;
  content : string
}.

(** One element of the ['variants'] array of the generation reply: a JSON
    object whose members, when present, are strings, an array of strings
    and an integer. *)
Record variant := Variant {
  v_type : option string;
  v_caption : option string;
  v_hashtags : option (list string);
  v_engagement_score : option Z;
  v_why_it_works : option string
}.

(** A value of [posted_articles.json]. *)
Record posted_info := PostedInfo {
  url : string;
  posted_at : string;
  p_title : string;
  variant_used : string
}.

(** The [post_info] argument of [save_posted_article]; both keys are read
    with [.get(key, '')]. *)
Record post_info := PostInfo {
  pi_title : option string;
  pi_variant_used : option string
}.

#[global] Instance content_item_eq_dec : EqDecision content_item.
Proof. solve_decision. Defined.
#[global] Instance entry_eq_dec : EqDecision entry.
Proof. solve_decision. Defined.
#[global] Instance post_data_eq_dec : EqDecision post_data.
Proof. solve_decision. Defined.
#[global] Instance variant_eq_dec : EqDecision variant.
Proof. solve_decision. Defined.
#[global] Instance posted_info_eq_dec : EqDecision posted_info.
Proof. solve_decision. Defined.

(** Exceptions, all of them subclasses of [Exception]. *)
Inductive exn :=
| KeyError (key : string)
| IndexError
| JSONDecodeError (msg : string)
| UnboundLocalError (name : string)
| OtherError (msg : string).

(** [str(e)] *)
Definition exn_str (e : exn) : string :=
  match e with
  | KeyError key => "'" +:+ key +:+ "'"
  | IndexError => "list index out of range"
  | JSONDecodeError msg => msg
  | UnboundLocalError name =>
      "cannot access local variable '" +:+ name +:+ "' where it is not associated with a value"
  | OtherError msg => msg
  end.

(** What [json.loads] returns on the cleaned reply, as far as the program
    looks at it: either an object whose ['variants'] member is an array of
    candidate objects, or some other document, on which
    [len(variants_data['variants'])] raises ([KeyError] when the member is
    missing, [TypeError] when the document is no object or the member has
    no length).  A ['variants'] member that has a length without being an
    array of candidate objects (a string, an object, an array of numbers)
    is in neither case: the statements on a decoded reply name the case
    they are about. *)
Inductive json_doc :=
| DocVariants (variants : list variant)
| DocOther (e : exn).

(** The WebDriver calls of [post_to_linkedin]. *)
Inductive locator := By_ID | By_CSS_SELECTOR.
Inductive condition := element_to_be_clickable | presence_of_element_located.

Inductive browser_call :=
| Chrome (arguments : list string)
| implicitly_wait (seconds : nat)
| get (page : string)
| find_element (by_ : locator) (value : string)
| wait_until (seconds : nat) (ec : condition) (by_ : locator) (value : string)
| send_keys (element : string) (keys : string)
| click (element : string)
| current_url
| quit.

(** What a run does to the outside world. *)
Inductive event :=
| EvFeedParse (rss_url : string)
| EvApiPost (api_key : string) (blog_post : post_data)
| EvBrowser (call : browser_call)
| EvCacheWrite (posted : gmap string posted_info).

(** The surroundings of one run: the four settings read with
    [os.getenv(name, "")], whether selenium could be imported, the clock,
    and the answers of the outside collaborators. *)
Record world := World {
  SQUARESPACE_RSS_URL : string;
  ANTHROPIC_API_KEY : string;
  LINKEDIN_EMAIL : string;
  LINKEDIN_PASSWORD : string;
  SELENIUM_AVAILABLE : bool;
  (** [datetime.now().isoformat()] *)
  now_isoformat : string;
  (** [feedparser.parse(rss_url).entries], or the exception raised *)
  feedparser_parse : string -> exn + list entry;
  (** lines 215-237: the prompt, a function of the post (lines 146-210), is
      sent with the key and the text of the reply extracted; or the
      exception raised on the way *)
  anthropic_messages : string -> post_data -> exn + string;
  (** [json.loads]: the message of the [JSONDecodeError], or the document *)
  json_loads : string -> string + json_doc;
  (** the exception a WebDriver call raises, if it does *)
  webdriver_raises : browser_call -> option exn;
  (** the value of [driver.current_url] after the login form is submitted *)
  url_after_login : string
}.

(** The state a run works on: the cache file ([None] while it does not
    exist), the lines logged so far (without their timestamps), and the
    events so far. *)
Record state := State {
  cache_file : option (gmap string posted_info);
  logs : list string;
  trace : list event
}.

(** ** A monad for state and exceptions *)

Inductive outcome (A : Type) :=
| Ret (a : A)
| Raise (e : exn).
Arguments Ret {A} a.
Arguments Raise {A} e.

Definition M (A : Type) : Type := state -> outcome A * state.

Definition ret {A} (a : A) : M A := fun st => (Ret a, st).
Definition raise {A} (e : exn) : M A := fun st => (Raise e, st).

Definition bind {A B} (m : M A) (k : A -> M B) : M B :=
  fun st =>
    match m st with
    | (Ret a, st') => k a st'
    | (Raise e, st') => (Raise e, st')
    end.

(** [try: m except Exception as e: handler e] *)
Definition try_except {A} (m : M A) (handler : exn -> M A) : M A :=
  fun st =>
    match m st with
    | (Ret a, st') => (Ret a, st')
    | (Raise e, st') => handler e st'
    end.

(** [try: m finally: cleanup]; an exception of the cleanup replaces the
    outcome of [m]. *)
Definition try_finally {A} (m : M A) (cleanup : M unit) : M A :=
  fun st =>
    match m st with
    | (r, st') =>
        match cleanup st' with
        | (Ret _, st'') => (r, st'')
        | (Raise e, st'') => (Raise e, st'')
        end
    end.

Declare Scope monad_scope.
Delimit Scope monad_scope with monad.
Notation "x <- c1 ;; c2" := (bind c1 (fun x => c2))
  (at level 100, c1 at next level, c2 at level 200, right associativity) : monad_scope.
Notation "c1 ;; c2" := (bind c1 (fun _ => c2))
  (at level 100, c2 at level 200, right associativity) : monad_scope.
Local Open Scope monad_scope.

(** The state after more lines were logged and more events happened. *)
Definition effect (st : state) (lines : list string) (evs : list event) : state :=
  {| cache_file := cache_file st;
     logs := logs st ++ lines;
     trace := trace st ++ evs |}.

(** [d[key]] on a dict whose key may be absent *)
Definition getitem {A} (key : string) (field : option A) : M A :=
  match field with
  | Some a => ret a
  | None => raise (KeyError key)
  end.

(** [l[0]] *)
Definition first_item {A} (l : list A) : M A :=
  match l with
  | a :: _ => ret a
  | [] => raise IndexError
  end.

(** [log(message)]: the line goes to standard output and to the log file of
    the day. *)
Definition log (message : string) : M unit :=
  fun st => (Ret tt, effect st [message] []).

Definition emit (ev : event) : M unit :=
  fun st => (Ret tt, effect st [] [ev]).

(** ** The dedup cache *)

(** [get_article_hash(url)] *)
Definition get_article_hash (url : string) : string := Md5.hexdigest url.

(** [load_posted_articles()].  The file, when it exists, is taken to hold
    what [save_posted_article] writes: an object of records. *)
Definition load_posted_articles : M (gmap string posted_info) :=
  fun st =>
    match cache_file st with
    | Some posted => (Ret posted, st)
    | None => (Ret ∅, st)
    end.

(** [json.dump(posted, f)] on the cache file opened for writing *)
Definition dump_posted (posted : gmap string posted_info) : M unit :=
  fun st =>
    (Ret tt, {| cache_file := Some posted;
                logs := logs st;
                trace := trace st ++ [EvCacheWrite posted] |}).

(** [is_already_posted(url)] *)
Definition is_already_posted (url : string) : M bool :=
  posted <- load_posted_articles ;;
  let article_hash := get_article_hash url in
  ret (bool_decide (is_Some (posted !! article_hash))).

Section Run.

Variable w : world.

(** [save_posted_article(url, post_info)] *)
Definition save_posted_article (url : string) (post_info : post_info) : M unit :=
  posted <- load_posted_articles ;;
  let article_hash := get_article_hash url in
  let posted :=
    <[article_hash := {| url := url;
                         posted_at := now_isoformat w;
                         p_title := default "" (pi_title post_info);
                         variant_used := default "" (pi_variant_used post_info) |}]> posted in
  dump_posted posted.

(** ** Step 1: the feed *)

Definition parse_feed (rss_url : string) : M (list entry) :=
  emit (EvFeedParse rss_url) ;;
  match feedparser_parse w rss_url with
  | inl e => raise e
  | inr entries => ret entries
  end.

(** The loop of [fetch_latest_blog_post] over [feed.entries]. *)
Fixpoint first_unposted (entries : list entry) : M (option post_data) :=
  match entries with
  | [] =>
      log "ℹ️  No new posts to share (all already posted)" ;;
      ret None
  | entry :: rest =>
      let url := default "" (e_link entry) in
      posted <- is_already_posted url ;;
      if negb posted then
        item <- first_item (default [ContentItem None] (e_content entry)) ;;
        let post_data :=
          {| title := default "Untitled" (e_title entry);
             link := url;
             published := default "" (e_published entry);
             summary := default "" (e_summary entry);
             content := default (default "" (e_summary entry)) (c_value item) |} in
        log ("✅ Found new post: " +:+ title post_data) ;;
        ret (Some post_data)
      else first_unposted rest
  end.

(** [fetch_latest_blog_post(rss_url)] *)
Definition fetch_latest_blog_post (rss_url : string) : M (option post_data) :=
  try_except
    (log "📡 Fetching RSS feed..." ;;
     entries <- parse_feed rss_url ;;
     match entries with
     | [] =>
         log "⚠️  No posts found in RSS feed" ;;
         ret None
     | _ => first_unposted entries
     end)
    (fun e =>
       log ("❌ Error fetching RSS feed: " +:+ exn_str e) ;;
       ret None).

(** ** Step 2: the candidates *)

(** Lines 215-237: [requests.post], [raise_for_status], [response.json()]
    and [result['content'][0]['text']], on the prompt of lines 146-210. *)
Definition request_generation (blog_post : post_data) : M string :=
  emit (EvApiPost (ANTHROPIC_API_KEY w) blog_post) ;;
  match anthropic_messages w (ANTHROPIC_API_KEY w) blog_post with
  | inl e => raise e
  | inr generated_text => ret generated_text
  end.

Definition parse_json (text : string) : M json_doc :=
  match json_loads w text with
  | inl msg => raise (JSONDecodeError msg)
  | inr doc => ret doc
  end.

(** [variants_data['variants']], once [len] was taken of it *)
Definition variants_of (variants_data : json_doc) : M (list variant) :=
  match variants_data with
  | DocVariants variants => ret variants
  | DocOther e => raise e
  end.

(** Line 240:
    [generated_text.replace('```json', '').replace('```', '').strip()] *)
Definition clean_up_markdown (generated_text : string) : string :=
  Py.strip (Py.replace "```" "" (Py.replace "```json" "" generated_text)).

(** The two [except] clauses of [generate_linkedin_variants].
    [generated_text] is [None] as long as the local variable of that name
    is unbound, which is the case when the exception comes from the
    request itself. *)
Definition generation_failed (generated_text : option string) (e : exn)
  : M (option (list variant)) :=
  match e with
  | JSONDecodeError _ =>
      log ("❌ Error parsing JSON from Claude: " +:+ exn_str e) ;;
      match generated_text with
      | Some text =>
          log ("Response text: " +:+ Py.take 200 text) ;;
          ret None
      | None => raise (UnboundLocalError "generated_text")
      end
  | _ =>
      log ("❌ Error calling Claude API: " +:+ exn_str e) ;;
      ret None
  end.

(** [generate_linkedin_variants(blog_post)], from the [try] of line 212 on.
    Lines 146-210 before it, [clean_html] and the prompt, are taken to go
    through: what they build is what [anthropic_messages] sends. *)
Definition generate_linkedin_variants (blog_post : post_data)
  : M (option (list variant)) :=
  try_except
    (log "🤖 Generating LinkedIn variants with Claude AI..." ;;
     generated_text <- request_generation blog_post ;;
     let generated_text := clean_up_markdown generated_text in
     try_except
       (variants_data <- parse_json generated_text ;;
        variants <- variants_of variants_data ;;
        log ("✅ Generated " +:+ Py.str_nat (length variants) +:+ " variants") ;;
        ret (Some variants))
       (generation_failed (Some generated_text)))
    (generation_failed None).

(** ** Step 3: the selection *)

(** [sorted(l, key=key, reverse=True)]: descending by key, candidates of
    equal key staying in their original order. *)
Fixpoint insert_desc {A} (key : A -> Z) (x : A) (l : list A) : list A :=
  match l with
  | [] => [x]
  | y :: l' =>
      if (key y <=? key x)%Z then x :: l
      else y :: insert_desc key x l'
  end.

Definition sorted_reverse {A} (key : A -> Z) (l : list A) : list A :=
  foldr (insert_desc key) [] l.

(** [x.get('engagement_score', 0)] *)
Definition score_key (x : variant) : Z := default 0%Z (v_engagement_score x).

(** [select_best_variant(variants)] *)
Definition select_best_variant (variants : list variant) : M (option variant) :=
  match variants with
  | [] => ret None
  | _ =>
      let sorted_variants := sorted_reverse score_key variants in
      best <- first_item sorted_variants ;;
      type <- getitem "type" (v_type best) ;;
      engagement_score <- getitem "engagement_score" (v_engagement_score best) ;;
      log ("🎯 Selected best variant: " +:+ type +:+
           " (score: " +:+ Py.str_int engagement_score +:+ ")") ;;
      why_it_works <- getitem "why_it_works" (v_why_it_works best) ;;
      log ("   Why: " +:+ why_it_works) ;;
      ret (Some best)
  end.

(** ** Step 4: the browser session *)

(** One WebDriver call: it happens, and may raise. *)
Definition call (c : browser_call) : M unit :=
  emit (EvBrowser c) ;;
  match webdriver_raises w c with
  | Some e => raise e
  | None => ret tt
  end.

Definition read_current_url : M string :=
  call current_url ;;
  ret (url_after_login w).

Definition chrome_arguments : list string :=
  ["--headless"; "--no-sandbox"; "--disable-dev-shm-usage"; "--disable-gpu";
   "--window-size=1920,1080"].

Definition submit_button : string := "button[type=" +:+ Py.quoted "submit" +:+ "]".
Definition start_post_button : string :=
  "button[aria-label*=" +:+ Py.quoted "Start a post" +:+ "]".
Definition post_box : string := "div[contenteditable=" +:+ Py.quoted "true" +:+ "]".
Definition post_button : string := "button[aria-label*=" +:+ Py.quoted "Post" +:+ "]".
Definition comment_box : string :=
  "div[data-placeholder*=" +:+ Py.quoted "comment" +:+ "]".
Definition comment_button : string :=
  "button[data-control-name*=" +:+ Py.quoted "comment" +:+ "]".

(** Line 340: [f"{caption}\n\n{' '.join(['#' + tag for tag in hashtags])}"] *)
Definition full_caption (caption : string) (hashtags : list string) : string :=
  caption +:+ Py.nl +:+ Py.nl +:+ Py.join " " (map (fun tag => "#" +:+ tag) hashtags).

(** Lines 357-377, after the main post went out. *)
Definition add_comment (blog_url : string) : M bool :=
  log "   💬 Adding comment with blog link..." ;;
  call (wait_until 10 presence_of_element_located By_CSS_SELECTOR comment_box) ;;
  call (click comment_box) ;;
  call (send_keys comment_box ("Read the full post: " +:+ blog_url)) ;;
  call (find_element By_CSS_SELECTOR comment_button) ;;
  call (click comment_button) ;;
  log "   ✅ Comment with link posted!" ;;
  log "🎉 SUCCESSFULLY POSTED TO LINKEDIN!" ;;
  ret true.

(** Lines 324-355, once logged in. *)
Definition publish_main_post (caption : string) (hashtags : list string) : M unit :=
  log "   📝 Creating post..." ;;
  call (get "https://www.linkedin.com/feed/") ;;
  call (wait_until 10 element_to_be_clickable By_CSS_SELECTOR start_post_button) ;;
  call (click start_post_button) ;;
  log "   ✍️  Writing caption..." ;;
  let full_caption := full_caption caption hashtags in
  call (wait_until 10 presence_of_element_located By_CSS_SELECTOR post_box) ;;
  call (send_keys post_box full_caption) ;;
  log "   🚀 Publishing post..." ;;
  call (find_element By_CSS_SELECTOR post_button) ;;
  call (click post_button) ;;
  log "   ✅ Main post published!".

(** Lines 300-320: [true] when the address after login holds neither
    ['feed'] nor ['checkpoint']. *)
Definition login_rejected : M bool :=
  log "   🔐 Logging into LinkedIn..." ;;
  call (get "https://www.linkedin.com/login") ;;
  call (find_element By_ID "username") ;;
  call (find_element By_ID "password") ;;
  call (send_keys "username" (LINKEDIN_EMAIL w)) ;;
  call (send_keys "password" (LINKEDIN_PASSWORD w)) ;;
  call (find_element By_CSS_SELECTOR submit_button) ;;
  call (click submit_button) ;;
  address <- read_current_url ;;
  if negb (Py.str_in "feed" address) then
    address <- read_current_url ;;
    ret (negb (Py.str_in "checkpoint" address))
  else ret false.

(** The body of the inner [try] of [post_to_linkedin]. *)
Definition browser_session (caption : string) (hashtags : list string)
    (blog_url : string) : M bool :=
  rejected <- login_rejected ;;
  if rejected then
    log "❌ Login may have failed - unexpected URL" ;;
    ret false
  else
    log "   ✅ Logged in successfully" ;;
    publish_main_post caption hashtags ;;
    add_comment blog_url.

Definition is_empty (s : string) : bool :=
  match s with
  | EmptyString => true
  | String _ _ => false
  end.

(** [post_to_linkedin(caption, hashtags, blog_url)] *)
Definition post_to_linkedin (caption : string) (hashtags : list string)
    (blog_url : string) : M bool :=
  if negb (SELENIUM_AVAILABLE w) then
    log "❌ Selenium not available - cannot post to LinkedIn" ;;
    ret false
  else if is_empty (LINKEDIN_EMAIL w) || is_empty (LINKEDIN_PASSWORD w) then
    log "❌ LinkedIn credentials not configured" ;;
    ret false
  else
    try_except
      (log "🚀 Starting LinkedIn posting process..." ;;
       call (Chrome chrome_arguments) ;;
       call (implicitly_wait 10) ;;
       try_finally (browser_session caption hashtags blog_url) (call quit))
      (fun e =>
         log ("❌ Error posting to LinkedIn: " +:+ exn_str e) ;;
         ret false).

(** ** The run *)

Definition rule : string := Py.times "=" 80.

(** Lines 390-425 of [main]: the configuration check and steps 1 to 3.
    [None] stands for each of the early [return]s. *)
Definition choose_post_and_variant : M (option (post_data * variant)) :=
  log rule ;;
  log "LINKEDIN AUTO-POSTER - Starting" ;;
  log rule ;;
  if is_empty (SQUARESPACE_RSS_URL w) then
    log "❌ SQUARESPACE_RSS_URL not configured" ;;
    ret None
  else if is_empty (ANTHROPIC_API_KEY w) then
    log "❌ ANTHROPIC_API_KEY not configured" ;;
    ret None
  else
    log (Py.nl +:+ "📡 Step 1: Checking for new blog posts...") ;;
    blog_post <- fetch_latest_blog_post (SQUARESPACE_RSS_URL w) ;;
    match blog_post with
    | None =>
        log "✅ No action needed - will check again on next run" ;;
        ret None
    | Some blog_post =>
        log (Py.nl +:+ "🤖 Step 2: Generating optimized LinkedIn captions...") ;;
        variants <- generate_linkedin_variants blog_post ;;
        match variants with
        | None | Some [] =>
            log "❌ Failed to generate variants" ;;
            ret None
        | Some variants =>
            log (Py.nl +:+ "🎯 Step 3: Selecting best variant with AI...") ;;
            best_variant <- select_best_variant variants ;;
            match best_variant with
            | None =>
                log "❌ Failed to select variant" ;;
                ret None
            | Some best_variant => ret (Some (blog_post, best_variant))
            end
        end
    end.

(** Lines 427-433: the call of the publish step, its arguments evaluated
    left to right. *)
Definition publish (blog_post : post_data) (best_variant : variant) : M bool :=
  log (Py.nl +:+ "📤 Step 4: Posting to LinkedIn...") ;;
  caption <- getitem "caption" (v_caption best_variant) ;;
  hashtags <- getitem "hashtags" (v_hashtags best_variant) ;;
  post_to_linkedin caption hashtags (link blog_post).

(** Lines 435-450. *)
Definition commit_if_published (blog_post : post_data) (best_variant : variant)
    (success : bool) : M unit :=
  if success then
    type <- getitem "type" (v_type best_variant) ;;
    save_posted_article (link blog_post)
      {| pi_title := Some (title blog_post); pi_variant_used := Some type |} ;;
    log (Py.nl +:+ rule) ;;
    log "✨ AUTOMATION COMPLETE - POST LIVE ON LINKEDIN!" ;;
    log rule ;;
    log ("Blog: " +:+ title blog_post) ;;
    type <- getitem "type" (v_type best_variant) ;;
    log ("Variant: " +:+ type) ;;
    engagement_score <- getitem "engagement_score" (v_engagement_score best_variant) ;;
    log ("Score: " +:+ Py.str_int engagement_score) ;;
    log rule
  else
    log (Py.nl +:+ "❌ Posting failed - will retry on next run").

(** [main()] *)
Definition main : M unit :=
  chosen <- choose_post_and_variant ;;
  match chosen with
  | None => ret tt
  | Some (blog_post, best_variant) =>
      success <- publish blog_post best_variant ;;
      commit_if_published blog_post best_variant success
  end.

End Run.

(** ** Vocabulary for the statements *)

(** The store a run reads: the content of the cache file, empty while the
    file does not exist. *)
Definition store (st : state) : gmap string posted_info :=
  default ∅ (cache_file st).

(** [has(fingerprint)] for the fingerprint of an entry's link. *)
Definition recorded (posted : gmap string posted_info) (e : entry) : Prop :=
  is_Some (posted !! get_article_hash (default "" (e_link e))).

(** What happened, and what was logged, between two states of a run. *)
Definition new_events (st st' : state) : list event :=
  drop (length (trace st)) (trace st').
Definition new_logs (st st' : state) : list string :=
  drop (length (logs st)) (logs st').

Definition is_feed_fetch (ev : event) : bool :=
  match ev with EvFeedParse _ => true | _ => false end.
Definition is_generation_request (ev : event) : bool :=
  match ev with EvApiPost _ _ => true | _ => false end.
Definition is_platform_interaction (ev : event) : bool :=
  match ev with EvBrowser _ => true | _ => false end.
Definition is_cache_write (ev : event) : bool :=
  match ev with EvCacheWrite _ => true | _ => false end.

(** The successive contents written to the cache file. *)
Definition cache_writes (evs : list event) : list (gmap string posted_info) :=
  omap (fun ev => match ev with EvCacheWrite posted => Some posted | _ => None end) evs.

(** The texts typed into the composer. *)
Definition composer_texts (evs : list event) : list string :=
  omap (fun ev =>
          match ev with
          | EvBrowser (send_keys element keys) =>
              if String.eqb element post_box then Some keys else None
          | _ => None
          end) evs.

(** [keeps φ m]: running [m] leaves the cache file alone, and every event
    it adds satisfies [φ]. *)
Definition keeps {A} (φ : event -> Prop) (m : M A) : Prop :=
  forall st, exists ls evs, snd (m st) = effect st ls evs /\ Forall φ evs.

(** An event of the publish step: a WebDriver call, and when it types into
    the composer, what it types is [text]. *)
Definition composer_gets (text : string) (ev : event) : Prop :=
  match ev with
  | EvBrowser (send_keys element keys) =>
      String.eqb element post_box = true -> keys = text
  | EvBrowser _ => True
  | _ => False
  end.

(** Highest key first. *)
Definition descending {A} (key : A -> Z) (l : list A) : Prop :=
  StronglySorted (fun a b => (key b <= key a)%Z) l.

(** A [CaptionCandidate] of the specification: all five members present. *)
Definition is_candidate (v : variant) : bool :=
  bool_decide (is_Some (v_type v)) && bool_decide (is_Some (v_caption v)) &&
  bool_decide (is_Some (v_hashtags v)) && bool_decide (is_Some (v_engagement_score v)) &&
  bool_decide (is_Some (v_why_it_works v)).

(** [feedparser] only ever stores a non-empty list under ['content']. *)
Definition content_well_formed (e : entry) : bool :=
  match e_content e with
  | Some [] => false
  | _ => true
  end.

(** The [post_data] built from an entry. *)
Definition post_of_entry (e : entry) : post_data :=
  {| title := default "Untitled" (e_title e);
     link := default "" (e_link e);
     published := default "" (e_published e);
     summary := default "" (e_summary e);
     content :=
       default (default "" (e_summary e))
         (c_value (hd (ContentItem None) (default [ContentItem None] (e_content e)))) |}.

(** What the publish step reported in the run of [main] from [st], with the
    post and the candidate it was called for; [None] when the run ended
    before the call of [post_to_linkedin] returned. *)
Definition publish_report (w : world) (st : state) : option (post_data * variant * bool) :=
  match choose_post_and_variant w st with
  | (Ret (Some (blog_post, best_variant)), st1) =>
      match publish w blog_post best_variant st1 with
      | (Ret success, _) => Some (blog_post, best_variant, success)
      | (Raise _, _) => None
      end
  | _ => None
  end.

(** The record [save_posted_article] stores for a published post. *)
Definition record_of (w : world) (blog_post : post_data) (best_variant : variant) : posted_info :=
  {| url := link blog_post;
     posted_at := now_isoformat w;
     p_title := title blog_post;
     variant_used := default "" (v_type best_variant) |}.

(** A candidate whose missing score is written out as 0. *)
Definition with_score_zero (v : variant) : variant :=
  match v_engagement_score v with
  | Some _ => v
  | None =>
      {| v_type := v_type v; v_caption := v_caption v; v_hashtags := v_hashtags v;
         v_engagement_score := Some 0%Z; v_why_it_works := v_why_it_works v |}
  end.


(** The feed answers [rss_url] with entries as [feedparser] builds them. *)
Definition feed_well_formed (w : world) (rss_url : string) : bool :=
  match feedparser_parse w rss_url with
  | inl _ => true
  | inr entries => forallb content_well_formed entries
  end.

(** [e] is the first entry of [entries] whose fingerprint the store lacks. *)
Definition first_unrecorded (posted : gmap string posted_info) (entries : list entry)
    (e : entry) : Prop :=
  exists before after,
    entries = (before ++ e :: after)%list /\
    Forall (recorded posted) before /\
    ~ recorded posted e.

(** ** The specification's readings that the program does not follow *)



(** The publish step got as far as line 355. *)
Definition main_post_published (st st' : state) : Prop :=
  "   ✅ Main post published!" ∈ new_logs st st'.

(** The WebDriver calls of the comment step (lines 357-372). *)
Definition comment_calls (blog_url : string) : list browser_call :=
  [wait_until 10 presence_of_element_located By_CSS_SELECTOR comment_box;
   click comment_box;
   send_keys comment_box ("Read the full post: " +:+ blog_url);
   find_element By_CSS_SELECTOR comment_button;
   click comment_button].

Definition in_comment_step (c : browser_call) : bool :=
  match c with
  | wait_until _ _ _ value => String.eqb value comment_box
  | click element => String.eqb element comment_box || String.eqb element comment_button
  | send_keys element _ => String.eqb element comment_box
  | find_element _ value => String.eqb value comment_button
  | _ => false
  end.

Definition comment_step_fails (w : world) (blog_url : string) : bool :=
  existsb (fun c => bool_decide (is_Some (webdriver_raises w c))) (comment_calls blog_url).

(** "The orchestrator commits the dedup record regardless of comment-step
    outcome": once the main post is out, the record of the post is in the
    store when the run ends. *)
Definition commit_not_gated_on_comment : Prop :=
  forall w st blog_post best_variant success,
    publish_report w st = Some (blog_post, best_variant, success) ->
    main_post_published st (snd (main w st)) ->
    is_Some (store (snd (main w st)) !! get_article_hash (link blog_post)).

(** A payload wrapped in a markdown code fence. *)
Definition fenced (payload : string) : string :=
  "```json" +:+ Py.nl +:+ payload +:+ Py.nl +:+ "```".

Definition no_backtick (s : string) : bool :=
  forallb (fun c => negb (Ascii.eqb c "`")) (list_ascii_of_string s).

(** The candidate-set shape of the specification: one candidate per style
    tag, in the order of the prompt, each with all its members. *)
Definition required_shape (variants : list variant) : bool :=
  bool_decide (map v_type variants =
               [Some "personal_story"; Some "question_interrupt"; Some "contrarian_hook"]) &&
  forallb is_candidate variants.

Definition reply_has_required_shape (w : world) (text : string) : bool :=
  match json_loads w (clean_up_markdown text) with
  | inr (DocVariants variants) => required_shape variants
  | _ => false
  end.

(** "Any response that cannot be parsed into this shape is treated as
    generation failure": when no reply of the backend has the shape, the
    run leaves the cache file alone. *)
Definition misshapen_reply_is_generation_failure : Prop :=
  forall w st,
    (forall blog_post text,
       anthropic_messages w (ANTHROPIC_API_KEY w) blog_post = inr text ->
       reply_has_required_shape w text = false) ->
    cache_writes (new_events st (snd (main w st))) = [].

(** What [generate_linkedin_variants] and [main] do reject: text that is no
    JSON, a document without a usable ['variants'], an empty array. *)
Definition rejected (w : world) (text : string) : bool :=
  match json_loads w (clean_up_markdown text) with
  | inl _ | inr (DocOther _) | inr (DocVariants []) => true
  | inr (DocVariants (_ :: _)) => false
  end.

(** ** Sample data *)

Module Sample.

Definition candidate (type : string) (score : Z) : variant :=
  {| v_type := Some type;
     v_caption := Some ("Caption in the style " +:+ type);
     v_hashtags := Some ["AI"; "Leadership"];
     v_engagement_score := Some score;
     v_why_it_works := Some "It opens with a hook" |}.

(** A candidate object without ['engagement_score']. *)
Definition unscored (type : string) : variant :=
  {| v_type := Some type;
     v_caption := Some ("Caption in the style " +:+ type);
     v_hashtags := Some ["AI"];
     v_engagement_score := None;
     v_why_it_works := Some "It opens with a hook" |}.

Definition fresh : state := {| cache_file := None; logs := []; trace := [] |}.


Definition entry_a : entry :=
  {| e_title := Some "Post A";
     e_link := Some "https://example.com/blog/post-a";
     e_published := Some "Mon, 01 Jun 2026 09:00:00 +0000";
     e_summary := Some "Summary of A";
     e_content := Some [ContentItem (Some "<p>Body of A</p>")] |}.

Definition entry_b : entry :=
  {| e_title := Some "Post B";
     e_link := Some "https://example.com/blog/post-b";
     e_published := Some "Tue, 02 Jun 2026 09:00:00 +0000";
     e_summary := Some "Summary of B";
     e_content := None |}.

(** The JSON text of a reply. *)
Definition json_strings (l : list string) : string :=
  "[" +:+ Py.join ", " (map Py.quoted l) +:+ "]".

Definition json_member {A} (name : string) (render : A -> string) (field : option A)
  : option string :=
  (fun a => Py.quoted name +:+ ": " +:+ render a) <$> field.

Definition json_candidate (v : variant) : string :=
  "{" +:+
  Py.join ", "
    (omap id [json_member "type" Py.quoted (v_type v);
              json_member "caption" Py.quoted (v_caption v);
              json_member "hashtags" json_strings (v_hashtags v);
              json_member "engagement_score" Py.str_int (v_engagement_score v);
              json_member "why_it_works" Py.quoted (v_why_it_works v)]) +:+
  "}".

Definition json_reply (variants : list variant) : string :=
  "{" +:+ Py.quoted "variants" +:+ ": [" +:+
  Py.join ", " (map json_candidate variants) +:+ "]}".

(** A decoder that knows the documents [known], and rejects other text
    the way [json.loads] rejects text that is no JSON. *)
Definition decode (known : list (list variant)) (text : string) : string + json_doc :=
  match List.find (fun variants => String.eqb (json_reply variants) text) known with
  | Some variants => inr (DocVariants variants)
  | None => inl "Expecting value: line 1 column 1 (char 0)"
  end.

Definition three : list variant :=
  [candidate "personal_story" 85;
   candidate "question_interrupt" 90;
   candidate "contrarian_hook" 88].

(** Two objects instead of three, the second without its score. *)
Definition partial : list variant :=
  [candidate "personal_story" 85; unscored "question_interrupt"].

Definition never_raises (c : browser_call) : option exn := None.

(** The comment box never shows up. *)
Definition no_comment_box (c : browser_call) : option exn :=
  match c with
  | wait_until _ _ _ value =>
      if String.eqb value comment_box then Some (OtherError "Message: timeout") else None
  | _ => None
  end.

Definition make (email : string) (entries : list entry) (reply : string)
    (raises : browser_call -> option exn) : world :=
  {| SQUARESPACE_RSS_URL := "https://example.com/blog?format=rss";
     ANTHROPIC_API_KEY := "sk-ant-sample";
     LINKEDIN_EMAIL := email;
     LINKEDIN_PASSWORD := "hunter2";
     SELENIUM_AVAILABLE := true;
     now_isoformat := "2026-06-02T10:00:00.000000";
     feedparser_parse := fun _ => inr entries;
     anthropic_messages := fun _ _ => inr reply;
     json_loads := decode [three; partial];
     webdriver_raises := raises;
     url_after_login := "https://www.linkedin.com/feed/" |}.


(** Everything works. *)
Definition healthy (entries : list entry) : world :=
  make "steven@example.com" entries (fenced (json_reply three)) never_raises.

End Sample.

(** ** Vocabulary for the rest of the program *)

(** The WebDriver calls of [post_to_linkedin] in the order of the source:
    starting the browser (lines 296-297), logging in (302-314), reading the
    address (line 318, a second time when the first reading holds no
    ['feed']), composing (326-352) and commenting (362-371). *)
Definition startup_calls : list browser_call :=
  [Chrome chrome_arguments; implicitly_wait 10].

Definition login_calls (w : world) : list browser_call :=
  [get "https://www.linkedin.com/login";
   find_element By_ID "username";
   find_element By_ID "password";
   send_keys "username" (LINKEDIN_EMAIL w);
   send_keys "password" (LINKEDIN_PASSWORD w);
   find_element By_CSS_SELECTOR submit_button;
   click submit_button].

Definition address_reads (w : world) : list browser_call :=
  if Py.str_in "feed" (url_after_login w) then [current_url]
  else [current_url; current_url].

Definition compose_calls (caption : string) (hashtags : list string) : list browser_call :=
  [get "https://www.linkedin.com/feed/";
   wait_until 10 element_to_be_clickable By_CSS_SELECTOR start_post_button;
   click start_post_button;
   wait_until 10 presence_of_element_located By_CSS_SELECTOR post_box;
   send_keys post_box (full_caption caption hashtags);
   find_element By_CSS_SELECTOR post_button;
   click post_button].

Definition session_calls (w : world) (caption : string) (hashtags : list string)
    (blog_url : string) : list browser_call :=
  login_calls w ++ address_reads w ++ compose_calls caption hashtags ++ comment_calls blog_url.

(** The whole script of a session. *)
Definition full_script (w : world) (caption : string) (hashtags : list string)
    (blog_url : string) : list browser_call :=
  startup_calls ++ session_calls w caption hashtags blog_url ++ [quit].

(** The address after login is one the program accepts (line 318). *)
Definition login_accepted (w : world) : bool :=
  Py.str_in "feed" (url_after_login w) || Py.str_in "checkpoint" (url_after_login w).

(** Selenium is there and both credentials are set (lines 276-282). *)
Definition can_post (w : world) : bool :=
  SELENIUM_AVAILABLE w &&
  negb (is_empty (LINKEDIN_EMAIL w) || is_empty (LINKEDIN_PASSWORD w)).

(** The WebDriver calls among some events. *)
Definition browser_calls (evs : list event) : list browser_call :=
  omap (fun ev => match ev with EvBrowser c => Some c | _ => None end) evs.

(** ** The steps of a run, as functions of the world and of the store *)

(** The post [fetch_latest_blog_post] returns, as a function of the feed and
    of the store. *)
Definition next_post (w : world) (rss_url : string) (posted : gmap string posted_info)
    : option post_data :=
  match feedparser_parse w rss_url with
  | inl _ => None
  | inr entries =>
      match List.find (fun e => negb (bool_decide (recorded posted e))) entries with
      | Some e => if content_well_formed e then Some (post_of_entry e) else None
      | None => None
      end
  end.

(** The outcome of [generate_linkedin_variants]. *)
Definition generated (w : world) (blog_post : post_data) : outcome (option (list variant)) :=
  match anthropic_messages w (ANTHROPIC_API_KEY w) blog_post with
  | inl (JSONDecodeError _) => Raise (UnboundLocalError "generated_text")
  | inl _ => Ret None
  | inr text =>
      match json_loads w (clean_up_markdown text) with
      | inr (DocVariants variants) => Ret (Some variants)
      | _ => Ret None
      end
  end.

(** The outcome of [select_best_variant]. *)
Definition selected (variants : list variant) : outcome (option variant) :=
  match sorted_reverse score_key variants with
  | [] => Ret None
  | best :: _ =>
      match v_type best, v_engagement_score best, v_why_it_works best with
      | None, _, _ => Raise (KeyError "type")
      | Some _, None, _ => Raise (KeyError "engagement_score")
      | Some _, Some _, None => Raise (KeyError "why_it_works")
      | Some _, Some _, Some _ => Ret (Some best)
      end
  end.

Definition configured (w : world) : bool :=
  negb (is_empty (SQUARESPACE_RSS_URL w)) && negb (is_empty (ANTHROPIC_API_KEY w)).

(** The outcome of lines 390-425 of [main], and the events on the way. *)
Definition chosen (w : world) (posted : gmap string posted_info)
    : outcome (option (post_data * variant)) :=
  if configured w then
    match next_post w (SQUARESPACE_RSS_URL w) posted with
    | None => Ret None
    | Some blog_post =>
        match generated w blog_post with
        | Raise e => Raise e
        | Ret None | Ret (Some []) => Ret None
        | Ret (Some variants) =>
            match selected variants with
            | Raise e => Raise e
            | Ret None => Ret None
            | Ret (Some best_variant) => Ret (Some (blog_post, best_variant))
            end
        end
    end
  else Ret None.

Definition chosen_events (w : world) (posted : gmap string posted_info) : list event :=
  if configured w then
    EvFeedParse (SQUARESPACE_RSS_URL w) ::
    match next_post w (SQUARESPACE_RSS_URL w) posted with
    | None => []
    | Some blog_post => [EvApiPost (ANTHROPIC_API_KEY w) blog_post]
    end
  else [].

(** The first member the run reads of the chosen candidate and does not
    find: [select_best_variant] reads ['type'], ['engagement_score'] and
    ['why_it_works'] for its log lines (267-268), [main] reads ['caption']
    and ['hashtags'] for the call of [post_to_linkedin] (430-431). *)
Definition first_missing (v : variant) : option string :=
  match v_type v, v_engagement_score v, v_why_it_works v, v_caption v, v_hashtags v with
  | None, _, _, _, _ => Some "type"
  | Some _, None, _, _, _ => Some "engagement_score"
  | Some _, Some _, None, _, _ => Some "why_it_works"
  | Some _, Some _, Some _, None, _ => Some "caption"
  | Some _, Some _, Some _, Some _, None => Some "hashtags"
  | Some _, Some _, Some _, Some _, Some _ => None
  end.

(** The run from [st] finds the entry [e] to publish: the two settings of
    the first steps are there, and [e] is the first unrecorded entry of
    the feed, with a usable ['content']. *)
Definition finds_entry (w : world) (st : state) (e : entry) : Prop :=
  configured w = true /\
  exists entries,
    feedparser_parse w (SQUARESPACE_RSS_URL w) = inr entries /\
    first_unrecorded (store st) entries e /\
    content_well_formed e = true.

(** The run from [st] gets as far as the selection with [best] ranked
    first: it finds [e], the request for [e] returns a text, and the text
    decodes to an array of candidates in which [best] is the first of
    those with the highest score. *)
Definition ranks_first (w : world) (st : state) (e : entry) (best : variant) : Prop :=
  finds_entry w st e /\
  exists text before after,
    anthropic_messages w (ANTHROPIC_API_KEY w) (post_of_entry e) = inr text /\
    json_loads w (clean_up_markdown text) = inr (DocVariants (before ++ best :: after)) /\
    Forall (fun v => (score_key v < score_key best)%Z) before /\
    Forall (fun v => (score_key v <= score_key best)%Z) after.

(** [s.startswith(t)] and [s.endswith(t)] *)
Definition startswith (s t : string) : bool := String.prefix t s.
Definition endswith (s t : string) : bool :=
  String.prefix (Py.rev_string t) (Py.rev_string s).

(** ** The text of the post in the prompt *)

(** The run read so far, as a word of the result: nothing when it is
    empty. *)
Definition word_read (word : string) : list string :=
  if is_empty word then [] else [word].

(** [s.split()]: the maximal runs of characters that are not white space,
    in order.  [word] is the run read so far; [skip] counts the bytes of
    the white-space character just found that are still to be passed
    over. *)
Fixpoint split_from (skip : nat) (word : string) (s : string) : list string :=
  match s with
  | EmptyString => word_read word
  | String c s' =>
      match skip with
      | S k => split_from k word s'
      | O =>
          match List.find (fun space => String.prefix space s) Py.whitespace with
          | Some space =>
              word_read word ++ split_from (Nat.pred (String.length space)) "" s'
          | None => split_from 0 (word +:+ String c "") s'
          end
      end
  end.

Definition str_split (s : string) : list string := split_from 0 "" s.

(** [len(s)]: the number of characters, a character being one UTF-8
    sequence. *)
Definition str_len (s : string) : nat :=
  length (filter (fun c => Py.is_continuation c = false) (list_ascii_of_string s)).

Section Content.

(** [stripper.feed(html_content)] followed by [stripper.get_text()]: the
    character data [HTMLParser] hands to [handle_data], concatenated. *)
Variable get_text : string -> string.

(** [clean_html(html_content)] *)
Definition clean_html (html_content : string) : string :=
  Py.join " " (str_split (get_text html_content)).

(** Lines 146 and 205: [clean_html(blog_post['content'])[:3000]], the
    content put into the prompt. *)
Definition prompt_content (blog_post : post_data) : string :=
  Py.take 3000 (clean_html (content blog_post)).

End Content.

(** A character of [text] is the space. *)
Definition has_space (text : string) : bool :=
  existsb (Ascii.eqb " ") (list_ascii_of_string text).

(** No white-space character starts at any position of [word ++ rest]
    that lies in [word]. *)
Fixpoint clear_of_space (word rest : string) : bool :=
  match word with
  | EmptyString => true
  | String c word' =>
      forallb (fun space => negb (String.prefix space (word +:+ rest))) Py.whitespace &&
      clear_of_space word' rest
  end.

(** A word of the text: not empty, and without white space. *)
Definition is_word (word : string) : Prop :=
  word <> "" /\ Forall (fun space => Py.str_in space word = false) Py.whitespace.

(** ** Several runs *)

(** Two worlds with the same settings of the first three steps, the same
    feed and the same generation backend. *)
Definition same_sources (w1 w2 : world) : Prop :=
  SQUARESPACE_RSS_URL w1 = SQUARESPACE_RSS_URL w2 /\
  ANTHROPIC_API_KEY w1 = ANTHROPIC_API_KEY w2 /\
  feedparser_parse w1 = feedparser_parse w2 /\
  anthropic_messages w1 = anthropic_messages w2 /\
  json_loads w1 = json_loads w2.

(** Nothing stands in the way of publishing. *)
Definition platform_works (w : world) : Prop :=
  can_post w = true /\ login_accepted w = true /\
  forall c, webdriver_raises w c = None.

(** The state after [n] runs in a row. *)
Fixpoint run_many (w : world) (n : nat) (st : state) : state :=
  match n with
  | O => st
  | S n' => run_many w n' (snd (main w st))
  end.

(** The feed is [entries], each of them as [feedparser] builds it, and the
    backend answers every post with a non-empty array of complete
    candidates. *)
Definition sources_work (w : world) (entries : list entry) : Prop :=
  configured w = true /\
  feedparser_parse w (SQUARESPACE_RSS_URL w) = inr entries /\
  forallb content_well_formed entries = true /\
  forall blog_post,
    exists text variants,
      anthropic_messages w (ANTHROPIC_API_KEY w) blog_post = inr text /\
      json_loads w (clean_up_markdown text) = inr (DocVariants variants) /\
      variants <> [] /\
      forallb is_candidate variants = true.

(** The texts typed into the comment box. *)
Definition comment_texts (evs : list event) : list string :=
  omap (fun ev =>
          match ev with
          | EvBrowser (send_keys element keys) =>
              if String.eqb element comment_box then Some keys else None
          | _ => None
          end) evs.

(** An event of the publish step: a WebDriver call, and when it types into
    the comment box, what it types is [text]. *)
Definition comment_gets (text : string) (ev : event) : Prop :=
  match ev with
  | EvBrowser (send_keys element keys) =>
      String.eqb element comment_box = true -> keys = text
  | EvBrowser _ => True
  | _ => False
  end.

(** The entries of the feed still to be published. *)
Definition pending (posted : gmap string posted_info) (entries : list entry) : list entry :=
  filter (fun e => ~ recorded posted e) entries.

(** ** More sample worlds *)

Module Scenario.

(** The reply holds one candidate, and that one has no score. *)
Definition unscored_reply : world :=
  {| SQUARESPACE_RSS_URL := "https://example.com/blog?format=rss";
     ANTHROPIC_API_KEY := "sk-ant-sample";
     LINKEDIN_EMAIL := "steven@example.com";
     LINKEDIN_PASSWORD := "hunter2";
     SELENIUM_AVAILABLE := true;
     now_isoformat := "2026-06-02T10:00:00.000000";
     feedparser_parse := fun _ => inr [Sample.entry_a];
     anthropic_messages :=
       fun _ _ => inr (Sample.json_reply [Sample.unscored "question_interrupt"]);
     json_loads := Sample.decode [[Sample.unscored "question_interrupt"]];
     webdriver_raises := Sample.never_raises;
     url_after_login := "https://www.linkedin.com/feed/" |}.

(** The login ends on a page the program does not expect. *)
Definition login_refused : world :=
  {| SQUARESPACE_RSS_URL := "https://example.com/blog?format=rss";
     ANTHROPIC_API_KEY := "sk-ant-sample";
     LINKEDIN_EMAIL := "steven@example.com";
     LINKEDIN_PASSWORD := "wrong";
     SELENIUM_AVAILABLE := true;
     now_isoformat := "2026-06-02T10:00:00.000000";
     feedparser_parse := fun _ => inr [Sample.entry_a];
     anthropic_messages := fun _ _ => inr (fenced (Sample.json_reply Sample.three));
     json_loads := Sample.decode [Sample.three];
     webdriver_raises := Sample.never_raises;
     url_after_login := "https://www.linkedin.com/uas/login-submit" |}.

(** The first entry has an empty ['content'] list. *)
Definition entry_without_content : entry :=
  {| e_title := Some "Post C";
     e_link := Some "https://example.com/blog/post-c";
     e_published := Some "Wed, 03 Jun 2026 09:00:00 +0000";
     e_summary := Some "Summary of C";
     e_content := Some [] |}.

(** The backend answers with something that is no JSON, so that
    [response.json()] raises. *)
Definition reply_is_no_json : world :=
  {| SQUARESPACE_RSS_URL := "https://example.com/blog?format=rss";
     ANTHROPIC_API_KEY := "sk-ant-sample";
     LINKEDIN_EMAIL := "steven@example.com";
     LINKEDIN_PASSWORD := "hunter2";
     SELENIUM_AVAILABLE := true;
     now_isoformat := "2026-06-02T10:00:00.000000";
     feedparser_parse := fun _ => inr [Sample.entry_a];
     anthropic_messages :=
       fun _ _ => inl (JSONDecodeError "Expecting value: line 1 column 1 (char 0)");
     json_loads := Sample.decode [Sample.three];
     webdriver_raises := Sample.never_raises;
     url_after_login := "https://www.linkedin.com/feed/" |}.

End Scenario.

(** ** Sanity checks of the helpers against Python *)

Example md5_empty : Md5.hexdigest "" = "d41d8cd98f00b204e9800998ecf8427e".
Proof. vm_compute. reflexivity. Qed.
Example md5_abc : Md5.hexdigest "abc" = "900150983cd24fb0d6963f7d28e17f72".
Proof. vm_compute. reflexivity. Qed.
Example md5_url :
  Md5.hexdigest "https://example.com/blog/post-1" = "adb1b26fd165af45a14b3626be008adc".
Proof. vm_compute. reflexivity. Qed.
Example md5_55 : Md5.hexdigest (string_of_list_ascii (repeat "a"%char 55)) = "ef1772b6dff9a122358552954ad0df65".
Proof. vm_compute. reflexivity. Qed.
Example md5_56 : Md5.hexdigest (string_of_list_ascii (repeat "a"%char 56)) = "3b0c8ac703f828b04c6c197006d17218".
Proof. vm_compute. reflexivity. Qed.
Example md5_64 : Md5.hexdigest (string_of_list_ascii (repeat "a"%char 64)) = "014842d480b571495a4a0363793f7367".
Proof. vm_compute. reflexivity. Qed.
Example md5_119 : Md5.hexdigest (string_of_list_ascii (repeat "a"%char 119)) = "8a7bd0732ed6a28ce75f6dabc90e1613".
Proof. vm_compute. reflexivity. Qed.
Example md5_120 : Md5.hexdigest (string_of_list_ascii (repeat "a"%char 120)) = "5f61c0ccad4cac44c75ff505e1f1e537".
Proof. vm_compute. reflexivity. Qed.
Example md5_utf8 : Md5.hexdigest "héllo" = "be50e8478cf24ff3595bc7307fb91b50".
Proof. vm_compute. reflexivity. Qed.
Example replace_fences :
  Py.replace "```" "" (Py.replace "```json" "" "```json{}```") = "{}".
Proof. reflexivity. Qed.
Example replace_overlap : Py.replace "aa" "b" "aaa" = "ba".
Proof. reflexivity. Qed.
Example strip_both : Py.strip (Py.nl +:+ "  {} " +:+ Py.utf8 [194; 160]%nat +:+ Py.nl) = "{}".
Proof. reflexivity. Qed.
Example take_utf8 : Py.take 2 "héllo" = "hé".
Proof. reflexivity. Qed.
Example str_int_neg : Py.str_int (-42)%Z = "-42".
Proof. reflexivity. Qed.
Example str_in_feed : Py.str_in "feed" "https://www.linkedin.com/feed/" = true.
Proof. reflexivity. Qed.

Local Open Scope list_scope.

(** ** How the monad's operations act on the state *)

Lemma effect_nil st : effect st [] [] = st.
Proof. destruct st; unfold effect; simpl. by rewrite !app_nil_r. Qed.

Lemma effect_effect st l1 e1 l2 e2 :
  effect (effect st l1 e1) l2 e2 = effect st (l1 ++ l2) (e1 ++ e2).
Proof. unfold effect; simpl. by rewrite !app_assoc. Qed.

Lemma new_events_effect st ls evs : new_events st (effect st ls evs) = evs.
Proof. unfold new_events; simpl. by rewrite drop_app_length. Qed.

Lemma new_logs_effect st ls evs : new_logs st (effect st ls evs) = ls.
Proof. unfold new_logs; simpl. by rewrite drop_app_length. Qed.

Lemma store_effect st ls evs : store (effect st ls evs) = store st.
Proof. reflexivity. Qed.


Section Keeps.

Context {A B : Type} (φ : event -> Prop).

Lemma keeps_ret (a : A) : keeps φ (ret a).
Proof. intros st. exists [], []. by rewrite effect_nil. Qed.

Lemma keeps_raise (e : exn) : keeps φ (@raise A e).
Proof. intros st. exists [], []. by rewrite effect_nil. Qed.

Lemma keeps_log msg : keeps φ (log msg).
Proof. intros st. by exists [msg], []. Qed.

Lemma keeps_emit ev : φ ev -> keeps φ (emit ev).
Proof. intros H st. exists [], [ev]. split; [done | by constructor]. Qed.

Lemma keeps_bind (m : M A) (k : A -> M B) :
  keeps φ m -> (forall a, keeps φ (k a)) -> keeps φ (bind m k).
Proof.
  intros Hm Hk st. unfold bind.
  destruct (Hm st) as (l1 & e1 & E1 & F1).
  destruct (m st) as [[a | e] st1]; simpl in E1; subst st1.
  - destruct (Hk a (effect st l1 e1)) as (l2 & e2 & E2 & F2).
    exists (l1 ++ l2)%list, (e1 ++ e2)%list. rewrite E2, effect_effect.
    split; [done | by apply Forall_app].
  - by exists l1, e1.
Qed.

Lemma keeps_try_except (m : M A) (h : exn -> M A) :
  keeps φ m -> (forall e, keeps φ (h e)) -> keeps φ (try_except m h).
Proof.
  intros Hm Hh st. unfold try_except.
  destruct (Hm st) as (l1 & e1 & E1 & F1).
  destruct (m st) as [[a | e] st1]; simpl in E1; subst st1.
  - by exists l1, e1.
  - destruct (Hh e (effect st l1 e1)) as (l2 & e2 & E2 & F2).
    exists (l1 ++ l2)%list, (e1 ++ e2)%list. rewrite E2, effect_effect.
    split; [done | by apply Forall_app].
Qed.

Lemma keeps_try_finally (m : M A) (c : M unit) :
  keeps φ m -> keeps φ c -> keeps φ (try_finally m c).
Proof.
  intros Hm Hc st. unfold try_finally.
  destruct (Hm st) as (l1 & e1 & E1 & F1).
  destruct (m st) as [r st1]; simpl in E1; subst st1.
  destruct (Hc (effect st l1 e1)) as (l2 & e2 & E2 & F2).
  exists (l1 ++ l2)%list, (e1 ++ e2)%list.
  destruct (c (effect st l1 e1)) as [[[] | e] st2]; simpl in *; subst st2;
    rewrite effect_effect; (split; [done | by apply Forall_app]).
Qed.

Lemma keeps_getitem key (field : option A) : keeps φ (getitem key field).
Proof. destruct field; [apply keeps_ret | apply keeps_raise]. Qed.

Lemma keeps_first_item (l : list A) : keeps φ (first_item l).
Proof. destruct l; [apply keeps_raise | apply keeps_ret]. Qed.

End Keeps.

Lemma keeps_load φ : keeps φ load_posted_articles.
Proof.
  intros st. exists [], []. unfold load_posted_articles.
  destruct (cache_file st); simpl; by rewrite effect_nil.
Qed.

Lemma keeps_weaken {A} (φ ψ : event -> Prop) (m : M A) :
  (forall ev, φ ev -> ψ ev) -> keeps φ m -> keeps ψ m.
Proof.
  intros H Hm st. destruct (Hm st) as (ls & evs & E & F).
  exists ls, evs. split; [done | by eapply Forall_impl].
Qed.

Create HintDb keeps.
#[local] Hint Resolve keeps_ret keeps_raise keeps_log keeps_getitem
  keeps_first_item keeps_load : keeps.

(** Goals of the form [keeps φ m] are solved along the structure of [m]. *)
Ltac keeps_step :=
  lazymatch goal with
  | |- keeps _ (bind _ _) => apply keeps_bind; [| intros ?]
  | |- keeps _ (try_except _ _) => apply keeps_try_except; [| intros ?]
  | |- keeps _ (try_finally _ _) => apply keeps_try_finally
  | |- keeps _ (if ?b then _ else _) => destruct b
  | |- keeps _ (match ?x with _ => _ end) => destruct x
  | |- keeps _ (emit _) => apply keeps_emit; simpl; try done
  | |- keeps _ _ => solve [eauto with keeps]
  end.
Ltac keeps_auto := repeat keeps_step.

Lemma keeps_is_already_posted φ url : keeps φ (is_already_posted url).
Proof. unfold is_already_posted. keeps_auto. Qed.
#[local] Hint Resolve keeps_is_already_posted : keeps.

Lemma keeps_first_unposted φ entries : keeps φ (first_unposted entries).
Proof. induction entries as [| entry rest IH]; simpl; keeps_auto. Qed.
#[local] Hint Resolve keeps_first_unposted : keeps.

Lemma keeps_fetch_latest_blog_post w rss_url :
  keeps (fun ev => ev = EvFeedParse rss_url) (fetch_latest_blog_post w rss_url).
Proof. unfold fetch_latest_blog_post, parse_feed. keeps_auto. Qed.

Lemma keeps_generate_linkedin_variants w blog_post :
  keeps (fun ev => ev = EvApiPost (ANTHROPIC_API_KEY w) blog_post)
        (generate_linkedin_variants w blog_post).
Proof.
  unfold generate_linkedin_variants, request_generation, parse_json,
    variants_of, generation_failed.
  keeps_auto.
Qed.

Lemma keeps_select_best_variant φ variants : keeps φ (select_best_variant variants).
Proof. unfold select_best_variant. keeps_auto. Qed.

Lemma keeps_call w (φ : event -> Prop) c : φ (EvBrowser c) -> keeps φ (call w c).
Proof. intros H. unfold call. keeps_auto. Qed.

(** ** The composer text *)


Lemma keeps_post_to_linkedin w caption hashtags blog_url :
  keeps (composer_gets (full_caption caption hashtags))
        (post_to_linkedin w caption hashtags blog_url).
Proof.
  unfold post_to_linkedin, browser_session, login_rejected, publish_main_post,
    add_comment, read_current_url.
  repeat first [ apply keeps_call; simpl; try done; vm_compute; discriminate
               | keeps_step ].
Qed.

Lemma composer_texts_gets text evs :
  Forall (composer_gets text) evs -> Forall (fun keys => keys = text) (composer_texts evs).
Proof.
  induction 1 as [| ev evs H _ IH]; simpl; [constructor |].
  unfold composer_texts in *; simpl.
  destruct ev as [| | [] |]; simpl in *; try done.
  destruct (String.eqb element post_box); [| done].
  constructor; auto.
Qed.

(** ** The ranking *)

Section Ranking.

Context {A : Type} (key : A -> Z).

Lemma insert_desc_perm x l : insert_desc key x l ≡ₚ x :: l.
Proof.
  induction l as [| y l IH]; simpl; [done |].
  destruct (key y <=? key x)%Z; [done |].
  rewrite IH. apply Permutation_swap.
Qed.

Lemma sorted_reverse_perm l : sorted_reverse key l ≡ₚ l.
Proof.
  induction l as [| x l IH]; simpl; [done |].
  rewrite insert_desc_perm. by rewrite IH.
Qed.


Lemma insert_desc_descending x l :
  descending key l -> descending key (insert_desc key x l).
Proof.
  induction 1 as [| y l Hl IH Hy]; simpl.
  - repeat constructor.
  - destruct (Z.leb_spec (key y) (key x)).
    + constructor; [by constructor |].
      constructor; [done |].
      eapply Forall_impl; [exact Hy |]. simpl. intros; lia.
    + constructor; [done |].
      rewrite insert_desc_perm. constructor; [lia | done].
Qed.

Lemma sorted_reverse_descending l : descending key (sorted_reverse key l).
Proof.
  induction l as [| x l IH]; simpl; [constructor |].
  by apply insert_desc_descending.
Qed.

(** The head of the ranking is the first of the candidates with the
    highest key. *)
Lemma sorted_reverse_head l :
  l <> [] ->
  exists before best after,
    l = before ++ best :: after /\
    head (sorted_reverse key l) = Some best /\
    Forall (fun v => (key v < key best)%Z) before /\
    Forall (fun v => (key v <= key best)%Z) after.
Proof.
  induction l as [| x l IH]; [done |]. intros _.
  destruct l as [| y l].
  - exists [], x, []. simpl. by repeat split.
  - destruct IH as (before & best & after & E & Hhd & Hb & Ha); [done |].
    change (sorted_reverse key (x :: y :: l))
      with (insert_desc key x (sorted_reverse key (y :: l))).
    destruct (sorted_reverse key (y :: l)) as [| m s]; [done |].
    simpl in Hhd. injection Hhd as ->. simpl.
    destruct (Z.leb_spec (key best) (key x)).
    + exists [], x, (y :: l). simpl. repeat split; [constructor |].
      rewrite E. apply Forall_app. split.
      * eapply Forall_impl; [exact Hb |]. simpl. intros; lia.
      * constructor; [lia |].
        eapply Forall_impl; [exact Ha |]. simpl. intros; lia.
    + exists (x :: before), best, after. rewrite E. simpl.
      repeat split; [| done]. by constructor.
Qed.

Lemma sorted_reverse_map (f : A -> A) l :
  (forall x, key (f x) = key x) ->
  sorted_reverse key (map f l) = map f (sorted_reverse key l).
Proof.
  intros Hf. induction l as [| x l IH]; simpl; [done |].
  rewrite IH. generalize (sorted_reverse key l) as s.
  induction s as [| y s IHs]; simpl; [done |].
  rewrite !Hf. destruct (key y <=? key x)%Z; simpl; [done |].
  by rewrite IHs.
Qed.

End Ranking.

(** What [select_best_variant] returns, given the head of the ranking. *)
Lemma select_best_variant_head variants best st :
  head (sorted_reverse score_key variants) = Some best ->
  fst (select_best_variant variants st) =
    match v_type best, v_engagement_score best, v_why_it_works best with
    | None, _, _ => Raise (KeyError "type")
    | Some _, None, _ => Raise (KeyError "engagement_score")
    | Some _, Some _, None => Raise (KeyError "why_it_works")
    | Some _, Some _, Some _ => Ret (Some best)
    end.
Proof.
  intros H. destruct variants as [| v vs]; [done |].
  unfold select_best_variant.
  destruct (sorted_reverse score_key (v :: vs)) as [| b s]; [done |].
  injection H as ->. unfold bind; simpl.
  destruct (v_type best), (v_engagement_score best), (v_why_it_works best); done.
Qed.

Lemma is_candidate_fields v :
  is_candidate v = true ->
  is_Some (v_type v) /\ is_Some (v_engagement_score v) /\ is_Some (v_why_it_works v).
Proof.
  unfold is_candidate. rewrite !andb_true_iff, !bool_decide_eq_true. tauto.
Qed.

(** C7. The selector returns nothing exactly on the empty list; on a
    non-empty list of candidates it returns the one with the highest score,
    the earliest-listed of those when several share it.  With scores 85, 90,
    88 it returns the second candidate, with 90, 90, 80 the first. *)
Theorem select_best_variant_correct :
  (forall variants st,
     fst (select_best_variant variants st) = Ret None <-> variants = []) /\
  (forall variants st,
     variants <> [] ->
     forallb is_candidate variants = true ->
     exists before best after,
       fst (select_best_variant variants st) = Ret (Some best) /\
       variants = before ++ best :: after /\
       Forall (fun v => (score_key v < score_key best)%Z) before /\
       Forall (fun v => (score_key v <= score_key best)%Z) after) /\
  (forall st,
     fst (select_best_variant
            [Sample.candidate "personal_story" 85;
             Sample.candidate "question_interrupt" 90;
             Sample.candidate "contrarian_hook" 88] st) =
     Ret (Some (Sample.candidate "question_interrupt" 90))) /\
  (forall st,
     fst (select_best_variant
            [Sample.candidate "personal_story" 90;
             Sample.candidate "question_interrupt" 90;
             Sample.candidate "contrarian_hook" 80] st) =
     Ret (Some (Sample.candidate "personal_story" 90))).
Proof.
  split; [| split; [| split; reflexivity]].
  - intros variants st. split; [| by intros ->].
    destruct variants as [| v vs]; [done |]. intros H. exfalso.
    destruct (sorted_reverse_head score_key (v :: vs)) as (b & best & a & _ & Hhd & _); [done |].
    rewrite (select_best_variant_head _ best) in H by done.
    destruct (v_type best), (v_engagement_score best), (v_why_it_works best); done.
  - intros variants st Hne Hall.
    destruct (sorted_reverse_head score_key variants Hne)
      as (before & best & after & E & Hhd & Hb & Ha).
    exists before, best, after. repeat split; try done.
    rewrite (select_best_variant_head _ best) by done.
    assert (is_candidate best = true) as Hc.
    { rewrite forallb_forall in Hall. apply Hall. rewrite E.
      apply in_or_app. right. by left. }
    destruct (is_candidate_fields _ Hc) as ([? ->] & [? ->] & [? ->]). done.
Qed.

Lemma select_best_variant_correct_witness :
  exists best,
    fst (select_best_variant
           [Sample.candidate "personal_story" 70; Sample.candidate "question_interrupt" 95]
           Sample.fresh) = Ret (Some best) /\
    v_type best = Some "question_interrupt".
Proof.
  destruct (proj1 (proj2 select_best_variant_correct)
              [Sample.candidate "personal_story" 70; Sample.candidate "question_interrupt" 95]
              Sample.fresh)
    as (before & best & after & E & L & Hb & Ha); [done | reflexivity |].
  exists best. split; [exact E |].
  vm_compute in E. by injection E as <-.
Defined.

Lemma score_key_with_score_zero v : score_key (with_score_zero v) = score_key v.
Proof. destruct v as [? ? ? [score |] ?]; reflexivity. Qed.

(** C10. In a non-empty list, a candidate without a score is ranked with key
    0, exactly as if 0 were written out, and the ranking step never fails:
    it yields a best candidate, the first of those with the highest key.
    The selector goes by that candidate alone: it returns it when it has
    its type, score and reason, and raises the [KeyError] of the first of
    these it lacks at the log lines after the ranking.  As soon as some
    candidate has a positive score, the best one has a positive score of
    its own, so the candidate without a score is not chosen: the selector
    returns the best one whenever that has its type and reason, and does
    on the list what it does on the list with 0 written out. *)
Theorem missing_score_ranks_as_zero :
  forall (variants : list variant) (u : variant),
    u ∈ variants ->
    v_engagement_score u = None ->
    score_key u = 0%Z /\
    sorted_reverse score_key (map with_score_zero variants) =
      map with_score_zero (sorted_reverse score_key variants) /\
    exists before best after,
      variants = before ++ best :: after /\
      Forall (fun v => (score_key v < score_key best)%Z) before /\
      Forall (fun v => (score_key v <= score_key best)%Z) after /\
      (forall st, first_item (sorted_reverse score_key variants) st = (Ret best, st)) /\
      Forall (fun v => (score_key v <= score_key best)%Z) variants /\
      (forall st,
         fst (select_best_variant variants st) =
           match v_type best, v_engagement_score best, v_why_it_works best with
           | None, _, _ => Raise (KeyError "type")
           | Some _, None, _ => Raise (KeyError "engagement_score")
           | Some _, Some _, None => Raise (KeyError "why_it_works")
           | Some _, Some _, Some _ => Ret (Some best)
           end) /\
      ((exists v, v ∈ variants /\ (0 < score_key v)%Z) ->
       best <> u /\
       (exists score, v_engagement_score best = Some score /\ (0 < score)%Z) /\
       (forall st,
          fst (select_best_variant variants st) =
            match v_type best, v_why_it_works best with
            | None, _ => Raise (KeyError "type")
            | Some _, None => Raise (KeyError "why_it_works")
            | Some _, Some _ => Ret (Some best)
            end) /\
       (forall st,
          fst (select_best_variant (map with_score_zero variants) st) =
            fst (select_best_variant variants st))) /\
      (forall st r, fst (select_best_variant variants st) = Ret r -> r = Some best).
Proof.
  intros variants u Hu Hnone.
  assert (score_key u = 0%Z) as Hkey by (unfold score_key; by rewrite Hnone).
  split; [done |].
  split; [apply sorted_reverse_map, score_key_with_score_zero |].
  assert (variants <> []) as Hne.
  { intros E. rewrite E in Hu. by apply elem_of_nil in Hu. }
  destruct (sorted_reverse_head score_key variants Hne)
    as (before & best & after & E & Hhd & Hb & Ha).
  assert (Forall (fun v => (score_key v <= score_key best)%Z) variants) as Hmax.
  { rewrite E. apply Forall_app. split.
    - eapply Forall_impl; [exact Hb |]. simpl. intros; lia.
    - constructor; [lia | done]. }
  assert (forall st,
            fst (select_best_variant variants st) =
              match v_type best, v_engagement_score best, v_why_it_works best with
              | None, _, _ => Raise (KeyError "type")
              | Some _, None, _ => Raise (KeyError "engagement_score")
              | Some _, Some _, None => Raise (KeyError "why_it_works")
              | Some _, Some _, Some _ => Ret (Some best)
              end) as Hsel
    by (intros st; by apply select_best_variant_head).
  exists before, best, after.
  split; [done |]. split; [done |]. split; [done |].
  split; [| split; [done |]; split; [done |]; split].
  - intros st. destruct (sorted_reverse score_key variants); [done |].
    simpl in Hhd. by injection Hhd as ->.
  - intros (v & Hv & Hpos).
    rewrite Forall_forall in Hmax. specialize (Hmax v Hv).
    assert (0 < score_key best)%Z as Hbest by lia.
    split; [intros ->; lia |].
    unfold score_key in Hbest.
    destruct (v_engagement_score best) as [score |] eqn:Hscore; simpl in Hbest; [| lia].
    split; [by exists score |]. split.
    + intros st. rewrite Hsel. by destruct (v_type best), (v_why_it_works best).
    + intros st. rewrite Hsel.
      rewrite (select_best_variant_head _ best); [by rewrite Hscore |].
      rewrite (sorted_reverse_map score_key with_score_zero)
        by apply score_key_with_score_zero.
      destruct (sorted_reverse score_key variants) as [| x s]; [done |].
      injection Hhd as ->. simpl. unfold with_score_zero. by rewrite Hscore.
  - intros st r. rewrite Hsel.
    destruct (v_type best), (v_engagement_score best), (v_why_it_works best);
      intros [= <-]; done.
Qed.

Lemma missing_score_ranks_as_zero_witness :
  fst (select_best_variant
         [Sample.unscored "personal_story"; Sample.candidate "question_interrupt" 40]
         Sample.fresh) =
    Ret (Some (Sample.candidate "question_interrupt" 40)).
Proof.
  destruct (missing_score_ranks_as_zero
              [Sample.unscored "personal_story"; Sample.candidate "question_interrupt" 40]
              (Sample.unscored "personal_story"))
    as (_ & _ & before & best & after & _ & _ & _ & E & _ & Hsel & _);
    [by left | reflexivity |].
  specialize (E Sample.fresh). specialize (Hsel Sample.fresh).
  vm_compute in E. injection E as <-. exact Hsel.
Defined.

(** ** The dedup cache *)

Lemma load_posted_articles_run st : load_posted_articles st = (Ret (store st), st).
Proof. unfold load_posted_articles, store. by destruct (cache_file st). Qed.

Lemma is_already_posted_run url st :
  is_already_posted url st =
    (Ret (bool_decide (is_Some (store st !! get_article_hash url))), st).
Proof. unfold is_already_posted, bind. by rewrite load_posted_articles_run. Qed.

Lemma save_posted_article_run w url info st :
  save_posted_article w url info st =
    (Ret tt,
     let posted :=
       <[get_article_hash url :=
           {| url := url; posted_at := now_isoformat w;
              p_title := default "" (pi_title info);
              variant_used := default "" (pi_variant_used info) |}]> (store st) in
     {| cache_file := Some posted;
        logs := logs st;
        trace := trace st ++ [EvCacheWrite posted] |}).
Proof. unfold save_posted_article, bind. by rewrite load_posted_articles_run. Qed.

Lemma first_unposted_skip e rest st :
  recorded (store st) e -> first_unposted (e :: rest) st = first_unposted rest st.
Proof.
  intros H. simpl. unfold bind at 1. rewrite is_already_posted_run.
  by rewrite bool_decide_eq_true_2.
Qed.

(** C9. The fingerprint is computed from the URL and from nothing else: in
    every world and state [save_posted_article] files the record under the
    MD5 digest of the URL, whatever title and candidate come with it, the
    lookup reads that same key, and an entry with the same link is then
    recognised and passed over whatever its title, date, summary and content
    have become.  The digest is the one [hashlib.md5] gives in any
    process. *)
Theorem fingerprint_of_url_alone :
  (forall w st u info,
     exists record,
       cache_file (snd (save_posted_article w u info st)) =
         Some (<[get_article_hash u := record]> (store st))) /\
  (forall st u,
     fst (is_already_posted u st) =
       Ret (bool_decide (is_Some (store st !! get_article_hash u)))) /\
  (forall w st u info t p s c rest,
     let st1 := snd (save_posted_article w u info st) in
     recorded (store st1) (Entry t (Some u) p s c) /\
     first_unposted (Entry t (Some u) p s c :: rest) st1 = first_unposted rest st1) /\
  get_article_hash "https://example.com/blog/post-1" = "adb1b26fd165af45a14b3626be008adc".
Proof.
  split; [| split; [| split]].
  - intros. rewrite save_posted_article_run. simpl. eauto.
  - intros. by rewrite is_already_posted_run.
  - intros. subst st1. rewrite save_posted_article_run.
    assert (recorded
              (store {| cache_file :=
                          Some (<[get_article_hash u :=
                                    {| url := u; posted_at := now_isoformat w;
                                       p_title := default "" (pi_title info);
                                       variant_used := default "" (pi_variant_used info) |}]>
                                  (store st));
                        logs := logs st;
                        trace := trace st ++
                          [EvCacheWrite
                             (<[get_article_hash u :=
                                  {| url := u; posted_at := now_isoformat w;
                                     p_title := default "" (pi_title info);
                                     variant_used := default "" (pi_variant_used info) |}]>
                                (store st))] |})
              (Entry t (Some u) p s c)) as H.
    { unfold recorded, store. simpl. rewrite lookup_insert_eq. eauto. }
    split; [exact H |]. by apply first_unposted_skip.
  - vm_compute. reflexivity.
Qed.

(** ** The feed scan *)

Lemma first_unposted_run entries st :
  exists ls r,
    first_unposted entries st = (r, effect st ls []) /\
    ((Forall (recorded (store st)) entries /\ r = Ret None) \/
     (exists e, first_unrecorded (store st) entries e /\
                r = if content_well_formed e then Ret (Some (post_of_entry e))
                    else Raise IndexError)).
Proof.
  induction entries as [| e rest IH].
  - eexists _, _. split; [reflexivity |]. left. by split.
  - destruct (decide (recorded (store st) e)) as [Hrec | Hnew].
    + rewrite first_unposted_skip by done.
      destruct IH as (ls & r & E & [[Hall ->] | (e' & (b & a & -> & Hb & Hn) & ->)]).
      * exists ls, (Ret None). split; [done |]. left. split; [by constructor | done].
      * eexists ls, _. split; [exact E |]. right. exists e'. split; [| done].
        exists (e :: b), a. split; [done |]. split; [by constructor | done].
    + assert (first_unrecorded (store st) (e :: rest) e) as Hfirst.
      { exists [], rest. split; [done |]. split; [constructor | done]. }
      simpl. unfold bind at 1. rewrite is_already_posted_run.
      rewrite bool_decide_eq_false_2 by done. simpl.
      unfold content_well_formed, post_of_entry at 1.
      destruct (e_content e) as [[| item items] |] eqn:Ec; simpl.
      * exists [], (Raise IndexError). rewrite effect_nil. split; [done |].
        right. exists e. split; [done |].
        unfold content_well_formed. by rewrite Ec.
      * eexists [_], _. split; [reflexivity |]. right. exists e. split; [done |].
        unfold content_well_formed, post_of_entry. by rewrite Ec.
      * eexists [_], _. split; [reflexivity |]. right. exists e. split; [done |].
        unfold content_well_formed, post_of_entry. by rewrite Ec.
Qed.

(** The whole of [fetch_latest_blog_post]: it returns, adds the feed fetch
    as its only event, and yields the first unrecorded entry, if there is
    one and reading its content does not fail. *)
Lemma fetch_latest_blog_post_run w rss_url st :
  exists ls result,
    fetch_latest_blog_post w rss_url st = (Ret result, effect st ls [EvFeedParse rss_url]) /\
    match feedparser_parse w rss_url with
    | inl _ => result = None
    | inr entries =>
        (Forall (recorded (store st)) entries /\ result = None) \/
        (exists e, first_unrecorded (store st) entries e /\
                   result = if content_well_formed e then Some (post_of_entry e) else None)
    end.
Proof.
  unfold fetch_latest_blog_post, try_except, parse_feed, bind. simpl.
  destruct (feedparser_parse w rss_url) as [e | entries]; simpl.
  - unfold ret. rewrite !effect_effect. by eexists _, None.
  - destruct entries as [| e0 rest].
    + unfold ret. rewrite !effect_effect. eexists _, None.
      split; [done |]. left. by split.
    + destruct (first_unposted_run (e0 :: rest)
                  (effect (effect st ["📡 Fetching RSS feed..."] []) [] [EvFeedParse rss_url]))
        as (ls & r & E & H).
      rewrite E, !effect_effect. rewrite !store_effect in H. simpl.
      destruct H as [[Hall ->] | (e & Hfirst & ->)].
      * eexists _, None. split; [done |]. by left.
      * destruct (content_well_formed e) eqn:Hwf.
        -- eexists _, _. split; [reflexivity |]. right. exists e. by rewrite Hwf.
        -- unfold ret. rewrite effect_effect.
           eexists _, None. split; [reflexivity |]. right. exists e. by rewrite Hwf.
Qed.

Lemma first_unrecorded_well_formed posted entries e :
  forallb content_well_formed entries = true ->
  first_unrecorded posted entries e -> content_well_formed e = true.
Proof.
  intros Hall (b & a & -> & _). rewrite forallb_forall in Hall.
  apply Hall. apply in_or_app. right. by left.
Qed.

(** C4. On a feed whose entries are as [feedparser] builds them,
    [fetch_latest_blog_post] returns the post of the first entry, in feed
    order, whose fingerprint the store lacks; it returns [None] when every
    entry is recorded (an empty feed included), and also when the feed
    cannot be retrieved; in no case does an exception leave it. *)
Theorem fetch_latest_blog_post_correct :
  forall w rss_url st,
    feed_well_formed w rss_url = true ->
    exists result,
      fst (fetch_latest_blog_post w rss_url st) = Ret result /\
      match feedparser_parse w rss_url with
      | inl _ => result = None
      | inr entries =>
          (Forall (recorded (store st)) entries /\ result = None) \/
          (exists e, first_unrecorded (store st) entries e /\
                     result = Some (post_of_entry e))
      end.
Proof.
  intros w rss_url st Hwf.
  destruct (fetch_latest_blog_post_run w rss_url st) as (ls & result & E & H).
  exists result. rewrite E. split; [done |].
  unfold feed_well_formed in Hwf.
  destruct (feedparser_parse w rss_url) as [e | entries]; [done |].
  destruct H as [H | (e & Hfirst & ->)]; [by left |].
  right. exists e. split; [done |].
  by rewrite (first_unrecorded_well_formed _ _ _ Hwf Hfirst).
Qed.

Lemma fetch_latest_blog_post_correct_witness :
  exists result,
    fst (fetch_latest_blog_post (Sample.healthy [Sample.entry_b; Sample.entry_a])
           "https://example.com/blog?format=rss" Sample.fresh) = Ret result /\
    result = Some (post_of_entry Sample.entry_b).
Proof.
  destruct (fetch_latest_blog_post_correct (Sample.healthy [Sample.entry_b; Sample.entry_a])
              "https://example.com/blog?format=rss" Sample.fresh eq_refl)
    as (result & E & H).
  exists result. split; [exact E |].
  vm_compute in E. by injection E as <-.
Defined.

(** ** The steps of [main] and the events they add *)

Lemma keeps_publish w blog_post best_variant :
  keeps (fun ev => is_platform_interaction ev = true) (publish w blog_post best_variant).
Proof.
  unfold publish. keeps_auto.
  eapply keeps_weaken; [| apply keeps_post_to_linkedin].
  intros [| | [] |]; simpl; done.
Qed.

Lemma keeps_choose_post_and_variant w :
  keeps (fun ev => ev = EvFeedParse (SQUARESPACE_RSS_URL w) \/
                   exists blog_post, ev = EvApiPost (ANTHROPIC_API_KEY w) blog_post)
        (choose_post_and_variant w).
Proof.
  unfold choose_post_and_variant.
  repeat first
    [ eapply keeps_weaken; [| apply keeps_fetch_latest_blog_post]; simpl; by left
    | eapply keeps_weaken; [| apply keeps_generate_linkedin_variants]; simpl; by eauto
    | apply keeps_select_best_variant
    | keeps_step ].
Qed.

Lemma keeps_run {A} φ (m : M A) st r st' :
  keeps φ m -> m st = (r, st') ->
  exists ls evs, st' = effect st ls evs /\ Forall φ evs.
Proof.
  intros H E. destruct (H st) as (ls & evs & E' & F).
  rewrite E in E'. by exists ls, evs.
Qed.

Lemma cache_writes_app e1 e2 : cache_writes (e1 ++ e2) = cache_writes e1 ++ cache_writes e2.
Proof. apply omap_app. Qed.

Lemma cache_writes_none evs :
  Forall (fun ev => is_cache_write ev = false) evs -> cache_writes evs = [].
Proof.
  induction 1 as [| ev evs H _ IH]; [done |].
  destruct ev; try done; exact IH.
Qed.

(** The candidate [select_best_variant] returns carries the members the
    later steps read with [best_variant[...]]. *)
Lemma select_best_variant_returns variants st best st' :
  select_best_variant variants st = (Ret (Some best), st') ->
  is_Some (v_type best) /\ is_Some (v_engagement_score best).
Proof.
  unfold select_best_variant. destruct variants as [| v vs]; [done |].
  destruct (sorted_reverse score_key (v :: vs)) as [| b s]; [done |].
  unfold bind; simpl.
  destruct (v_type b) eqn:Et, (v_engagement_score b) eqn:Es, (v_why_it_works b);
    simpl; try done.
  intros [= <- _]. rewrite Et, Es. eauto.
Qed.

Lemma choose_post_and_variant_returns w st blog_post best_variant st' :
  choose_post_and_variant w st = (Ret (Some (blog_post, best_variant)), st') ->
  is_Some (v_type best_variant) /\ is_Some (v_engagement_score best_variant).
Proof.
  unfold choose_post_and_variant, bind, log, ret. simpl.
  intros H. repeat case_match; simplify_eq.
  by eapply select_best_variant_returns.
Qed.

Lemma new_events_trace st st' evs :
  trace st' = trace st ++ evs -> new_events st st' = evs.
Proof. unfold new_events. intros ->. by rewrite drop_app_length. Qed.

Lemma Forall_no_write_platform evs :
  Forall (fun ev => is_platform_interaction ev = true) evs ->
  Forall (fun ev => is_cache_write ev = false) evs.
Proof. intros H. eapply Forall_impl; [exact H |]. by intros []. Qed.

Lemma Forall_no_write_choose w evs :
  Forall (fun ev => ev = EvFeedParse (SQUARESPACE_RSS_URL w) \/
                    exists blog_post, ev = EvApiPost (ANTHROPIC_API_KEY w) blog_post) evs ->
  Forall (fun ev => is_cache_write ev = false) evs.
Proof. intros H. eapply Forall_impl; [exact H |]. by intros ev [-> | (? & ->)]. Qed.

(** ** Commit after publish *)

(** C1. In every run the cache file is written exactly when the publish
    step returned [True]: then the run ends normally and the one write
    files the record of the chosen post under the fingerprint of its link;
    in every other run (early return, exception, or a publish step that
    returned [False]) the file is not written and keeps its content. *)
Theorem record_iff_publish_succeeded :
  forall w st,
    let st' := snd (main w st) in
    match publish_report w st with
    | Some (blog_post, best_variant, true) =>
        let posted :=
          <[get_article_hash (link blog_post) := record_of w blog_post best_variant]>
            (store st) in
        fst (main w st) = Ret tt /\
        cache_file st' = Some posted /\
        cache_writes (new_events st st') = [posted]
    | _ =>
        cache_file st' = cache_file st /\
        cache_writes (new_events st st') = []
    end.
Proof.
  intros w st. unfold publish_report, main, bind. simpl.
  destruct (choose_post_and_variant w st) as [r1 st1] eqn:E1.
  destruct (keeps_run _ _ _ _ _ (keeps_choose_post_and_variant w) E1)
    as (l1 & e1 & -> & F1).
  apply Forall_no_write_choose in F1.
  destruct r1 as [[[blog_post best_variant] |] | e]; simpl;
    try (rewrite new_events_effect; split; [done | by apply cache_writes_none]).
  destruct (publish w blog_post best_variant (effect st l1 e1)) as [r2 st2] eqn:E2.
  destruct (keeps_run _ _ _ _ _ (keeps_publish w blog_post best_variant) E2)
    as (l2 & e2 & -> & F2).
  apply Forall_no_write_platform in F2.
  rewrite effect_effect.
  destruct r2 as [[|] | e]; simpl;
    try (rewrite ?effect_effect, new_events_effect, ?app_nil_r; split;
         [done | rewrite cache_writes_app, !cache_writes_none by done; done]).
  destruct (choose_post_and_variant_returns _ _ _ _ _ E1) as ([type Et] & [score Es]).
  unfold commit_if_published, bind, getitem, record_of. rewrite Et, Es. simpl.
  rewrite save_posted_article_run. simpl.
  repeat split.
  unfold new_events; simpl. rewrite ?app_nil_r, <- ?app_assoc, drop_app_length.
  rewrite !cache_writes_app, !cache_writes_none by done. done.
Qed.

(** ** The entry a run picks *)

(** The first unrecorded entry is unique, and excludes that all are recorded. *)
Lemma first_unrecorded_unique posted entries e1 e2 :
  first_unrecorded posted entries e1 -> first_unrecorded posted entries e2 -> e1 = e2.
Proof.
  intros (b1 & a1 & -> & F1 & N1) (b2 & a2 & E & F2 & N2).
  revert b2 E F2. induction b1 as [| x b1 IH]; intros [| y b2] E F2; simpl in E.
  - by injection E.
  - injection E as -> _. by inversion F2.
  - injection E as -> _. by inversion F1.
  - injection E as -> E. inversion F1; inversion F2; subst. eauto.
Qed.

Lemma first_unrecorded_not_all posted entries e :
  first_unrecorded posted entries e -> ~ Forall (recorded posted) entries.
Proof.
  intros (b & a & -> & _ & N) H. apply Forall_app in H as [_ H]. by inversion H.
Qed.

Lemma fetch_latest_blog_post_first w rss_url st entries e :
  feedparser_parse w rss_url = inr entries ->
  first_unrecorded (store st) entries e ->
  exists ls,
    fetch_latest_blog_post w rss_url st =
      (Ret (if content_well_formed e then Some (post_of_entry e) else None),
       effect st ls [EvFeedParse rss_url]).
Proof.
  intros Hfeed Hfirst.
  destruct (fetch_latest_blog_post_run w rss_url st) as (ls & result & E & H).
  rewrite Hfeed in H. exists ls. rewrite E.
  destruct H as [[Hall _] | (e' & Hfirst' & ->)].
  - by apply first_unrecorded_not_all in Hfirst.
  - by rewrite (first_unrecorded_unique _ _ _ _ Hfirst Hfirst').
Qed.

Lemma fetch_latest_blog_post_none w rss_url st :
  match feedparser_parse w rss_url with
  | inl _ => True
  | inr entries => Forall (recorded (store st)) entries
  end ->
  exists ls,
    fetch_latest_blog_post w rss_url st = (Ret None, effect st ls [EvFeedParse rss_url]).
Proof.
  intros Hall.
  destruct (fetch_latest_blog_post_run w rss_url st) as (ls & result & E & H).
  exists ls. rewrite E.
  destruct (feedparser_parse w rss_url) as [e | entries]; [by subst |].
  destruct H as [[_ ->] | (e & Hfirst & _)]; [done |].
  by apply first_unrecorded_not_all in Hfirst.
Qed.

(** ** The generation step *)

Lemma generate_linkedin_variants_parsed w blog_post st text variants :
  anthropic_messages w (ANTHROPIC_API_KEY w) blog_post = inr text ->
  json_loads w (clean_up_markdown text) = inr (DocVariants variants) ->
  exists ls,
    generate_linkedin_variants w blog_post st =
      (Ret (Some variants), effect st ls [EvApiPost (ANTHROPIC_API_KEY w) blog_post]).
Proof.
  intros Ha Hj.
  unfold generate_linkedin_variants, try_except, request_generation, parse_json, bind.
  simpl. rewrite Ha. simpl. rewrite Hj. simpl.
  rewrite !effect_effect. by eexists.
Qed.

Lemma generate_linkedin_variants_unparsed w blog_post st text :
  anthropic_messages w (ANTHROPIC_API_KEY w) blog_post = inr text ->
  match json_loads w (clean_up_markdown text) with
  | inl _ | inr (DocOther _) => True
  | inr (DocVariants _) => False
  end ->
  exists ls,
    generate_linkedin_variants w blog_post st =
      (Ret None, effect st ls [EvApiPost (ANTHROPIC_API_KEY w) blog_post]).
Proof.
  intros Ha Hj.
  unfold generate_linkedin_variants, try_except, request_generation, parse_json, bind.
  simpl. rewrite Ha. simpl.
  destruct (json_loads w (clean_up_markdown text)) as [msg | [variants | e]];
    [| done |]; simpl.
  - rewrite !effect_effect. by eexists.
  - destruct e; simpl; rewrite !effect_effect; by eexists.
Qed.

(** ** The run, step by step *)

(** [main] decomposed along its three parts, with the state each leaves. *)
Lemma main_run w st :
  exists r1 l1 e1,
    choose_post_and_variant w st = (r1, effect st l1 e1) /\
    Forall (fun ev => ev = EvFeedParse (SQUARESPACE_RSS_URL w) \/
                      exists blog_post, ev = EvApiPost (ANTHROPIC_API_KEY w) blog_post) e1 /\
    match r1 with
    | Ret (Some (blog_post, best_variant)) =>
        exists r2 l2 e2,
          publish w blog_post best_variant (effect st l1 e1) =
            (r2, effect st (l1 ++ l2) (e1 ++ e2)) /\
          Forall (fun ev => is_platform_interaction ev = true) e2 /\
          match r2 with
          | Ret true =>
              let posted :=
                <[get_article_hash (link blog_post) := record_of w blog_post best_variant]>
                  (store st) in
              exists l3,
                main w st =
                  (Ret tt,
                   {| cache_file := Some posted;
                      logs := logs st ++ l1 ++ l2 ++ l3;
                      trace := trace st ++ e1 ++ e2 ++ [EvCacheWrite posted] |})
          | Ret false =>
              main w st =
                (Ret tt,
                 effect st
                   (l1 ++ l2 ++ [Py.nl +:+ "❌ Posting failed - will retry on next run"])
                   (e1 ++ e2))
          | Raise e => main w st = (Raise e, effect st (l1 ++ l2) (e1 ++ e2))
          end
    | Ret None => main w st = (Ret tt, effect st l1 e1)
    | Raise e => main w st = (Raise e, effect st l1 e1)
    end.
Proof.
  unfold main, bind.
  destruct (choose_post_and_variant w st) as [r1 st1] eqn:E1.
  destruct (keeps_run _ _ _ _ _ (keeps_choose_post_and_variant w) E1)
    as (l1 & e1 & -> & F1).
  exists r1, l1, e1. split; [done |]. split; [done |].
  destruct r1 as [[[blog_post best_variant] |] | e]; try done.
  destruct (publish w blog_post best_variant (effect st l1 e1)) as [r2 st2] eqn:E2.
  destruct (keeps_run _ _ _ _ _ (keeps_publish w blog_post best_variant) E2)
    as (l2 & e2 & -> & F2).
  rewrite effect_effect.
  exists r2, l2, e2. split; [done |]. split; [done |].
  destruct r2 as [[|] | e]; try done.
  - destruct (choose_post_and_variant_returns _ _ _ _ _ E1) as ([type Et] & [score Es]).
    unfold commit_if_published, bind, getitem, record_of. rewrite Et, Es. simpl.
    rewrite save_posted_article_run. simpl.
    unfold log, effect, store. simpl.
    rewrite ?app_nil_r, <- ?app_assoc. simpl. eexists. reflexivity.
  - unfold commit_if_published, log.
    by rewrite effect_effect, app_nil_r, <- app_assoc.
Qed.

Lemma run_unique {A} (m : M A) st r r' ls ls' evs evs' :
  m st = (r, effect st ls evs) -> m st = (r', effect st ls' evs') ->
  r = r' /\ ls = ls' /\ evs = evs'.
Proof.
  intros E E'. rewrite E in E'. apply pair_equal_spec in E' as [-> E'].
  split; [done |]. split.
  - apply (f_equal (new_logs st)) in E'. by rewrite !new_logs_effect in E'.
  - apply (f_equal (new_events st)) in E'. by rewrite !new_events_effect in E'.
Qed.

(** ** Missing settings *)






(** ** Removing the code fence *)

Lemma append_cons c (a b : string) : String c a +:+ b = String c (a +:+ b).
Proof. reflexivity. Qed.

Lemma list_ascii_of_string_app a b :
  list_ascii_of_string (a +:+ b) = list_ascii_of_string a ++ list_ascii_of_string b.
Proof.
  induction a as [| c a IH]; [done |].
  rewrite append_cons. simpl. by f_equal.
Qed.

Lemma string_of_list_ascii_app l1 l2 :
  string_of_list_ascii (l1 ++ l2) = string_of_list_ascii l1 +:+ string_of_list_ascii l2.
Proof.
  induction l1 as [| c l1 IH]; [done |].
  simpl. rewrite append_cons. by f_equal.
Qed.

Lemma rev_string_app a b : Py.rev_string (a +:+ b) = Py.rev_string b +:+ Py.rev_string a.
Proof.
  unfold Py.rev_string.
  by rewrite list_ascii_of_string_app, rev_app_distr, string_of_list_ascii_app.
Qed.

Lemma rev_string_involutive s : Py.rev_string (Py.rev_string s) = s.
Proof.
  unfold Py.rev_string.
  by rewrite list_ascii_of_string_of_list_ascii, rev_involutive,
    string_of_list_ascii_of_string.
Qed.

Lemma append_assoc (a b c : string) : (a +:+ b) +:+ c = a +:+ b +:+ c.
Proof.
  induction a as [| x a IH]; [done |].
  rewrite !append_cons. by f_equal.
Qed.

Lemma replace_from_cons old new c s :
  Py.replace_from old new 0 (String c s) =
    if String.prefix old (String c s)
    then new +:+ Py.replace_from old new (Nat.pred (String.length old)) s
    else String c (Py.replace_from old new 0 s).
Proof. reflexivity. Qed.

Lemma prefix_cons_ne a old c s :
  a <> c -> String.prefix (String a old) (String c s) = false.
Proof. intros H. simpl. by destruct (ascii_dec a c). Qed.

(** A pattern that starts with a backtick is not found in text without one. *)
Lemma replace_from_no_backtick old new s t :
  no_backtick s = true ->
  Py.replace_from (String "`" old) new 0 (s +:+ t) =
    s +:+ Py.replace_from (String "`" old) new 0 t.
Proof.
  induction s as [| c s IH]; [done |].
  unfold no_backtick. cbn [list_ascii_of_string forallb].
  intros [Hc Hs]%andb_true_iff.
  apply negb_true_iff, Ascii.eqb_neq in Hc.
  rewrite !append_cons, replace_from_cons, prefix_cons_ne by congruence.
  f_equal. by apply IH.
Qed.

Lemma append_empty_r (a : string) : a +:+ "" = a.
Proof.
  induction a as [| x a IH]; [done |].
  rewrite append_cons. by f_equal.
Qed.

Lemma length_append (a b : string) :
  String.length (a +:+ b) = (String.length a + String.length b)%nat.
Proof.
  induction a as [| x a IH]; [done |].
  rewrite append_cons. simpl. by f_equal.
Qed.

Lemma replace_json_fence t :
  Py.replace_from "```json" "" 0 ("```json" +:+ t) = Py.replace_from "```json" "" 0 t.
Proof. by destruct t. Qed.

Lemma lstrip_line_feed_brace s : Py.lstrip (Py.nl +:+ String "{" s) = String "{" s.
Proof. reflexivity. Qed.

Lemma rstrip_brace_line_feed s : Py.rstrip (s +:+ "}" +:+ Py.nl) = s +:+ "}".
Proof.
  unfold Py.rstrip.
  rewrite length_append, Nat.add_comm, rev_string_app.
  change (Py.rev_string ("}" +:+ Py.nl)) with (Py.nl +:+ "}").
  change ((Py.nl +:+ "}") +:+ Py.rev_string s)
    with (String "010" (String "}" (Py.rev_string s))).
  change (String.length ("}" +:+ Py.nl) + String.length s)%nat
    with (S (S (String.length s))).
  change (Py.lstrip_with (map Py.rev_string Py.whitespace) (S (S (String.length s)))
            (String "010" (String "}" (Py.rev_string s))))
    with (String "}" (Py.rev_string s)).
  change (String "}" (Py.rev_string s)) with ("}" +:+ Py.rev_string s).
  by rewrite rev_string_app, rev_string_involutive.
Qed.

(** A JSON object inside a fence comes out as it went in. *)
Lemma clean_up_markdown_fenced body :
  no_backtick body = true ->
  clean_up_markdown (fenced ("{" +:+ body +:+ "}")) = "{" +:+ body +:+ "}".
Proof.
  intros Hbody. unfold clean_up_markdown, fenced, Py.replace.
  set (inner := Py.nl +:+ ("{" +:+ body +:+ "}") +:+ Py.nl).
  assert (no_backtick inner = true) as Hall.
  { unfold inner, no_backtick in *.
    rewrite !list_ascii_of_string_app, !forallb_app, Hbody. reflexivity. }
  replace ("```json" +:+ Py.nl +:+ ("{" +:+ body +:+ "}") +:+ Py.nl +:+ "```")
    with ("```json" +:+ inner +:+ "```")
    by (unfold inner; by rewrite !append_assoc).
  rewrite replace_json_fence.
  rewrite replace_from_no_backtick by done.
  change (Py.replace_from "```json" "" 0 "```") with "```".
  rewrite replace_from_no_backtick by done.
  change (Py.replace_from "```" "" 0 "```") with "".
  rewrite append_empty_r. unfold inner, Py.strip.
  change (Py.nl +:+ ("{" +:+ body +:+ "}") +:+ Py.nl)
    with (Py.nl +:+ String "{" ((body +:+ "}") +:+ Py.nl)).
  rewrite lstrip_line_feed_brace.
  change (String "{" ((body +:+ "}") +:+ Py.nl)) with (("{" +:+ body +:+ "}") +:+ Py.nl).
  replace (("{" +:+ body +:+ "}") +:+ Py.nl) with (("{" +:+ body) +:+ "}" +:+ Py.nl)
    by (by rewrite !append_assoc).
  rewrite rstrip_brace_line_feed. by rewrite !append_assoc.
Qed.


(** ** Replies the program rejects *)

(** Membership of the last element of a concatenation. *)
Ltac elem_of_last :=
  repeat (apply elem_of_app; right); apply list_elem_of_singleton; reflexivity.

Lemma choose_post_and_variant_rejected w st entries e text :
  is_empty (SQUARESPACE_RSS_URL w) = false ->
  is_empty (ANTHROPIC_API_KEY w) = false ->
  feedparser_parse w (SQUARESPACE_RSS_URL w) = inr entries ->
  first_unrecorded (store st) entries e ->
  content_well_formed e = true ->
  anthropic_messages w (ANTHROPIC_API_KEY w) (post_of_entry e) = inr text ->
  rejected w text = true ->
  exists ls,
    choose_post_and_variant w st =
      (Ret None,
       effect st ls [EvFeedParse (SQUARESPACE_RSS_URL w);
                     EvApiPost (ANTHROPIC_API_KEY w) (post_of_entry e)]) /\
    "❌ Failed to generate variants" ∈ ls.
Proof.
  intros Hrss Hkey Hfeed Hfirst Hwf Hreply Hrej.
  unfold choose_post_and_variant, bind, log. simpl. rewrite Hrss, Hkey.
  rewrite !effect_effect.
  match goal with
  | |- context [fetch_latest_blog_post w ?u ?s] =>
      destruct (fetch_latest_blog_post_first w u s entries e Hfeed Hfirst) as (lf & ->)
  end.
  rewrite Hwf, !effect_effect.
  unfold rejected in Hrej.
  destruct (json_loads w (clean_up_markdown text)) as [msg | [variants | err]] eqn:Hj.
  - match goal with
    | |- context [generate_linkedin_variants w ?b ?s] =>
        destruct (generate_linkedin_variants_unparsed w b s text Hreply) as (lg & ->);
          [by rewrite Hj |]
    end.
    unfold ret. rewrite !effect_effect. eexists. split; [reflexivity |].
    elem_of_last.
  - destruct variants as [| v vs]; [| done].
    match goal with
    | |- context [generate_linkedin_variants w ?b ?s] =>
        destruct (generate_linkedin_variants_parsed w b s text [] Hreply Hj) as (lg & ->)
    end.
    unfold ret. rewrite !effect_effect. eexists. split; [reflexivity |].
    elem_of_last.
  - match goal with
    | |- context [generate_linkedin_variants w ?b ?s] =>
        destruct (generate_linkedin_variants_unparsed w b s text Hreply) as (lg & ->);
          [by rewrite Hj |]
    end.
    unfold ret. rewrite !effect_effect. eexists. split; [reflexivity |].
    elem_of_last.
Qed.

Lemma misshapen_reply_is_generation_failure_fails :
  ~ misshapen_reply_is_generation_failure.
Proof.
  intros H.
  specialize (H (Sample.make "steven@example.com" [Sample.entry_a]
                   (fenced (Sample.json_reply Sample.partial)) Sample.never_raises)
                Sample.fresh).
  assert (forall (blog_post : post_data) (text : string),
             @inr exn string (fenced (Sample.json_reply Sample.partial)) = inr text ->
             reply_has_required_shape
               (Sample.make "steven@example.com" [Sample.entry_a]
                  (fenced (Sample.json_reply Sample.partial)) Sample.never_raises)
               text = false) as Hshape.
  { intros _ text [= <-]. vm_compute. reflexivity. }
  specialize (H Hshape). apply (f_equal length) in H.
  vm_compute in H. discriminate H.
Qed.

(** C5, as the program has it.  When the reply for the chosen post, with
    the code-fence markers and the surrounding white space removed, is not
    JSON, or is a document without a usable ['variants'] member, or holds an
    empty array, the run ends with "Failed to generate variants" after the
    feed fetch and the generation request: no candidate is used, nothing is
    published, the cache file is not written.  The text handed to the
    decoder is the reply without its fence: a JSON object wrapped in a
    [```json] fence reaches the decoder as the bare object. *)
Theorem rejected_reply_aborts_run :
  (forall w st entries e text,
     is_empty (SQUARESPACE_RSS_URL w) = false ->
     is_empty (ANTHROPIC_API_KEY w) = false ->
     feedparser_parse w (SQUARESPACE_RSS_URL w) = inr entries ->
     first_unrecorded (store st) entries e ->
     content_well_formed e = true ->
     anthropic_messages w (ANTHROPIC_API_KEY w) (post_of_entry e) = inr text ->
     rejected w text = true ->
     let st' := snd (main w st) in
     fst (main w st) = Ret tt /\
     "❌ Failed to generate variants" ∈ new_logs st st' /\
     new_events st st' = [EvFeedParse (SQUARESPACE_RSS_URL w);
                          EvApiPost (ANTHROPIC_API_KEY w) (post_of_entry e)] /\
     cache_file st' = cache_file st) /\
  (forall body,
     no_backtick body = true ->
     clean_up_markdown (fenced ("{" +:+ body +:+ "}")) = "{" +:+ body +:+ "}").
Proof.
  split; [| exact clean_up_markdown_fenced].
  intros w st entries e text Hrss Hkey Hfeed Hfirst Hwf Hreply Hrej. simpl.
  destruct (choose_post_and_variant_rejected w st entries e text) as (ls & E & Hin); try done.
  unfold main, bind. rewrite E. simpl.
  by rewrite new_logs_effect, new_events_effect.
Qed.

Lemma rejected_reply_aborts_run_witness :
  let w := Sample.make "steven@example.com" [Sample.entry_a]
             "I am sorry, I cannot produce captions for this post." Sample.never_raises in
  fst (main w Sample.fresh) = Ret tt /\
  cache_file (snd (main w Sample.fresh)) = None /\
  clean_up_markdown (fenced "{}") = "{}".
Proof.
  intros w.
  destruct (proj1 rejected_reply_aborts_run w Sample.fresh [Sample.entry_a] Sample.entry_a
              "I am sorry, I cannot produce captions for this post.")
    as (Hret & _ & _ & Hcache); try reflexivity.
  - exists [], []. split; [reflexivity |]. split; [constructor |].
    intros [x Hx]. vm_compute in Hx. discriminate Hx.
  - split; [exact Hret |]. split; [exact Hcache |].
    exact (proj2 rejected_reply_aborts_run "" eq_refl).
Defined.

(** ** A comment that cannot be posted *)

(** Membership in a list that is written out. *)
Ltac elem_of_listed :=
  repeat first [apply list_elem_of_here | apply list_elem_of_further].

Ltac comment_failed Hpre e :=
  rewrite ?effect_effect; simpl;
  rewrite (Hpre quit eq_refl); simpl;
  rewrite ?effect_effect; simpl;
  eexists _, _, e; split; [reflexivity |]; split; elem_of_listed.

Lemma post_to_linkedin_comment_failure w caption hashtags blog_url st :
  SELENIUM_AVAILABLE w = true ->
  is_empty (LINKEDIN_EMAIL w) || is_empty (LINKEDIN_PASSWORD w) = false ->
  (forall c, in_comment_step c = false -> webdriver_raises w c = None) ->
  Py.str_in "feed" (url_after_login w) || Py.str_in "checkpoint" (url_after_login w) = true ->
  comment_step_fails w blog_url = true ->
  exists ls evs e,
    post_to_linkedin w caption hashtags blog_url st = (Ret false, effect st ls evs) /\
    "   ✅ Main post published!" ∈ ls /\
    "❌ Error posting to LinkedIn: " +:+ exn_str e ∈ ls.
Proof.
  intros Hsel Hcreds Hpre Hlogin Hfail.
  unfold post_to_linkedin. rewrite Hsel, Hcreds. simpl.
  unfold try_except, try_finally, browser_session, login_rejected, publish_main_post,
    add_comment, read_current_url, call, bind, emit, log, ret, raise.
  simpl.
  repeat (rewrite Hpre by reflexivity; simpl).
  destruct (Py.str_in "feed" (url_after_login w)); simpl in Hlogin |- *;
    [| rewrite Hlogin; simpl].
  all: unfold comment_step_fails, comment_calls in Hfail; simpl in Hfail.
  all: destruct (webdriver_raises w
                   (wait_until 10 presence_of_element_located By_CSS_SELECTOR comment_box))
         as [e1 |]; simpl in Hfail |- *; [comment_failed Hpre e1 |].
  all: destruct (webdriver_raises w (click comment_box))
         as [e2 |]; simpl in Hfail |- *; [comment_failed Hpre e2 |].
  all: destruct (webdriver_raises w
                   (send_keys comment_box ("Read the full post: " +:+ blog_url)))
         as [e3 |]; simpl in Hfail |- *; [comment_failed Hpre e3 |].
  all: destruct (webdriver_raises w (find_element By_CSS_SELECTOR comment_button))
         as [e4 |]; simpl in Hfail |- *; [comment_failed Hpre e4 |].
  all: destruct (webdriver_raises w (click comment_button))
         as [e5 |]; simpl in Hfail |- *; [comment_failed Hpre e5 | done].
Qed.

Lemma publish_report_inv w st blog_post best_variant success :
  publish_report w st = Some (blog_post, best_variant, success) ->
  exists st1 st2,
    choose_post_and_variant w st = (Ret (Some (blog_post, best_variant)), st1) /\
    publish w blog_post best_variant st1 = (Ret success, st2).
Proof.
  unfold publish_report. intros H. repeat case_match; simplify_eq. eauto.
Qed.

Lemma publish_comment_failure w blog_post best_variant st success st' :
  SELENIUM_AVAILABLE w = true ->
  is_empty (LINKEDIN_EMAIL w) || is_empty (LINKEDIN_PASSWORD w) = false ->
  (forall c, in_comment_step c = false -> webdriver_raises w c = None) ->
  Py.str_in "feed" (url_after_login w) || Py.str_in "checkpoint" (url_after_login w) = true ->
  comment_step_fails w (link blog_post) = true ->
  publish w blog_post best_variant st = (Ret success, st') ->
  exists ls evs e,
    publish w blog_post best_variant st = (Ret false, effect st ls evs) /\
    "   ✅ Main post published!" ∈ ls /\
    "❌ Error posting to LinkedIn: " +:+ exn_str e ∈ ls.
Proof.
  intros Hsel Hcreds Hpre Hlogin Hfail.
  unfold publish, bind, getitem, log. simpl.
  destruct (v_caption best_variant) as [caption |]; [| done].
  destruct (v_hashtags best_variant) as [hashtags |]; [| done].
  simpl. intros _.
  edestruct (post_to_linkedin_comment_failure w caption hashtags (link blog_post))
    as (ls & evs & e & -> & Hpub & Herr); try done.
  rewrite effect_effect. eexists _, _, e. split; [reflexivity |].
  split; by apply list_elem_of_further.
Qed.

Lemma commit_not_gated_on_comment_fails : ~ commit_not_gated_on_comment.
Proof.
  intros H.
  destruct (H (Sample.make "steven@example.com" [Sample.entry_a]
                 (fenced (Sample.json_reply Sample.three)) Sample.no_comment_box)
              Sample.fresh
              (post_of_entry Sample.entry_a)
              (Sample.candidate "question_interrupt" 90)
              false) as [record Hrecord].
  - vm_compute. reflexivity.
  - apply (list_elem_of_lookup_2 _ 19). vm_compute. reflexivity.
  - vm_compute in Hrecord. discriminate Hrecord.
Qed.

(** C2, as the program has it.  When only the comment step fails after the
    main post went out, [post_to_linkedin] returns [False] all the same: the
    exception is logged by the one "Error posting to LinkedIn" line, the run
    logs "Posting failed - will retry on next run", and the cache file is
    not written. *)
Theorem comment_failure_is_publish_failure :
  forall w st blog_post best_variant success,
    SELENIUM_AVAILABLE w = true ->
    is_empty (LINKEDIN_EMAIL w) || is_empty (LINKEDIN_PASSWORD w) = false ->
    (forall c, in_comment_step c = false -> webdriver_raises w c = None) ->
    Py.str_in "feed" (url_after_login w) || Py.str_in "checkpoint" (url_after_login w) = true ->
    publish_report w st = Some (blog_post, best_variant, success) ->
    comment_step_fails w (link blog_post) = true ->
    let st' := snd (main w st) in
    success = false /\
    main_post_published st st' /\
    (exists e, "❌ Error posting to LinkedIn: " +:+ exn_str e ∈ new_logs st st') /\
    Py.nl +:+ "❌ Posting failed - will retry on next run" ∈ new_logs st st' /\
    cache_writes (new_events st st') = [] /\
    cache_file st' = cache_file st.
Proof.
  intros w st blog_post best_variant success Hsel Hcreds Hpre Hlogin Hreport Hfail. simpl.
  destruct (publish_report_inv _ _ _ _ _ Hreport) as (st1 & st2 & E1 & E2).
  destruct (main_run w st) as (r1 & l1 & e1 & E1' & F1 & H).
  rewrite E1 in E1'. apply pair_equal_spec in E1' as [<- ->].
  destruct H as (r2 & l2 & e2 & E2' & F2 & H).
  destruct (publish_comment_failure _ _ _ _ _ _ Hsel Hcreds Hpre Hlogin Hfail E2)
    as (ls & evs & e & E & Hpub & Herr).
  rewrite <- effect_effect in E2'.
  destruct (run_unique _ _ _ _ _ _ _ _ E2' E) as (-> & -> & ->).
  rewrite E in E2. apply pair_equal_spec in E2 as [[= <-] _].
  rewrite H. simpl. rewrite new_logs_effect, new_events_effect.
  split; [done |]. unfold main_post_published. rewrite new_logs_effect.
  split; [rewrite !elem_of_app; auto |].
  split; [exists e; rewrite !elem_of_app; auto |].
  split; [elem_of_last |].
  split; [| done].
  rewrite cache_writes_app, !cache_writes_none; [done | |].
  - by apply Forall_no_write_platform.
  - by apply (Forall_no_write_choose w).
Qed.

Lemma comment_failure_is_publish_failure_witness :
  let w := Sample.make "steven@example.com" [Sample.entry_a]
             (fenced (Sample.json_reply Sample.three)) Sample.no_comment_box in
  main_post_published Sample.fresh (snd (main w Sample.fresh)) /\
  cache_file (snd (main w Sample.fresh)) = None.
Proof.
  intros w.
  destruct (comment_failure_is_publish_failure w Sample.fresh
              (post_of_entry Sample.entry_a) (Sample.candidate "question_interrupt" 90) false)
    as (_ & Hpub & _ & _ & _ & Hcache); try reflexivity.
  - intros c Hc. destruct c; try reflexivity.
    simpl in Hc |- *. by rewrite Hc.
  - split; [exact Hpub | exact Hcache].
Defined.

(** ** Running again *)

Lemma main_published w st blog_post best_variant :
  publish_report w st = Some (blog_post, best_variant, true) ->
  exists ls evs,
    main w st =
      (Ret tt,
       {| cache_file :=
            Some (<[get_article_hash (link blog_post) := record_of w blog_post best_variant]>
                    (store st));
          logs := ls;
          trace := evs |}).
Proof.
  intros Hreport.
  destruct (publish_report_inv _ _ _ _ _ Hreport) as (st1 & st2 & E1 & E2).
  destruct (main_run w st) as (r1 & l1 & e1 & E1' & F1 & H).
  rewrite E1 in E1'. apply pair_equal_spec in E1' as [<- ->].
  destruct H as (r2 & l2 & e2 & E2' & F2 & H).
  rewrite E2 in E2'. apply pair_equal_spec in E2' as [<- _].
  destruct H as (l3 & ->). eauto.
Qed.

Lemma choose_post_and_variant_nothing_new w st :
  match feedparser_parse w (SQUARESPACE_RSS_URL w) with
  | inl _ => True
  | inr entries => Forall (recorded (store st)) entries
  end ->
  exists ls evs,
    choose_post_and_variant w st = (Ret None, effect st ls evs) /\
    Forall (fun ev => is_feed_fetch ev = true) evs.
Proof.
  intros Hall. unfold choose_post_and_variant, bind, log, ret. simpl.
  destruct (is_empty (SQUARESPACE_RSS_URL w)); [| destruct (is_empty (ANTHROPIC_API_KEY w))].
  - rewrite !effect_effect. by eexists _, [].
  - rewrite !effect_effect. by eexists _, [].
  - rewrite !effect_effect.
    match goal with
    | |- context [fetch_latest_blog_post w ?u ?s] =>
        destruct (fetch_latest_blog_post_none w u s Hall) as (lf & ->)
    end.
    rewrite !effect_effect. eexists _, _. split; [reflexivity |].
    by repeat constructor.
Qed.

Lemma recorded_insert posted key record e :
  recorded posted e -> recorded (<[key := record]> posted) e.
Proof.
  unfold recorded. intros H.
  destruct (decide (key = get_article_hash (default "" (e_link e)))) as [-> | Hne].
  - rewrite lookup_insert_eq. eauto.
  - by rewrite lookup_insert_ne.
Qed.

(** C3. After a run that published a post and recorded it, a second run
    over the unchanged feed finds the fingerprint in the store and never
    picks that post again; if the feed holds no other unrecorded entry, the
    second run ends after the feed fetch: no generation request, nothing
    published, no write to the cache file. *)
Theorem second_run_publishes_nothing_twice :
  forall w1 w2 st blog_post best_variant,
    feedparser_parse w2 (SQUARESPACE_RSS_URL w2) =
      feedparser_parse w1 (SQUARESPACE_RSS_URL w1) ->
    publish_report w1 st = Some (blog_post, best_variant, true) ->
    let st1 := snd (main w1 st) in
    is_Some (store st1 !! get_article_hash (link blog_post)) /\
    (forall st' post,
       store st' = store st1 ->
       fst (fetch_latest_blog_post w2 (SQUARESPACE_RSS_URL w2) st') = Ret (Some post) ->
       link post <> link blog_post) /\
    ((forall entries,
        feedparser_parse w1 (SQUARESPACE_RSS_URL w1) = inr entries ->
        Forall (fun e => default "" (e_link e) = link blog_post \/ recorded (store st) e)
          entries) ->
     let st2 := snd (main w2 st1) in
     fst (main w2 st1) = Ret tt /\
     cache_file st2 = cache_file st1 /\
     Forall (fun ev => is_feed_fetch ev = true) (new_events st1 st2)).
Proof.
  intros w1 w2 st blog_post best_variant Hfeed Hreport. simpl.
  destruct (main_published _ _ _ _ Hreport) as (ls & evs & ->). simpl.
  set (posted := <[get_article_hash (link blog_post) := record_of w1 blog_post best_variant]>
                   (store st)).
  set (st1 := {| cache_file := Some posted; logs := ls; trace := evs |}).
  assert (is_Some (posted !! get_article_hash (link blog_post))) as Hin.
  { unfold posted. rewrite lookup_insert_eq. eauto. }
  split; [exact Hin |]. split.
  - intros st' post Hstore Hfetch Hlink.
    destruct (fetch_latest_blog_post_run w2 (SQUARESPACE_RSS_URL w2) st')
      as (lf & result & E & H).
    rewrite E in Hfetch. simpl in Hfetch. injection Hfetch as ->.
    destruct (feedparser_parse w2 (SQUARESPACE_RSS_URL w2)) as [err | entries]; [done |].
    destruct H as [[_ H] | (e & (b & a & _ & _ & Hnew) & H)]; [done |].
    destruct (content_well_formed e); [| done].
    injection H as ->. apply Hnew. unfold recorded.
    simpl in Hlink. by rewrite Hlink, Hstore.
  - intros Hrest.
    destruct (choose_post_and_variant_nothing_new w2 st1) as (l2 & e2 & E & F).
    { rewrite Hfeed.
      destruct (feedparser_parse w1 (SQUARESPACE_RSS_URL w1)) as [err | entries]; [done |].
      specialize (Hrest entries eq_refl).
      eapply Forall_impl; [exact Hrest |]. simpl.
      intros e [Hlink | Hrec].
      - unfold recorded. by rewrite Hlink.
      - by apply recorded_insert. }
    unfold main, bind. rewrite E. simpl.
    by rewrite new_events_effect.
Qed.

Lemma second_run_publishes_nothing_twice_witness :
  let w := Sample.healthy [Sample.entry_a] in
  let st1 := snd (main w Sample.fresh) in
  is_Some (store st1 !! get_article_hash "https://example.com/blog/post-a") /\
  cache_file (snd (main w st1)) = cache_file st1.
Proof.
  intros w st1.
  destruct (second_run_publishes_nothing_twice w w Sample.fresh
              (post_of_entry Sample.entry_a) (Sample.candidate "question_interrupt" 90))
    as (Hin & _ & Hnoop).
  - reflexivity.
  - vm_compute. reflexivity.
  - split; [exact Hin |].
    apply Hnoop. intros entries [= <-].
    constructor; [by left | constructor].
Defined.

(** ** The scenario of two unposted entries *)

(** The feed lists B before A and the store is empty: the first run
    publishes B, the second A, the third finds nothing to do. *)
Example three_runs :
  let w := Sample.healthy [Sample.entry_b; Sample.entry_a] in
  let st1 := snd (main w Sample.fresh) in
  let st2 := snd (main w st1) in
  let st3 := snd (main w st2) in
  (fst <$> publish_report w Sample.fresh) =
    Some (post_of_entry Sample.entry_b, Sample.candidate "question_interrupt" 90) /\
  (fst <$> publish_report w st1) =
    Some (post_of_entry Sample.entry_a, Sample.candidate "question_interrupt" 90) /\
  publish_report w st2 = None /\
  length (cache_writes (trace st3)) = 2%nat /\
  new_events st2 st3 = [EvFeedParse (SQUARESPACE_RSS_URL w)].
Proof. vm_compute. repeat split. Qed.

(** A run that types the full caption into the composer. *)
Example composer_text_of_a_run :
  let w := Sample.healthy [Sample.entry_a] in
  composer_texts (trace (snd (main w Sample.fresh))) =
    ["Caption in the style question_interrupt" +:+ Py.nl +:+ Py.nl +:+ "#AI #Leadership"].
Proof. vm_compute. reflexivity. Qed.

(** * Further properties of the program *)

(** ** The browser session *)

(** Closing a goal about a list of calls that is written out: it is the
    start-up calls, the first [n] session calls for some [n], and [quit]. *)
Ltac some_prefix :=
  first [ exists 0%nat; reflexivity | exists 1%nat; reflexivity | exists 2%nat; reflexivity
        | exists 3%nat; reflexivity | exists 4%nat; reflexivity | exists 5%nat; reflexivity
        | exists 6%nat; reflexivity | exists 7%nat; reflexivity | exists 8%nat; reflexivity
        | exists 9%nat; reflexivity | exists 10%nat; reflexivity | exists 11%nat; reflexivity
        | exists 12%nat; reflexivity | exists 13%nat; reflexivity | exists 14%nat; reflexivity
        | exists 15%nat; reflexivity | exists 16%nat; reflexivity | exists 17%nat; reflexivity
        | exists 18%nat; reflexivity | exists 19%nat; reflexivity | exists 20%nat; reflexivity
        | exists 21%nat; reflexivity | exists 22%nat; reflexivity ].

Ltac session_over Hfeed :=
  rewrite ?effect_effect; simpl;
  eexists _, _, _; split; [reflexivity |]; split; [repeat constructor |];
  simpl; split;
  [ first [ solve [right; left; repeat split; eauto]
          | solve [right; right; left; repeat split; eauto]
          | right; right; right; split; [some_prefix | by repeat split] ]
  | first [ solve [intros [=]]
          | intros _; split; [repeat constructor; assumption |];
            split; [reflexivity |];
            unfold login_accepted; rewrite Hfeed; simpl; done ] ].

(** One call of the session: either it raises, [quit] follows and the
    session is over, or the session goes on. *)
Ltac session_call w Hfeed c :=
  destruct (webdriver_raises w c) eqn:?; simpl;
  [ destruct (webdriver_raises w quit) eqn:?; simpl; session_over Hfeed | ].

(** Every run of [post_to_linkedin] returns a boolean, and its events are
    WebDriver calls of one of four shapes; it returns [True] only after the
    whole script went through. *)
Lemma post_to_linkedin_shape w caption hashtags blog_url st :
  exists ls evs success,
    post_to_linkedin w caption hashtags blog_url st = (Ret success, effect st ls evs) /\
    Forall (fun ev => is_platform_interaction ev = true) evs /\
    ((browser_calls evs = [] /\ can_post w = false /\ success = false) \/
     (browser_calls evs = [Chrome chrome_arguments] /\
      is_Some (webdriver_raises w (Chrome chrome_arguments)) /\ success = false) \/
     (browser_calls evs = startup_calls /\
      is_Some (webdriver_raises w (implicitly_wait 10)) /\ success = false) \/
     ((exists n,
         browser_calls evs =
           startup_calls ++ take n (session_calls w caption hashtags blog_url) ++ [quit]) /\
      can_post w = true /\
      webdriver_raises w (Chrome chrome_arguments) = None /\
      webdriver_raises w (implicitly_wait 10) = None)) /\
    (success = true ->
     Forall (fun c => webdriver_raises w c = None) (browser_calls evs) /\
     browser_calls evs =
       startup_calls ++ session_calls w caption hashtags blog_url ++ [quit] /\
     login_accepted w = true).
Proof.
  unfold post_to_linkedin, can_post.
  destruct (SELENIUM_AVAILABLE w); simpl;
    [| unfold bind, log, ret; simpl; eexists _, _, _; split; [reflexivity |];
       split; [constructor |]; split; [left; by repeat split | done]].
  destruct (is_empty (LINKEDIN_EMAIL w) || is_empty (LINKEDIN_PASSWORD w));
    [unfold bind, log, ret; simpl; eexists _, _, _; split; [reflexivity |];
     split; [constructor |]; split; [left; by repeat split | done] |].
  unfold try_except, try_finally, browser_session, login_rejected, publish_main_post,
    add_comment, read_current_url, call, bind, emit, log, ret, raise,
    session_calls, address_reads, login_calls, compose_calls, comment_calls, startup_calls.
  simpl.
  destruct (Py.str_in "feed" (url_after_login w)) eqn:Hfeed; simpl.
  all: destruct (webdriver_raises w (Chrome chrome_arguments)) eqn:?; simpl;
    [session_over Hfeed |].
  all: destruct (webdriver_raises w (implicitly_wait 10)) eqn:?; simpl;
    [session_over Hfeed |].
  all: session_call w Hfeed (get "https://www.linkedin.com/login").
  all: session_call w Hfeed (find_element By_ID "username").
  all: session_call w Hfeed (find_element By_ID "password").
  all: session_call w Hfeed (send_keys "username" (LINKEDIN_EMAIL w)).
  all: session_call w Hfeed (send_keys "password" (LINKEDIN_PASSWORD w)).
  all: session_call w Hfeed (find_element By_CSS_SELECTOR submit_button).
  all: session_call w Hfeed (click submit_button).
  all: session_call w Hfeed current_url.
  all: rewrite Hfeed; simpl.
  2: destruct (Py.str_in "checkpoint" (url_after_login w)) eqn:Hcheck; simpl;
       [| destruct (webdriver_raises w quit) eqn:?; simpl; session_over Hfeed ].
  all: session_call w Hfeed (get "https://www.linkedin.com/feed/").
  all: session_call w Hfeed
         (wait_until 10 element_to_be_clickable By_CSS_SELECTOR start_post_button).
  all: session_call w Hfeed (click start_post_button).
  all: session_call w Hfeed
         (wait_until 10 presence_of_element_located By_CSS_SELECTOR post_box).
  all: session_call w Hfeed (send_keys post_box (full_caption caption hashtags)).
  all: session_call w Hfeed (find_element By_CSS_SELECTOR post_button).
  all: session_call w Hfeed (click post_button).
  all: session_call w Hfeed
         (wait_until 10 presence_of_element_located By_CSS_SELECTOR comment_box).
  all: session_call w Hfeed (click comment_box).
  all: session_call w Hfeed (send_keys comment_box ("Read the full post: " +:+ blog_url)).
  all: session_call w Hfeed (find_element By_CSS_SELECTOR comment_button).
  all: session_call w Hfeed (click comment_button).
  all: destruct (webdriver_raises w quit) eqn:?; simpl; session_over Hfeed.
Qed.

Lemma browser_calls_app e1 e2 : browser_calls (e1 ++ e2) = browser_calls e1 ++ browser_calls e2.
Proof. apply omap_app. Qed.

Lemma quit_not_in_session w caption hashtags blog_url n :
  quit ∉ take n (session_calls w caption hashtags blog_url).
Proof.
  intros H. apply elem_of_take in H as (i & H & _).
  apply list_elem_of_lookup_2 in H.
  unfold session_calls, login_calls, address_reads, compose_calls, comment_calls in H.
  destruct (Py.str_in "feed" (url_after_login w)); simpl in H;
    repeat (apply elem_of_cons in H as [H | H]; [discriminate H |]);
    by apply elem_of_nil in H.
Qed.

(** X1. The WebDriver calls of [post_to_linkedin] are an initial part of one
    fixed script (start-up, login, reading the address, composing,
    commenting), in the order of the script, followed or not by [quit]: no
    call is made out of turn, and none that the script does not hold. *)
Theorem session_follows_the_script :
  forall w caption hashtags blog_url st,
    let calls :=
      browser_calls (new_events st (snd (post_to_linkedin w caption hashtags blog_url st))) in
    exists n,
      calls = take n (startup_calls ++ session_calls w caption hashtags blog_url) \/
      calls = take n (startup_calls ++ session_calls w caption hashtags blog_url) ++ [quit].
Proof.
  intros w caption hashtags blog_url st.
  destruct (post_to_linkedin_shape w caption hashtags blog_url st)
    as (ls & evs & success & E & F & Hshape & _).
  rewrite E. simpl. rewrite new_events_effect.
  destruct Hshape as [(-> & _) | [(-> & _) | [(-> & _) | ((n & ->) & _)]]].
  - exists 0%nat. by left.
  - exists 1%nat. by left.
  - exists 2%nat. by left.
  - exists (2 + n)%nat. right. by rewrite app_assoc.
Qed.

(** X2. [post_to_linkedin] hands every exception back as [False]: in every
    world it returns a boolean, leaves the cache file alone and does
    nothing but WebDriver calls. *)
Theorem post_to_linkedin_never_raises :
  forall w caption hashtags blog_url st,
    let st' := snd (post_to_linkedin w caption hashtags blog_url st) in
    (exists success, fst (post_to_linkedin w caption hashtags blog_url st) = Ret success) /\
    cache_file st' = cache_file st /\
    Forall (fun ev => is_platform_interaction ev = true) (new_events st st').
Proof.
  intros w caption hashtags blog_url st.
  destruct (post_to_linkedin_shape w caption hashtags blog_url st)
    as (ls & evs & success & E & F & _).
  rewrite E. simpl. rewrite new_events_effect. eauto.
Qed.

(** X3. The browser is released: once [webdriver.Chrome] and
    [implicitly_wait] have gone through, the last WebDriver call of
    [post_to_linkedin] is [quit], whatever happened in between; and [quit]
    is never called anywhere but last.  The one way to leave the browser
    running is an exception of [implicitly_wait], which is called before
    the inner [try]: the calls are then [webdriver.Chrome] and
    [implicitly_wait], and no [quit]. *)
Theorem browser_session_is_released :
  forall w caption hashtags blog_url st,
    let calls :=
      browser_calls (new_events st (snd (post_to_linkedin w caption hashtags blog_url st))) in
    (can_post w = true ->
     webdriver_raises w (Chrome chrome_arguments) = None ->
     webdriver_raises w (implicitly_wait 10) = None ->
     last calls = Some quit) /\
    (forall before after, calls = before ++ quit :: after -> after = []) /\
    (can_post w = true ->
     webdriver_raises w (Chrome chrome_arguments) = None ->
     is_Some (webdriver_raises w (implicitly_wait 10)) ->
     calls = [Chrome chrome_arguments; implicitly_wait 10]).
Proof.
  intros w caption hashtags blog_url st.
  destruct (post_to_linkedin_shape w caption hashtags blog_url st)
    as (ls & evs & success & E & F & Hshape & _).
  rewrite E. simpl. rewrite new_events_effect.
  destruct Hshape
    as [(-> & Hcan & _) | [(-> & Hc & _) | [(-> & Hi & _) | ((n & ->) & _ & _ & Hi)]]].
  - split; [congruence |]. split; [by intros [] after | congruence].
  - split; [intros _ Hn; rewrite Hn in Hc; by destruct Hc |].
    split; [| intros _ Hn; rewrite Hn in Hc; by destruct Hc].
    intros [| c [| c' before]] after; intros [=].
  - split; [intros _ _ Hn; rewrite Hn in Hi; by destruct Hi |]. split; [| done].
    intros [| c [| c' [| c'' before]]] after; intros [=].
  - split; [| split].
    + intros _ _ _. by rewrite !app_assoc, last_snoc.
    + intros before after H.
      destruct after as [| a after _] using rev_ind; [done |]. exfalso.
      change (before ++ quit :: after ++ [a]) with (before ++ (quit :: after) ++ [a]) in H.
      rewrite !app_assoc in H. apply app_inj_tail in H as [H _].
      assert (quit ∈ startup_calls ++ take n (session_calls w caption hashtags blog_url))
        as Hin by (rewrite H, elem_of_app; right; by left).
      apply elem_of_app in Hin as [Hin | Hin].
      * unfold startup_calls in Hin.
        repeat (apply elem_of_cons in Hin as [Hin | Hin]; [discriminate Hin |]).
        by apply elem_of_nil in Hin.
      * by apply quit_not_in_session in Hin.
    + intros _ _ Hn. rewrite Hi in Hn. by destruct Hn.
Qed.

Lemma browser_session_is_released_witness :
  last (browser_calls
          (new_events Sample.fresh
             (snd (post_to_linkedin
                     (Sample.make "steven@example.com" [] "" Sample.no_comment_box)
                     "Hello" ["AI"] "https://example.com/blog/post-a" Sample.fresh)))) =
    Some quit.
Proof.
  apply (proj1 (browser_session_is_released
                  (Sample.make "steven@example.com" [] "" Sample.no_comment_box)
                  "Hello" ["AI"] "https://example.com/blog/post-a" Sample.fresh));
    reflexivity.
Defined.

Lemma post_to_linkedin_succeeds w caption hashtags blog_url st :
  can_post w = true ->
  login_accepted w = true ->
  Forall (fun c => webdriver_raises w c = None)
    (startup_calls ++ session_calls w caption hashtags blog_url ++ [quit]) ->
  exists ls,
    post_to_linkedin w caption hashtags blog_url st =
      (Ret true,
       effect st ls
         (map EvBrowser (startup_calls ++ session_calls w caption hashtags blog_url ++ [quit]))).
Proof.
  intros [Hsel Hcred%negb_true_iff]%andb_true_iff Hlogin Hall.
  unfold post_to_linkedin. rewrite Hsel, Hcred. simpl.
  rewrite Forall_forall in Hall.
  unfold login_accepted in Hlogin.
  unfold try_except, try_finally, browser_session, login_rejected, publish_main_post,
    add_comment, read_current_url, call, bind, emit, log, ret, raise,
    session_calls, address_reads, login_calls, compose_calls, comment_calls, startup_calls
    in *.
  destruct (Py.str_in "feed" (url_after_login w)) eqn:Hfeed; simpl in *.
  all: repeat (rewrite Hall by elem_of_listed; simpl).
  all: rewrite ?Hfeed, ?Hlogin; simpl.
  all: repeat (rewrite Hall by elem_of_listed; simpl).
  all: rewrite ?effect_effect; simpl; by eexists.
Qed.

Lemma browser_calls_map calls : browser_calls (map EvBrowser calls) = calls.
Proof. induction calls as [| c calls IH]; simpl; [done | by f_equal]. Qed.

(** X4. [post_to_linkedin] returns [True] exactly when selenium and both
    credentials are there, no call of the whole script raises ([quit]
    included), and the address after login holds ['feed'] or
    ['checkpoint']; its WebDriver calls are then the whole script, in
    order, ending with [quit]. *)
Theorem post_to_linkedin_succeeds_iff :
  forall w caption hashtags blog_url st,
    let script := startup_calls ++ session_calls w caption hashtags blog_url ++ [quit] in
    (fst (post_to_linkedin w caption hashtags blog_url st) = Ret true <->
     can_post w = true /\
     login_accepted w = true /\
     Forall (fun c => webdriver_raises w c = None) script) /\
    (fst (post_to_linkedin w caption hashtags blog_url st) = Ret true ->
     browser_calls (new_events st (snd (post_to_linkedin w caption hashtags blog_url st))) =
       script).
Proof.
  intros w caption hashtags blog_url st. simpl.
  destruct (post_to_linkedin_shape w caption hashtags blog_url st)
    as (ls & evs & success & E & F & Hshape & Hsuccess).
  rewrite E. simpl. rewrite new_events_effect. split; [split |].
  - intros [= ->]. destruct (Hsuccess eq_refl) as (Hall & Hcalls & Hlogin).
    rewrite Hcalls in Hall. repeat split; [| done | done].
    by destruct Hshape as [(_ & _ & ?) | [(_ & _ & ?) | [(_ & _ & ?) | (_ & ? & _)]]].
  - intros (Hcan & Hlogin & Hall).
    destruct (post_to_linkedin_succeeds w caption hashtags blog_url st Hcan Hlogin Hall)
      as (ls' & E').
    rewrite E in E'. by injection E' as ->.
  - intros [= ->]. by destruct (Hsuccess eq_refl) as (_ & ? & _).
Qed.

Lemma post_to_linkedin_succeeds_iff_witness :
  fst (post_to_linkedin (Sample.healthy []) "Hello" ["AI"] "https://example.com/blog/post-a"
         Sample.fresh) = Ret true.
Proof.
  apply (proj2 (proj1 (post_to_linkedin_succeeds_iff (Sample.healthy []) "Hello" ["AI"]
                         "https://example.com/blog/post-a" Sample.fresh))).
  split; [reflexivity |]. split; [reflexivity |].
  apply Forall_forall. intros c _. reflexivity.
Defined.

(** X5. A rejected login: when the calls up to the reading of the address go
    through and the address holds neither ['feed'] nor ['checkpoint'],
    [post_to_linkedin] logs the failure and returns [False] after reading
    the address twice and calling [quit]; nothing is typed into the
    composer. *)
Theorem rejected_login_ends_session :
  forall w caption hashtags blog_url st,
    can_post w = true ->
    login_accepted w = false ->
    Forall (fun c => webdriver_raises w c = None)
      (startup_calls ++ login_calls w ++ [current_url; quit]) ->
    let st' := snd (post_to_linkedin w caption hashtags blog_url st) in
    fst (post_to_linkedin w caption hashtags blog_url st) = Ret false /\
    browser_calls (new_events st st') =
      startup_calls ++ login_calls w ++ [current_url; current_url; quit] /\
    "❌ Login may have failed - unexpected URL" ∈ new_logs st st' /\
    composer_texts (new_events st st') = [].
Proof.
  intros w caption hashtags blog_url st
    [Hsel Hcred%negb_true_iff]%andb_true_iff [Hfeed Hcheck]%orb_false_iff Hall.
  unfold post_to_linkedin. rewrite Hsel, Hcred. simpl.
  rewrite Forall_forall in Hall.
  unfold try_except, try_finally, browser_session, login_rejected, publish_main_post,
    add_comment, read_current_url, call, bind, emit, log, ret, raise,
    login_calls, startup_calls in *.
  simpl in *.
  repeat (rewrite Hall by elem_of_listed; simpl).
  rewrite Hfeed. simpl.
  repeat (rewrite Hall by elem_of_listed; simpl).
  rewrite Hcheck. simpl.
  repeat (rewrite Hall by elem_of_listed; simpl).
  rewrite ?effect_effect, new_events_effect, new_logs_effect. simpl.
  repeat split. elem_of_listed.
Qed.

Lemma rejected_login_ends_session_witness :
  let st' := snd (post_to_linkedin Scenario.login_refused "Hello" ["AI"]
                    "https://example.com/blog/post-a" Sample.fresh) in
  fst (post_to_linkedin Scenario.login_refused "Hello" ["AI"]
         "https://example.com/blog/post-a" Sample.fresh) = Ret false /\
  browser_calls (new_events Sample.fresh st') =
    startup_calls ++ login_calls Scenario.login_refused ++ [current_url; current_url; quit] /\
  "❌ Login may have failed - unexpected URL" ∈ new_logs Sample.fresh st' /\
  composer_texts (new_events Sample.fresh st') = [].
Proof.
  apply (rejected_login_ends_session Scenario.login_refused "Hello" ["AI"]
           "https://example.com/blog/post-a" Sample.fresh).
  - reflexivity.
  - reflexivity.
  - apply Forall_forall. intros c _. reflexivity.
Defined.

(** Refuting that a call is among calls that are written out. *)
Ltac not_listed H :=
  repeat (apply elem_of_cons in H as [H | H];
          [ first [ discriminate H
                  | injection H as H; vm_compute in H; discriminate H ] |]);
  by apply elem_of_nil in H.

Lemma elem_of_take_less {A} (x : A) n m l :
  (n <= m)%nat -> x ∈ take n l -> x ∈ take m l.
Proof.
  intros Hle H. replace n with (Nat.min n m) in H by lia.
  rewrite <- take_take in H. apply elem_of_take in H as (i & H & _).
  by apply list_elem_of_lookup_2 in H.
Qed.

(** X6. No publishing without the steps before it: whenever the post button
    is clicked, the calls made are the start-up, the login, the reading of
    the address and the composing, in that order, with the full caption
    typed into the composer; and whenever the comment button is clicked,
    the calls made are the whole script. *)
Theorem publish_click_follows_script :
  forall w caption hashtags blog_url st,
    let calls :=
      browser_calls (new_events st (snd (post_to_linkedin w caption hashtags blog_url st))) in
    (click post_button ∈ calls ->
     exists rest,
       calls = startup_calls ++ login_calls w ++ address_reads w ++
               compose_calls caption hashtags ++ rest) /\
    (click comment_button ∈ calls ->
     calls = startup_calls ++ session_calls w caption hashtags blog_url ++ [quit]).
Proof.
  intros w caption hashtags blog_url st.
  destruct (post_to_linkedin_shape w caption hashtags blog_url st)
    as (ls & evs & success & E & F & Hshape & _).
  rewrite E. simpl. rewrite new_events_effect.
  destruct Hshape as [(-> & _) | [(-> & _) | [(-> & _) | ((n & ->) & _)]]].
  1-3: split; intros H; unfold startup_calls in H; not_listed H.
  set (before := login_calls w ++ address_reads w ++ compose_calls caption hashtags).
  assert (session_calls w caption hashtags blog_url = before ++ comment_calls blog_url)
    as Hsession by (unfold session_calls, before; by rewrite !app_assoc).
  assert ((click post_button ∉ take (length before - 1) (session_calls w caption hashtags blog_url))
          /\ (click comment_button ∉
               take (length (session_calls w caption hashtags blog_url) - 1)
                 (session_calls w caption hashtags blog_url))) as [Hpost Hcomment].
  { unfold before, session_calls, login_calls, address_reads, compose_calls, comment_calls.
    destruct (Py.str_in "feed" (url_after_login w)); simpl; split; intros H; not_listed H. }
  split.
  - intros H.
    destruct (decide (length before <= n)%nat) as [Hn | Hn].
    + rewrite Hsession, take_app_ge by done.
      exists (take (n - length before) (comment_calls blog_url) ++ [quit]).
      unfold before. by rewrite <- !app_assoc.
    + exfalso. rewrite !elem_of_app in H. destruct H as [H | [H | H]].
      * unfold startup_calls in H. not_listed H.
      * apply Hpost. eapply elem_of_take_less; [| exact H]. lia.
      * not_listed H.
  - intros H.
    destruct (decide (length (session_calls w caption hashtags blog_url) <= n)%nat)
      as [Hn | Hn].
    + by rewrite take_ge.
    + exfalso. rewrite !elem_of_app in H. destruct H as [H | [H | H]].
      * unfold startup_calls in H. not_listed H.
      * apply Hcomment. eapply elem_of_take_less; [| exact H]. lia.
      * not_listed H.
Qed.

Lemma publish_click_follows_script_witness :
  let w := Sample.make "steven@example.com" [] "" Sample.no_comment_box in
  let calls :=
    browser_calls
      (new_events Sample.fresh
         (snd (post_to_linkedin w "Hello" ["AI"] "https://example.com/blog/post-a"
                 Sample.fresh))) in
  exists rest,
    calls = startup_calls ++ login_calls w ++ address_reads w ++
            compose_calls "Hello" ["AI"] ++ rest.
Proof.
  intros w.
  apply (proj1 (publish_click_follows_script w "Hello" ["AI"]
                  "https://example.com/blog/post-a" Sample.fresh)).
  vm_compute. elem_of_listed.
Defined.

(** ** The steps of a run as functions of the world and of the store *)

Lemma first_unposted_find entries st :
  exists ls,
    first_unposted entries st =
      (match List.find (fun e => negb (bool_decide (recorded (store st) e))) entries with
       | Some e => if content_well_formed e then Ret (Some (post_of_entry e))
                   else Raise IndexError
       | None => Ret None
       end, effect st ls []).
Proof.
  induction entries as [| e rest IH].
  - by eexists.
  - simpl. unfold bind at 1. rewrite is_already_posted_run.
    change (is_Some (store st !! get_article_hash (default "" (e_link e))))
      with (recorded (store st) e).
    destruct (bool_decide (recorded (store st) e)); simpl; [exact IH |].
    unfold content_well_formed, post_of_entry.
    destruct (e_content e) as [[| item items] |]; simpl.
    + exists []. by rewrite effect_nil.
    + by eexists.
    + by eexists.
Qed.

Lemma fetch_latest_blog_post_next w rss_url st :
  exists ls,
    fetch_latest_blog_post w rss_url st =
      (Ret (next_post w rss_url (store st)), effect st ls [EvFeedParse rss_url]).
Proof.
  unfold fetch_latest_blog_post, try_except, parse_feed, bind, next_post. simpl.
  destruct (feedparser_parse w rss_url) as [e | entries]; simpl.
  - unfold ret. rewrite !effect_effect. by eexists.
  - destruct entries as [| e0 rest].
    + unfold ret. rewrite !effect_effect. by eexists.
    + destruct (first_unposted_find (e0 :: rest)
                  (effect (effect st ["📡 Fetching RSS feed..."] []) [] [EvFeedParse rss_url]))
        as (ls & ->).
      rewrite !store_effect, !effect_effect.
      destruct (List.find _ (e0 :: rest)) as [e |]; [| by eexists].
      destruct (content_well_formed e); [by eexists |].
      unfold ret. rewrite effect_effect. by eexists.
Qed.

Lemma generate_linkedin_variants_generated w blog_post st :
  exists ls,
    generate_linkedin_variants w blog_post st =
      (generated w blog_post, effect st ls [EvApiPost (ANTHROPIC_API_KEY w) blog_post]).
Proof.
  unfold generate_linkedin_variants, try_except, request_generation, parse_json,
    variants_of, generation_failed, bind, log, ret, raise, generated.
  simpl.
  destruct (anthropic_messages w (ANTHROPIC_API_KEY w) blog_post) as [e | text]; simpl.
  - destruct e; simpl; rewrite ?effect_effect; by eexists.
  - destruct (json_loads w (clean_up_markdown text)) as [msg | [variants | e]]; simpl.
    + rewrite !effect_effect. by eexists.
    + rewrite !effect_effect. by eexists.
    + destruct e; simpl; rewrite !effect_effect; by eexists.
Qed.

Lemma select_best_variant_selected variants st :
  exists ls, select_best_variant variants st = (selected variants, effect st ls []).
Proof.
  unfold select_best_variant, selected.
  destruct variants as [| v vs]; [exists []; by rewrite effect_nil |].
  destruct (sorted_reverse_head score_key (v :: vs)) as (b & best & a & _ & Hhd & _); [done |].
  destruct (sorted_reverse score_key (v :: vs)) as [| x s]; [done |].
  injection Hhd as ->. unfold bind; simpl.
  destruct (v_type best), (v_engagement_score best), (v_why_it_works best); simpl;
    rewrite ?effect_effect; try by eexists.
  all: exists []; by rewrite effect_nil.
Qed.

Lemma choose_post_and_variant_chosen w st :
  exists ls,
    choose_post_and_variant w st =
      (chosen w (store st), effect st ls (chosen_events w (store st))).
Proof.
  unfold choose_post_and_variant, chosen, chosen_events, configured, bind, log, ret. simpl.
  destruct (is_empty (SQUARESPACE_RSS_URL w)); simpl;
    [rewrite !effect_effect; by eexists |].
  destruct (is_empty (ANTHROPIC_API_KEY w)); simpl;
    [rewrite !effect_effect; by eexists |].
  rewrite !effect_effect.
  match goal with
  | |- context [fetch_latest_blog_post w ?u ?s] =>
      destruct (fetch_latest_blog_post_next w u s) as (lf & ->)
  end.
  rewrite store_effect, !effect_effect.
  destruct (next_post w (SQUARESPACE_RSS_URL w) (store st)) as [blog_post |];
    [| rewrite !effect_effect; by eexists].
  rewrite !effect_effect.
  match goal with
  | |- context [generate_linkedin_variants w ?b ?s] =>
      destruct (generate_linkedin_variants_generated w b s) as (lg & ->)
  end.
  rewrite !effect_effect.
  destruct (generated w blog_post) as [[[| v vs] |] | e];
    rewrite ?effect_effect; try by eexists.
  match goal with
  | |- context [select_best_variant ?v ?s] =>
      destruct (select_best_variant_selected v s) as (lsel & ->)
  end.
  rewrite !effect_effect.
  destruct (selected (v :: vs)) as [[best |] | e]; rewrite ?effect_effect; by eexists.
Qed.

Lemma publish_run w blog_post best_variant st :
  publish w blog_post best_variant st =
    match v_caption best_variant, v_hashtags best_variant with
    | None, _ =>
        (Raise (KeyError "caption"),
         effect st [Py.nl +:+ "📤 Step 4: Posting to LinkedIn..."] [])
    | Some _, None =>
        (Raise (KeyError "hashtags"),
         effect st [Py.nl +:+ "📤 Step 4: Posting to LinkedIn..."] [])
    | Some caption, Some hashtags =>
        post_to_linkedin w caption hashtags (link blog_post)
          (effect st [Py.nl +:+ "📤 Step 4: Posting to LinkedIn..."] [])
    end.
Proof.
  unfold publish, bind, getitem, log. simpl.
  destruct (v_caption best_variant), (v_hashtags best_variant); simpl; try done.
Qed.

(** The run of [main] along the outcome of its first part. *)
Lemma main_chosen w st :
  exists l1,
    choose_post_and_variant w st =
      (chosen w (store st), effect st l1 (chosen_events w (store st))) /\
    match chosen w (store st) with
    | Ret (Some (blog_post, best_variant)) =>
        exists r2 l2 e2,
          publish w blog_post best_variant (effect st l1 (chosen_events w (store st))) =
            (r2, effect st (l1 ++ l2) (chosen_events w (store st) ++ e2)) /\
          Forall (fun ev => is_platform_interaction ev = true) e2 /\
          match r2 with
          | Ret true =>
              let posted :=
                <[get_article_hash (link blog_post) := record_of w blog_post best_variant]>
                  (store st) in
              exists l3,
                main w st =
                  (Ret tt,
                   {| cache_file := Some posted;
                      logs := logs st ++ l1 ++ l2 ++ l3;
                      trace := trace st ++ chosen_events w (store st) ++ e2 ++
                               [EvCacheWrite posted] |})
          | Ret false =>
              main w st =
                (Ret tt,
                 effect st
                   (l1 ++ l2 ++ [Py.nl +:+ "❌ Posting failed - will retry on next run"])
                   (chosen_events w (store st) ++ e2))
          | Raise e =>
              main w st =
                (Raise e, effect st (l1 ++ l2) (chosen_events w (store st) ++ e2))
          end
    | Ret None => main w st = (Ret tt, effect st l1 (chosen_events w (store st)))
    | Raise e => main w st = (Raise e, effect st l1 (chosen_events w (store st)))
    end.
Proof.
  destruct (choose_post_and_variant_chosen w st) as (l1 & E).
  destruct (main_run w st) as (r1 & l1' & e1 & E1 & _ & H).
  destruct (run_unique _ _ _ _ _ _ _ _ E1 E) as (-> & -> & ->).
  exists l1. split; [done |]. exact H.
Qed.

(** ** The generation step *)

(** X7. What [generate_linkedin_variants] makes of the request of lines
    215-237, one request in each case and the cache file left alone.
    When the request returns a text: an array of candidates decoded from
    the text, cleaned of its fence, is returned; a text that is no JSON
    gives [None], the first 200 characters of the cleaned text being
    logged; a document whose ['variants'] cannot be measured gives [None].
    When the request raises: a [JSONDecodeError] reaches the first
    [except] clause, whose second log line reads the still unbound
    [generated_text], so that an [UnboundLocalError] leaves the function;
    any other exception gives [None].  And an array of candidates is only
    ever returned as the decoding of the reply. *)
Theorem generation_outcomes :
  forall w blog_post st,
    let result := fst (generate_linkedin_variants w blog_post st) in
    let st' := snd (generate_linkedin_variants w blog_post st) in
    (forall text,
       anthropic_messages w (ANTHROPIC_API_KEY w) blog_post = inr text ->
       new_events st st' = [EvApiPost (ANTHROPIC_API_KEY w) blog_post] /\
       cache_file st' = cache_file st /\
       match json_loads w (clean_up_markdown text) with
       | inr (DocVariants variants) => result = Ret (Some variants)
       | inr (DocOther e) => result = Ret None
       | inl msg =>
           result = Ret None /\
           "Response text: " +:+ Py.take 200 (clean_up_markdown text) ∈ new_logs st st'
       end) /\
    (forall e,
       anthropic_messages w (ANTHROPIC_API_KEY w) blog_post = inl e ->
       new_events st st' = [EvApiPost (ANTHROPIC_API_KEY w) blog_post] /\
       cache_file st' = cache_file st /\
       match e with
       | JSONDecodeError msg =>
           result = Raise (UnboundLocalError "generated_text") /\
           "❌ Error parsing JSON from Claude: " +:+ msg ∈ new_logs st st'
       | _ =>
           result = Ret None /\
           "❌ Error calling Claude API: " +:+ exn_str e ∈ new_logs st st'
       end) /\
    (forall variants,
       result = Ret (Some variants) ->
       exists text,
         anthropic_messages w (ANTHROPIC_API_KEY w) blog_post = inr text /\
         json_loads w (clean_up_markdown text) = inr (DocVariants variants)).
Proof.
  intros w blog_post st. cbv zeta.
  unfold generate_linkedin_variants, try_except, request_generation, parse_json,
    variants_of, generation_failed, bind, log, emit, ret, raise.
  cbn [fst snd].
  split; [| split].
  - intros text ->. cbn [fst snd].
    destruct (json_loads w (clean_up_markdown text)) as [msg | [variants | e]];
      cbn [fst snd]; [| | destruct e; cbn [fst snd]];
      rewrite ?effect_effect, ?new_events_effect, ?new_logs_effect;
      repeat split; try done; elem_of_listed.
  - intros e ->. cbn [fst snd].
    destruct e; cbn [fst snd];
      rewrite ?effect_effect, ?new_events_effect, ?new_logs_effect;
      repeat split; try done; elem_of_listed.
  - intros variants.
    destruct (anthropic_messages w (ANTHROPIC_API_KEY w) blog_post) as [e | text];
      cbn [fst snd].
    + destruct e; cbn [fst snd]; intros [=].
    + destruct (json_loads w (clean_up_markdown text)) as [msg | [vs | e]] eqn:Hj;
        cbn [fst snd]; [| | destruct e; cbn [fst snd]]; intros [=]. subst. by eexists.
Qed.

Lemma generation_outcomes_witness :
  fst (generate_linkedin_variants Scenario.reply_is_no_json (post_of_entry Sample.entry_a)
         Sample.fresh) = Raise (UnboundLocalError "generated_text").
Proof.
  exact (proj1 (proj2 (proj2 (proj1 (proj2
           (generation_outcomes Scenario.reply_is_no_json (post_of_entry Sample.entry_a)
              Sample.fresh))
           (JSONDecodeError "Expecting value: line 1 column 1 (char 0)") eq_refl)))).
Defined.

(** ** The run as a whole *)

Lemma effect_same_base st l1 e1 l2 e2 :
  effect st l1 e1 = effect st l2 e2 -> l1 = l2 /\ e1 = e2.
Proof.
  intros H. split.
  - apply (f_equal (new_logs st)) in H. by rewrite !new_logs_effect in H.
  - apply (f_equal (new_events st)) in H. by rewrite !new_events_effect in H.
Qed.
(** The run of [main], case by case. *)
Lemma main_cases w st :
  match chosen w (store st) with
  | Raise e =>
      exists l, main w st = (Raise e, effect st l (chosen_events w (store st)))
  | Ret None =>
      exists l, main w st = (Ret tt, effect st l (chosen_events w (store st)))
  | Ret (Some (blog_post, best_variant)) =>
      match v_caption best_variant, v_hashtags best_variant with
      | None, _ =>
          exists l,
            main w st = (Raise (KeyError "caption"), effect st l (chosen_events w (store st)))
      | Some _, None =>
          exists l,
            main w st = (Raise (KeyError "hashtags"), effect st l (chosen_events w (store st)))
      | Some caption, Some hashtags =>
          exists l1 ls evs success l,
            post_to_linkedin w caption hashtags (link blog_post)
              (effect st l1 (chosen_events w (store st))) =
              (Ret success, effect (effect st l1 (chosen_events w (store st))) ls evs) /\
            if success then
              let posted :=
                <[get_article_hash (link blog_post) := record_of w blog_post best_variant]>
                  (store st) in
              main w st =
                (Ret tt,
                 {| cache_file := Some posted;
                    logs := logs st ++ l;
                    trace := trace st ++ chosen_events w (store st) ++ evs ++
                             [EvCacheWrite posted] |})
            else
              main w st = (Ret tt, effect st l (chosen_events w (store st) ++ evs))
      end
  end.
Proof.
  destruct (main_chosen w st) as (l1 & E1 & H).
  destruct (chosen w (store st)) as [[[blog_post best_variant] |] | e] eqn:Hchosen;
    [| by eexists | by eexists].
  destruct H as (r2 & l2 & e2 & E2 & F2 & H).
  rewrite publish_run in E2.
  destruct (v_caption best_variant) as [caption |];
    [destruct (v_hashtags best_variant) as [hashtags |] |].
  - rewrite effect_effect, app_nil_r in E2.
    destruct (post_to_linkedin_shape w caption hashtags (link blog_post)
                (effect st (l1 ++ [Py.nl +:+ "📤 Step 4: Posting to LinkedIn..."])
                   (chosen_events w (store st))))
      as (ls & evs & success & E & _).
    exists (l1 ++ [Py.nl +:+ "📤 Step 4: Posting to LinkedIn..."]), ls, evs, success.
    rewrite E in E2 |- *. rewrite effect_effect in E2.
    apply pair_equal_spec in E2 as [<- E2].
    apply effect_same_base in E2 as [_ E2]. apply app_inv_head in E2 as <-.
    destruct success; [destruct H as (l3 & H) |]; rewrite H; by eexists.
  - rewrite effect_effect in E2. apply pair_equal_spec in E2 as [<- E2].
    apply effect_same_base in E2 as [_ E2].
    rewrite app_nil_r in E2. apply (f_equal length) in E2.
    rewrite length_app in E2. destruct e2; [| simpl in E2; lia].
    rewrite H, app_nil_r. by eexists.
  - rewrite effect_effect in E2. apply pair_equal_spec in E2 as [<- E2].
    apply effect_same_base in E2 as [_ E2].
    rewrite app_nil_r in E2. apply (f_equal length) in E2.
    rewrite length_app in E2. destruct e2; [| simpl in E2; lia].
    rewrite H, app_nil_r. by eexists.
Qed.

Lemma find_first_unrecorded posted entries e :
  List.find (fun e => negb (bool_decide (recorded posted e))) entries = Some e ->
  first_unrecorded posted entries e.
Proof.
  induction entries as [| x entries IH]; simpl; [done |].
  destruct (bool_decide (recorded posted x)) eqn:Hx; simpl.
  - intros (before & after & -> & Hb & He)%IH.
    exists (x :: before), after. split; [done |]. split; [| done].
    constructor; [by apply bool_decide_eq_true in Hx | done].
  - intros [= ->]. exists [], entries. split; [done |]. split; [constructor |].
    by apply bool_decide_eq_false in Hx.
Qed.

Lemma first_unrecorded_find posted entries e :
  first_unrecorded posted entries e ->
  List.find (fun e => negb (bool_decide (recorded posted e))) entries = Some e.
Proof.
  intros (before & after & -> & Hb & He).
  induction Hb as [| x before Hx Hb IH]; simpl.
  - by rewrite bool_decide_eq_false_2.
  - by rewrite bool_decide_eq_true_2.
Qed.

Lemma next_post_some w rss_url posted blog_post :
  next_post w rss_url posted = Some blog_post <->
  exists entries e,
    feedparser_parse w rss_url = inr entries /\
    first_unrecorded posted entries e /\
    content_well_formed e = true /\
    blog_post = post_of_entry e.
Proof.
  unfold next_post. split.
  - destruct (feedparser_parse w rss_url) as [| entries]; [done |].
    destruct (List.find _ entries) as [e |] eqn:Hfind; [| done].
    destruct (content_well_formed e) eqn:Hwf; [| done].
    intros [= <-]. exists entries, e. by apply find_first_unrecorded in Hfind.
  - intros (entries & e & -> & Hfirst%first_unrecorded_find & Hwf & ->).
    by rewrite Hfirst, Hwf.
Qed.

Lemma next_post_unrecorded w rss_url posted blog_post :
  next_post w rss_url posted = Some blog_post ->
  posted !! get_article_hash (link blog_post) = None.
Proof.
  intros (entries & e & _ & (_ & _ & _ & _ & He) & _ & ->)%next_post_some.
  unfold recorded in He. simpl. by apply eq_None_not_Some.
Qed.

Lemma chosen_some w posted blog_post best_variant :
  chosen w posted = Ret (Some (blog_post, best_variant)) ->
  configured w = true /\
  next_post w (SQUARESPACE_RSS_URL w) posted = Some blog_post /\
  exists variants,
    generated w blog_post = Ret (Some variants) /\
    selected variants = Ret (Some best_variant).
Proof.
  unfold chosen. intros H.
  repeat case_match; simplify_eq; eauto.
Qed.

Lemma generated_some w blog_post variants :
  generated w blog_post = Ret (Some variants) ->
  exists text,
    anthropic_messages w (ANTHROPIC_API_KEY w) blog_post = inr text /\
    json_loads w (clean_up_markdown text) = inr (DocVariants variants).
Proof.
  unfold generated. intros H. repeat case_match; simplify_eq; eauto.
Qed.

Lemma selected_member variants best :
  selected variants = Ret (Some best) -> best ∈ variants.
Proof.
  unfold selected. intros H.
  destruct (sorted_reverse score_key variants) as [| b s] eqn:Hs; [done |].
  assert (b ∈ variants) as Hin.
  { rewrite <- (sorted_reverse_perm score_key variants), Hs. by left. }
  repeat case_match; by simplify_eq.
Qed.

Lemma platform_events evs :
  Forall (fun ev => is_platform_interaction ev = true) evs ->
  evs = map EvBrowser (browser_calls evs).
Proof.
  induction 1 as [| [] evs Hev _ IH]; simpl; try done. by f_equal.
Qed.

Lemma new_events_written st posted lines evs :
  new_events st {| cache_file := posted; logs := lines; trace := trace st ++ evs |} = evs.
Proof. unfold new_events. simpl. by rewrite drop_app_length. Qed.

(** X10. The events of a run come in one order: the feed fetch, the
    generation request, the WebDriver calls, the write to the cache file.
    There is at most one fetch, one request and one write; no request
    without a fetch, no WebDriver call without a request, and no write
    unless the browser session was run to its [quit]. *)
Theorem run_events_in_order :
  forall w st,
    exists fetch request calls writes,
      new_events st (snd (main w st)) =
        fetch ++ request ++ map EvBrowser calls ++ map EvCacheWrite writes /\
      (fetch = [] \/ fetch = [EvFeedParse (SQUARESPACE_RSS_URL w)]) /\
      (request = [] \/
       fetch <> [] /\ exists blog_post, request = [EvApiPost (ANTHROPIC_API_KEY w) blog_post]) /\
      (calls = [] \/ request <> []) /\
      (writes = [] \/
       last calls = Some quit /\ fst (main w st) = Ret tt /\
       writes = [store (snd (main w st))]).
Proof.
  intros w st. pose proof (main_cases w st) as H.
  assert (exists fetch request,
            chosen_events w (store st) = fetch ++ request /\
            (fetch = [] \/ fetch = [EvFeedParse (SQUARESPACE_RSS_URL w)]) /\
            (request = [] \/
             fetch <> [] /\
             exists blog_post, request = [EvApiPost (ANTHROPIC_API_KEY w) blog_post]) /\
            (forall p, chosen w (store st) = Ret (Some p) -> request <> []))
    as (fetch & request & Hevs & Hfetch & Hrequest & Hchosen).
  { unfold chosen_events, chosen. destruct (configured w).
    - destruct (next_post w (SQUARESPACE_RSS_URL w) (store st)) as [blog_post |].
      + exists [EvFeedParse (SQUARESPACE_RSS_URL w)],
          [EvApiPost (ANTHROPIC_API_KEY w) blog_post].
        split; [done |]. split; [by right |].
        split; [right; split; [done | by eexists] | done].
      + exists [EvFeedParse (SQUARESPACE_RSS_URL w)], [].
        split; [done |]. split; [by right |]. split; [by left | done].
    - exists [], []. split; [done |]. split; [by left |]. split; [by left | done]. }
  exists fetch, request.
  assert (forall r l,
            main w st = (r, effect st l (chosen_events w (store st))) ->
            new_events st (snd (main w st)) = fetch ++ request ++ map EvBrowser [] ++
                                               map EvCacheWrite [] /\
            (fetch = [] \/ fetch = [EvFeedParse (SQUARESPACE_RSS_URL w)]) /\
            (request = [] \/
             fetch <> [] /\
             exists blog_post, request = [EvApiPost (ANTHROPIC_API_KEY w) blog_post]) /\
            (@nil browser_call = [] \/ request <> []) /\
            (@nil (gmap string posted_info) = [] \/
             last (@nil browser_call) = Some quit /\ fst (main w st) = Ret tt /\
             [] = [store (snd (main w st))])) as Hquiet.
  { intros r l E. rewrite E. simpl. rewrite new_events_effect, Hevs, app_nil_r.
    repeat split; auto. }
  destruct (chosen w (store st)) as [[[blog_post best_variant] |] | e] eqn:Hc.
  - destruct (v_caption best_variant) as [caption |];
      [destruct (v_hashtags best_variant) as [hashtags |] |].
    + destruct H as (l1 & ls & evs & success & l & E & H).
      destruct (post_to_linkedin_shape w caption hashtags (link blog_post)
                  (effect st l1 (chosen_events w (store st))))
        as (ls' & evs' & success' & E' & F & Hshape & Hsuccess).
      destruct (run_unique _ _ _ _ _ _ _ _ E E') as ([= <-] & <- & <-).
      exists (browser_calls evs).
      destruct success.
      * exists [<[get_article_hash (link blog_post) := record_of w blog_post best_variant]>
                  (store st)].
        simpl in H. rewrite H. simpl.
        rewrite new_events_written, Hevs, <- (platform_events evs F), <- !app_assoc.
        split; [done |]. split; [done |]. split; [done |].
        split; [right; by eapply Hchosen |].
        right. destruct (Hsuccess eq_refl) as (_ & -> & _).
        split; [by rewrite !app_assoc, last_snoc | done].
      * exists []. rewrite H. simpl.
        rewrite new_events_effect, Hevs, <- (platform_events evs F), <- !app_assoc, app_nil_r.
        split; [done |]. split; [done |]. split; [done |].
        split; [right; by eapply Hchosen | by left].
    + destruct H as (l & H). exists [], []. by eapply Hquiet.
    + destruct H as (l & H). exists [], []. by eapply Hquiet.
  - destruct H as (l & H). exists [], []. by eapply Hquiet.
  - destruct H as (l & H). exists [], []. by eapply Hquiet.
Qed.

Lemma main_store w st :
  cache_file (snd (main w st)) = cache_file st \/
  exists blog_post best_variant,
    store st !! get_article_hash (link blog_post) = None /\
    cache_file (snd (main w st)) =
      Some (<[get_article_hash (link blog_post) := record_of w blog_post best_variant]>
              (store st)).
Proof.
  pose proof (main_cases w st) as H.
  assert (forall r l,
            main w st = (r, effect st l (chosen_events w (store st))) ->
            cache_file (snd (main w st)) = cache_file st) as Hquiet
    by (by intros r l ->).
  destruct (chosen w (store st)) as [[[blog_post best_variant] |] | e] eqn:Hc.
  - destruct (v_caption best_variant) as [caption |];
      [destruct (v_hashtags best_variant) as [hashtags |] |].
    + destruct H as (l1 & ls & evs & [] & l & E & H); rewrite H; simpl; [| by left].
      right. exists blog_post, best_variant. split; [| done].
      apply chosen_some in Hc as (_ & Hnext & _).
      by apply next_post_unrecorded in Hnext.
    + destruct H as (l & H). left. by eapply Hquiet.
    + destruct H as (l & H). left. by eapply Hquiet.
  - destruct H as (l & H). left. by eapply Hquiet.
  - destruct H as (l & H). left. by eapply Hquiet.
Qed.

(** X11. A run never removes or changes a record of the store: it leaves the
    cache file as it is, or adds the record of one post under a
    fingerprint the store did not hold. *)
Theorem run_only_adds_to_store :
  forall w st,
    let st' := snd (main w st) in
    (forall fingerprint record,
       store st !! fingerprint = Some record -> store st' !! fingerprint = Some record) /\
    (cache_file st' = cache_file st \/
     exists blog_post best_variant,
       store st !! get_article_hash (link blog_post) = None /\
       cache_file st' =
         Some (<[get_article_hash (link blog_post) := record_of w blog_post best_variant]>
                 (store st))).
Proof.
  intros w st. simpl. pose proof (main_store w st) as Hcases.
  split; [| done].
  intros fingerprint record Hrec.
  destruct Hcases as [Heq | (blog_post & best_variant & Hnone & Heq)];
    unfold store at 1; rewrite Heq; [done |]. simpl.
  rewrite lookup_insert_ne; [done | congruence].
Qed.

Lemma run_only_adds_to_store_witness :
  let record := PostedInfo "https://example.com/blog/post-b" "2026-06-01T10:00:00.000000"
                  "Post B" "personal_story" in
  let st := {| cache_file := Some {[ get_article_hash "https://example.com/blog/post-b" := record ]};
               logs := []; trace := [] |} in
  store (snd (main (Sample.healthy [Sample.entry_a; Sample.entry_b]) st))
    !! get_article_hash "https://example.com/blog/post-b" = Some record.
Proof.
  intros record st.
  apply (proj1 (run_only_adds_to_store (Sample.healthy [Sample.entry_a; Sample.entry_b]) st)).
  unfold st, store. cbn [cache_file default]. apply lookup_singleton_eq.
Defined.

Lemma chosen_same_sources w1 w2 posted :
  same_sources w1 w2 ->
  chosen w1 posted = chosen w2 posted /\
  chosen_events w1 posted = chosen_events w2 posted.
Proof.
  intros (Hrss & Hkey & Hfeed & Hgen & Hjson).
  unfold chosen, chosen_events, configured, next_post, generated.
  by rewrite Hrss, Hkey, Hfeed, Hgen, Hjson.
Qed.

Lemma composer_texts_app e1 e2 :
  composer_texts (e1 ++ e2) = composer_texts e1 ++ composer_texts e2.
Proof. apply omap_app. Qed.

Lemma comment_texts_app e1 e2 :
  comment_texts (e1 ++ e2) = comment_texts e1 ++ comment_texts e2.
Proof. apply omap_app. Qed.

Lemma composer_texts_chosen_events w posted : composer_texts (chosen_events w posted) = [].
Proof. unfold chosen_events. by repeat case_match. Qed.

Lemma comment_texts_chosen_events w posted : comment_texts (chosen_events w posted) = [].
Proof. unfold chosen_events. by repeat case_match. Qed.

Lemma browser_calls_chosen_events w posted : browser_calls (chosen_events w posted) = [].
Proof. unfold chosen_events. by repeat case_match. Qed.

Lemma composer_texts_script w caption hashtags blog_url :
  composer_texts (map EvBrowser (full_script w caption hashtags blog_url)) =
    [full_caption caption hashtags].
Proof.
  unfold full_script, session_calls, startup_calls, login_calls, address_reads, compose_calls,
    comment_calls.
  by destruct (Py.str_in "feed" (url_after_login w)).
Qed.

Lemma comment_texts_script w caption hashtags blog_url :
  comment_texts (map EvBrowser (full_script w caption hashtags blog_url)) =
    ["Read the full post: " +:+ blog_url].
Proof.
  unfold full_script, session_calls, startup_calls, login_calls, address_reads, compose_calls,
    comment_calls.
  by destruct (Py.str_in "feed" (url_after_login w)).
Qed.

(** The run that publishes. *)
Lemma main_publishes w st blog_post best_variant caption hashtags :
  platform_works w ->
  chosen w (store st) = Ret (Some (blog_post, best_variant)) ->
  v_caption best_variant = Some caption ->
  v_hashtags best_variant = Some hashtags ->
  let posted :=
    <[get_article_hash (link blog_post) := record_of w blog_post best_variant]> (store st) in
  exists l,
    main w st =
      (Ret tt,
       {| cache_file := Some posted;
          logs := logs st ++ l;
          trace := trace st ++ chosen_events w (store st) ++
                   map EvBrowser (full_script w caption hashtags (link blog_post)) ++
                   [EvCacheWrite posted] |}).
Proof.
  intros (Hcan & Hlogin & Hall) Hchosen Hc Hh. simpl.
  pose proof (main_cases w st) as H. rewrite Hchosen, Hc, Hh in H.
  destruct H as (l1 & ls & evs & success & l & E & H).
  destruct (post_to_linkedin_succeeds w caption hashtags (link blog_post)
              (effect st l1 (chosen_events w (store st))) Hcan Hlogin)
    as (ls' & E'); [by apply Forall_forall |].
  destruct (run_unique _ _ _ _ _ _ _ _ E E') as ([= ->] & -> & ->).
  by eexists.
Qed.

Lemma post_button_clicked w caption hashtags blog_url n :
  click post_button ∈
    startup_calls ++ take n (session_calls w caption hashtags blog_url) ++ [quit] ->
  (length (login_calls w ++ address_reads w ++ compose_calls caption hashtags) <= n)%nat.
Proof.
  intros H.
  set (before := login_calls w ++ address_reads w ++ compose_calls caption hashtags).
  destruct (decide (length before <= n)%nat) as [Hn | Hn]; [done |]. exfalso.
  assert (click post_button ∉
            take (length before - 1) (session_calls w caption hashtags blog_url)) as Hpost.
  { unfold before, session_calls, login_calls, address_reads, compose_calls, comment_calls.
    destruct (Py.str_in "feed" (url_after_login w)); simpl; intros H'; not_listed H'. }
  rewrite !elem_of_app in H. destruct H as [H | [H | H]].
  - unfold startup_calls in H. not_listed H.
  - apply Hpost. eapply elem_of_take_less; [| exact H]. lia.
  - not_listed H.
Qed.

Lemma composer_texts_after_click w caption hashtags blog_url n :
  (length (login_calls w ++ address_reads w ++ compose_calls caption hashtags) <= n)%nat ->
  composer_texts
    (map EvBrowser
       (startup_calls ++ take n (session_calls w caption hashtags blog_url) ++ [quit])) =
    [full_caption caption hashtags].
Proof.
  intros Hn. unfold session_calls. rewrite !app_assoc.
  rewrite take_app_ge by (by rewrite <- !app_assoc).
  rewrite !map_app, !composer_texts_app.
  assert (composer_texts
            (map EvBrowser
               (take (n - length ((login_calls w ++ address_reads w) ++
                                    compose_calls caption hashtags))
                  (comment_calls blog_url))) = []) as ->.
  { generalize (n - length ((login_calls w ++ address_reads w) ++
                              compose_calls caption hashtags))%nat.
    intros k. do 6 (destruct k as [| k]; [done |]). done. }
  unfold startup_calls, login_calls, address_reads, compose_calls.
  by destruct (Py.str_in "feed" (url_after_login w)).
Qed.

Lemma cache_writes_written evs posted :
  cache_writes (evs ++ [EvCacheWrite posted]) <> [].
Proof.
  unfold cache_writes. rewrite omap_app. simpl. by destruct (omap _ evs).
Qed.

(** ** The text typed into the composer *)

(** C8. The text typed into the composer is the caption, a blank line, and
    the hashtags, each prefixed with [#] and joined by single spaces.
    Nothing else is ever typed there; a session that clicks the post
    button has typed this text, once, before the click; and with the
    platform working [post_to_linkedin] does type it and returns [True].
    For "Hello" and [AI; Leadership] the text is "Hello", two line feeds,
    "#AI #Leadership". *)
Theorem composer_text_format :
  (forall w caption hashtags blog_url st,
     let rendered :=
       caption +:+ Py.nl +:+ Py.nl +:+ Py.join " " (map (String "#") hashtags) in
     let evs := new_events st (snd (post_to_linkedin w caption hashtags blog_url st)) in
     Forall (fun keys => keys = rendered) (composer_texts evs) /\
     (click post_button ∈ browser_calls evs -> composer_texts evs = [rendered]) /\
     (platform_works w ->
      fst (post_to_linkedin w caption hashtags blog_url st) = Ret true /\
      click post_button ∈ browser_calls evs /\
      composer_texts evs = [rendered])) /\
  full_caption "Hello" ["AI"; "Leadership"] =
    "Hello" +:+ Py.chr 10 +:+ Py.chr 10 +:+ "#AI #Leadership".
Proof.
  split; [| reflexivity].
  intros w caption hashtags blog_url st. cbv zeta.
  change (caption +:+ Py.nl +:+ Py.nl +:+ Py.join " " (map (String "#") hashtags))
    with (full_caption caption hashtags).
  split; [| split].
  - destruct (keeps_post_to_linkedin w caption hashtags blog_url st) as (ls & evs & -> & F).
    rewrite new_events_effect. by apply composer_texts_gets.
  - destruct (post_to_linkedin_shape w caption hashtags blog_url st)
      as (ls & evs & success & E & F & Hshape & _).
    rewrite E. cbn [snd]. rewrite new_events_effect. intros Hclick.
    rewrite (platform_events evs F).
    destruct Hshape as [(Hcalls & _) | [(Hcalls & _) | [(Hcalls & _) | ((n & Hcalls) & _)]]];
      rewrite Hcalls in Hclick |- *.
    1-3: unfold startup_calls in Hclick; not_listed Hclick.
    apply post_button_clicked in Hclick. by apply composer_texts_after_click.
  - intros (Hcan & Hlogin & Hall).
    destruct (post_to_linkedin_succeeds w caption hashtags blog_url st Hcan Hlogin)
      as (ls & E); [by apply Forall_forall |].
    rewrite E. cbn [fst snd]. rewrite new_events_effect, browser_calls_map.
    split; [done |]. split.
    + unfold session_calls. rewrite !elem_of_app. right. left. right. right. left.
      unfold compose_calls. elem_of_listed.
    + apply composer_texts_script.
Qed.

Lemma composer_text_format_witness :
  let evs :=
    new_events Sample.fresh
      (snd (post_to_linkedin (Sample.healthy []) "Hello" ["AI"; "Leadership"]
              "https://example.com/blog/post-a" Sample.fresh)) in
  click post_button ∈ browser_calls evs /\
  composer_texts evs = ["Hello" +:+ Py.chr 10 +:+ Py.chr 10 +:+ "#AI #Leadership"].
Proof.
  refine (proj2 (proj2 (proj2 (proj1 composer_text_format (Sample.healthy []) "Hello"
                                 ["AI"; "Leadership"] "https://example.com/blog/post-a"
                                 Sample.fresh)) _)).
  split; [reflexivity |]. split; [reflexivity |]. intros c. reflexivity.
Defined.

(** X12. A failure after the post button was clicked makes a duplicate: when
    a run has clicked the post button and has not written the cache file,
    a later run over the same feed and the same backend, with the platform
    working, types the same text into the composer and clicks the post
    button again. *)
Theorem retry_after_late_failure_posts_twice :
  forall w1 w2 st,
    same_sources w1 w2 ->
    platform_works w2 ->
    click post_button ∈ browser_calls (new_events st (snd (main w1 st))) ->
    cache_writes (new_events st (snd (main w1 st))) = [] ->
    let st1 := snd (main w1 st) in
    let st2 := snd (main w2 st1) in
    exists text,
      composer_texts (new_events st st1) = [text] /\
      composer_texts (new_events st1 st2) = [text] /\
      click post_button ∈ browser_calls (new_events st1 st2) /\
      cache_writes (new_events st1 st2) <> [].
Proof.
  intros w1 w2 st Hsame Hworks Hclick Hquiet. simpl.
  pose proof (main_cases w1 st) as H.
  assert (forall r l,
            main w1 st = (r, effect st l (chosen_events w1 (store st))) -> False) as Hno.
  { intros r l E. rewrite E in Hclick. simpl in Hclick.
    rewrite new_events_effect, browser_calls_chosen_events in Hclick.
    by apply elem_of_nil in Hclick. }
  destruct (chosen w1 (store st)) as [[[blog_post best_variant] |] | e] eqn:Hchosen;
    [| destruct H as (l & H); by apply Hno in H ..].
  destruct (v_caption best_variant) as [caption |] eqn:Hc;
    [destruct (v_hashtags best_variant) as [hashtags |] eqn:Hh |];
    [| destruct H as (l & H); by apply Hno in H ..].
  destruct H as (l1 & ls & evs & success & l & E & H).
  destruct success.
  { exfalso. simpl in H. rewrite H in Hquiet. simpl in Hquiet.
    rewrite new_events_written, app_assoc in Hquiet.
    by apply cache_writes_written in Hquiet. }
  destruct (post_to_linkedin_shape w1 caption hashtags (link blog_post)
              (effect st l1 (chosen_events w1 (store st))))
    as (ls' & evs' & success' & E' & F & Hshape & _).
  destruct (run_unique _ _ _ _ _ _ _ _ E E') as ([= <-] & <- & <-).
  rewrite H in Hclick |- *. simpl in *.
  rewrite new_events_effect, browser_calls_app, browser_calls_chosen_events in Hclick.
  simpl in Hclick.
  rewrite new_events_effect, composer_texts_app, composer_texts_chosen_events. simpl.
  exists (full_caption caption hashtags). split.
  - rewrite (platform_events evs F).
    destruct Hshape as [(Hcalls & _) | [(Hcalls & _) | [(Hcalls & _) | ((n & Hcalls) & _)]]];
      rewrite Hcalls in Hclick |- *.
    1-3: unfold startup_calls in Hclick; not_listed Hclick.
    apply post_button_clicked in Hclick. by apply composer_texts_after_click.
  - destruct (chosen_same_sources w1 w2 (store st) Hsame) as (Hsame1 & Hsame2).
    assert (store (effect st l (chosen_events w1 (store st) ++ evs)) = store st) as Hstore
      by done.
    destruct (main_publishes w2 (effect st l (chosen_events w1 (store st) ++ evs))
                blog_post best_variant caption hashtags Hworks) as (l2 & E2);
      [by rewrite Hstore, <- Hsame1 | done | done |].
    rewrite E2. cbn [snd]. rewrite new_events_written.
    rewrite !composer_texts_app, composer_texts_chosen_events, composer_texts_script.
    rewrite !browser_calls_app, browser_calls_chosen_events, browser_calls_map.
    split; [done |]. split.
    + unfold full_script, session_calls. rewrite !elem_of_app.
      right. left. right. left. right. right. left.
      unfold compose_calls. elem_of_listed.
    + rewrite app_assoc. apply cache_writes_written.
Qed.

Lemma retry_after_late_failure_posts_twice_witness :
  let w1 := Sample.make "steven@example.com" [Sample.entry_a]
              (fenced (Sample.json_reply Sample.three)) Sample.no_comment_box in
  let w2 := Sample.healthy [Sample.entry_a] in
  let st1 := snd (main w1 Sample.fresh) in
  let st2 := snd (main w2 st1) in
  exists text,
    composer_texts (new_events Sample.fresh st1) = [text] /\
    composer_texts (new_events st1 st2) = [text] /\
    click post_button ∈ browser_calls (new_events st1 st2) /\
    cache_writes (new_events st1 st2) <> [].
Proof.
  intros w1 w2.
  apply (retry_after_late_failure_posts_twice w1 w2 Sample.fresh).
  - repeat split.
  - split; [reflexivity |]. split; [reflexivity |]. intros c. reflexivity.
  - vm_compute. elem_of_listed.
  - vm_compute. reflexivity.
Defined.

Lemma selected_candidates variants :
  variants <> [] -> forallb is_candidate variants = true ->
  exists best, selected variants = Ret (Some best) /\ is_candidate best = true.
Proof.
  intros Hne Hall. unfold selected.
  destruct (sorted_reverse score_key variants) as [| b s] eqn:Hs.
  - apply (f_equal length) in Hs. rewrite (sorted_reverse_perm score_key variants) in Hs.
    by destruct variants.
  - assert (is_candidate b = true) as Hb.
    { rewrite forallb_forall in Hall. apply Hall, list_elem_of_In.
      rewrite <- (sorted_reverse_perm score_key variants), Hs. by left. }
    destruct (is_candidate_fields _ Hb) as ([? ->] & [? ->] & [? ->]). eauto.
Qed.

(** The run that finds everything in order. *)
Lemma main_all_works w entries st e :
  sources_work w entries ->
  platform_works w ->
  first_unrecorded (store st) entries e ->
  exists best_variant caption hashtags l,
    let posted :=
      <[get_article_hash (link (post_of_entry e)) :=
          record_of w (post_of_entry e) best_variant]> (store st) in
    main w st =
      (Ret tt,
       {| cache_file := Some posted;
          logs := logs st ++ l;
          trace := trace st ++ chosen_events w (store st) ++
                   map EvBrowser (full_script w caption hashtags (link (post_of_entry e))) ++
                   [EvCacheWrite posted] |}).
Proof.
  intros (Hconf & Hfeed & Hwf & Hgen) Hworks Hfirst.
  assert (content_well_formed e = true) as He.
  { destruct Hfirst as (before & after & -> & _).
    rewrite forallb_app in Hwf. simpl in Hwf.
    by apply andb_true_iff in Hwf as [_ [? _]%andb_true_iff]. }
  destruct (Hgen (post_of_entry e)) as (text & variants & Ha & Hj & Hne & Hcand).
  destruct (selected_candidates variants Hne Hcand) as (best & Hsel & Hbest).
  assert (chosen w (store st) = Ret (Some (post_of_entry e, best))) as Hchosen.
  { unfold chosen. rewrite Hconf.
    rewrite (proj2 (next_post_some w _ (store st) (post_of_entry e)))
      by (by exists entries, e).
    unfold generated. rewrite Ha, Hj.
    destruct variants as [| v vs]; [done |]. by rewrite Hsel. }
  unfold is_candidate in Hbest. rewrite !andb_true_iff, !bool_decide_eq_true in Hbest.
  destruct Hbest as ((((_ & [caption Hc]) & [hashtags Hh]) & _) & _).
  exists best, caption, hashtags.
  by apply main_publishes.
Qed.

Lemma pending_nil posted entries :
  pending posted entries = [] <-> Forall (recorded posted) entries.
Proof.
  unfold pending. induction entries as [| x entries IH]; simpl; [by split |].
  rewrite filter_cons. destruct (decide (~ recorded posted x)) as [Hx | Hx].
  - split; [done |]. by inversion 1.
  - rewrite IH. apply dec_stable in Hx. split; [by constructor | by inversion 1].
Qed.

Lemma pending_first posted entries :
  pending posted entries <> [] -> exists e, first_unrecorded posted entries e.
Proof.
  unfold pending. induction entries as [| x entries IH]; simpl; [done |].
  rewrite filter_cons. destruct (decide (~ recorded posted x)) as [Hx | Hx].
  - intros _. exists x. exists [], entries. by repeat split.
  - intros (e & before & after & -> & Hb & He)%IH. apply dec_stable in Hx.
    exists e. exists (x :: before), after. repeat split; [by constructor | done].
Qed.

Lemma pending_insert posted key record entries :
  (length (pending (<[key := record]> posted) entries) <= length (pending posted entries))%nat.
Proof.
  unfold pending. induction entries as [| x entries IH]; simpl; [done |].
  rewrite !filter_cons.
  destruct (decide (~ recorded posted x)) as [Hx | Hx];
    destruct (decide (~ recorded (<[key := record]> posted) x)) as [Hx' | Hx']; simpl; try lia.
  exfalso. apply dec_stable in Hx. by apply Hx', recorded_insert.
Qed.

Lemma pending_insert_first posted record entries e :
  first_unrecorded posted entries e ->
  (length (pending (<[get_article_hash (default "" (e_link e)) := record]> posted) entries)
   < length (pending posted entries))%nat.
Proof.
  intros (before & after & -> & Hb & He). unfold pending.
  rewrite !filter_app, !filter_cons, !length_app.
  pose proof (pending_insert posted (get_article_hash (default "" (e_link e))) record before).
  pose proof (pending_insert posted (get_article_hash (default "" (e_link e))) record after).
  unfold pending in *.
  destruct (decide (~ recorded posted e)); [| done].
  destruct (decide (~ recorded (<[get_article_hash (default "" (e_link e)) := record]> posted) e))
    as [Hn | _]; simpl; [| lia].
  exfalso. apply Hn. unfold recorded. rewrite lookup_insert_eq. eauto.
Qed.

Lemma store_written posted lines evs :
  store {| cache_file := Some posted; logs := lines; trace := evs |} = posted.
Proof. done. Qed.

Lemma run_many_drains w entries n :
  sources_work w entries ->
  platform_works w ->
  forall st,
    (length (pending (store st) entries) <= n)%nat ->
    pending (store (run_many w n st)) entries = [].
Proof.
  intros Hsources Hworks.
  induction n as [| n IH]; intros st Hn; simpl.
  - destruct (pending (store st) entries); [done | simpl in Hn; lia].
  - apply IH.
    destruct (pending (store st) entries) as [| p ps] eqn:Hp.
    + apply pending_nil in Hp.
      assert (pending (store (snd (main w st))) entries = []) as ->; [| simpl; lia].
      apply pending_nil.
      destruct (main_store w st) as [Heq | (blog_post & best_variant & _ & Heq)];
        unfold store; rewrite Heq; [done |].
      eapply Forall_impl; [exact Hp |]. intros e. apply recorded_insert.
    + destruct (pending_first (store st) entries) as (e & Hfirst); [by rewrite Hp |].
      destruct (main_all_works w entries st e Hsources Hworks Hfirst)
        as (best & caption & hashtags & l & E).
      cbv zeta in E. rewrite E. cbn [snd]. rewrite store_written.
      pose proof (pending_insert_first (store st)
                    (record_of w (post_of_entry e) best) entries e Hfirst) as Hlt.
      rewrite Hp in Hlt. change (link (post_of_entry e)) with (default "" (e_link e)).
      simpl length in *. lia.
Qed.

(** X13. With the feed, the backend and the platform all working, every run
    publishes the first entry of the feed that is not recorded yet, puts
    the link of that entry into the comment and records the entry; after
    as many runs as the feed has entries, every entry is recorded. *)
Theorem working_runs_drain_the_feed :
  forall w entries,
    sources_work w entries ->
    platform_works w ->
    (forall st e,
       first_unrecorded (store st) entries e ->
       let st' := snd (main w st) in
       fst (main w st) = Ret tt /\
       recorded (store st') e /\
       (exists text, composer_texts (new_events st st') = [text]) /\
       comment_texts (new_events st st') =
         ["Read the full post: " +:+ default "" (e_link e)] /\
       (length (pending (store st') entries) < length (pending (store st) entries))%nat) /\
    (forall st, Forall (recorded (store (run_many w (length entries) st))) entries).
Proof.
  intros w entries Hsources Hworks. split.
  - intros st e Hfirst.
    destruct (main_all_works w entries st e Hsources Hworks Hfirst)
      as (best & caption & hashtags & l & E).
    cbv zeta in E |- *. rewrite E. cbn [fst snd]. rewrite store_written, new_events_written.
    split; [done |]. split; [| split; [| split]].
    + unfold recorded. change (link (post_of_entry e)) with (default "" (e_link e)).
      rewrite lookup_insert_eq. eauto.
    + exists (full_caption caption hashtags).
      rewrite !composer_texts_app, composer_texts_chosen_events, composer_texts_script.
      done.
    + rewrite !comment_texts_app, comment_texts_chosen_events, comment_texts_script.
      done.
    + by apply pending_insert_first.
  - intros st. apply pending_nil, run_many_drains; [done | done |].
    unfold pending. apply length_filter.
Qed.

Lemma working_runs_drain_the_feed_witness :
  Forall (recorded
            (store (run_many (Sample.healthy [Sample.entry_a; Sample.entry_b]) 2 Sample.fresh)))
    [Sample.entry_a; Sample.entry_b].
Proof.
  refine (proj2 (working_runs_drain_the_feed (Sample.healthy [Sample.entry_a; Sample.entry_b])
                   [Sample.entry_a; Sample.entry_b] _ _) Sample.fresh).
  - split; [reflexivity |]. split; [reflexivity |]. split; [reflexivity |].
    intros blog_post. exists (fenced (Sample.json_reply Sample.three)), Sample.three.
    split; [reflexivity |]. split; [vm_compute; reflexivity |]. split; [done | reflexivity].
  - split; [reflexivity |]. split; [reflexivity |]. intros c. reflexivity.
Defined.

(** ** The feed step *)

Lemma first_unposted_blocked entries e st :
  first_unrecorded (store st) entries e ->
  content_well_formed e = false ->
  first_unposted entries st = (Raise IndexError, st).
Proof.
  intros (before & after & -> & Hb & He) Hwf.
  induction Hb as [| x before Hx Hb IH]; simpl app.
  - simpl. unfold bind at 1. rewrite is_already_posted_run.
    rewrite bool_decide_eq_false_2 by done. simpl.
    unfold content_well_formed in Hwf.
    destruct (e_content e) as [[| item items] |]; done.
  - by rewrite first_unposted_skip.
Qed.

Lemma fetch_latest_blog_post_blocked w rss_url st entries e :
  feedparser_parse w rss_url = inr entries ->
  first_unrecorded (store st) entries e ->
  content_well_formed e = false ->
  fetch_latest_blog_post w rss_url st =
    (Ret None,
     effect st ["📡 Fetching RSS feed...";
                "❌ Error fetching RSS feed: list index out of range"]
       [EvFeedParse rss_url]).
Proof.
  intros Hfeed Hfirst Hwf.
  unfold fetch_latest_blog_post, try_except, parse_feed, bind. simpl.
  rewrite Hfeed. simpl.
  destruct entries as [| e0 rest].
  - destruct Hfirst as ([| ? ?] & ? & ? & _); done.
  - rewrite (first_unposted_blocked (e0 :: rest) e) by (by rewrite ?store_effect).
    unfold log, ret. simpl. by rewrite !effect_effect.
Qed.

(** X14. [fetch_latest_blog_post] is total: in every world it fetches the
    feed once, leaves the cache file alone and returns without an
    exception.  It returns a post exactly when the feed could be parsed and
    its first unrecorded entry has a usable ['content']; when that entry
    holds an empty ['content'] list, the [IndexError] of [[0]] is caught
    and logged and the function returns [None], whatever entries follow. *)
Theorem fetch_latest_blog_post_total :
  forall w rss_url st,
    let result := fst (fetch_latest_blog_post w rss_url st) in
    let st' := snd (fetch_latest_blog_post w rss_url st) in
    (exists post, result = Ret post) /\
    new_events st st' = [EvFeedParse rss_url] /\
    cache_file st' = cache_file st /\
    (forall post,
       result = Ret (Some post) <->
       exists entries e,
         feedparser_parse w rss_url = inr entries /\
         first_unrecorded (store st) entries e /\
         content_well_formed e = true /\
         post = post_of_entry e) /\
    (forall entries e,
       feedparser_parse w rss_url = inr entries ->
       first_unrecorded (store st) entries e ->
       content_well_formed e = false ->
       result = Ret None /\
       "❌ Error fetching RSS feed: list index out of range" ∈ new_logs st st').
Proof.
  intros w rss_url st. cbv zeta.
  destruct (fetch_latest_blog_post_next w rss_url st) as (ls & E).
  split; [rewrite E; by eexists |].
  split; [rewrite E; simpl; by rewrite new_events_effect |].
  split; [by rewrite E |].
  split.
  - intros post. rewrite E. cbn [fst]. rewrite <- next_post_some.
    split; [by intros [= ->] | by intros ->].
  - intros entries e Hfeed Hfirst Hwf.
    rewrite (fetch_latest_blog_post_blocked w rss_url st entries e) by done.
    cbn [fst snd]. split; [done |]. rewrite new_logs_effect. elem_of_listed.
Qed.

Lemma fetch_latest_blog_post_total_witness :
  let w := Sample.healthy [Scenario.entry_without_content; Sample.entry_a] in
  fst (fetch_latest_blog_post w "https://example.com/blog?format=rss" Sample.fresh) =
    Ret None.
Proof.
  intros w.
  refine (proj1 (proj2 (proj2 (proj2 (proj2
            (fetch_latest_blog_post_total w "https://example.com/blog?format=rss"
               Sample.fresh))))
            [Scenario.entry_without_content; Sample.entry_a]
            Scenario.entry_without_content _ _ _)).
  - reflexivity.
  - exists [], [Sample.entry_a]. split; [reflexivity |]. split; [constructor |].
    intros [record H]. vm_compute in H. discriminate.
  - reflexivity.
Defined.

(** ** The dedup cache *)

(** X15. The cache file as a store, the file being absent or holding what
    [save_posted_article] writes, an object of records.  A save files,
    under the fingerprint of the URL, a record of the URL, the time and
    the two members of [post_info], each defaulting to the empty string;
    the URL is then found by [is_already_posted]; every other fingerprint
    keeps its record and its answer; saving the same URL again replaces
    the record; and [is_already_posted] changes nothing. *)
Theorem cache_round_trip :
  forall w st u info,
    let st' := snd (save_posted_article w u info st) in
    store st' !! get_article_hash u =
      Some {| url := u;
              posted_at := now_isoformat w;
              p_title := default "" (pi_title info);
              variant_used := default "" (pi_variant_used info) |} /\
    fst (is_already_posted u st') = Ret true /\
    (forall u',
       get_article_hash u' <> get_article_hash u ->
       store st' !! get_article_hash u' = store st !! get_article_hash u' /\
       fst (is_already_posted u' st') = fst (is_already_posted u' st)) /\
    (forall info',
       store (snd (save_posted_article w u info' st')) =
         store (snd (save_posted_article w u info' st))) /\
    (forall u', snd (is_already_posted u' st') = st').
Proof.
  intros w st u info. cbv zeta.
  rewrite save_posted_article_run. cbn [fst snd]. rewrite store_written.
  split; [by rewrite lookup_insert_eq |].
  split; [rewrite is_already_posted_run, store_written; cbn [fst];
          by rewrite lookup_insert_eq, bool_decide_eq_true_2 |].
  split; [| split].
  - intros u' Hne. rewrite !is_already_posted_run, store_written. cbn [fst].
    by rewrite lookup_insert_ne.
  - intros info'. rewrite !save_posted_article_run. cbn [snd].
    rewrite !store_written. apply insert_insert_eq.
  - intros u'. by rewrite is_already_posted_run.
Qed.

Lemma cache_round_trip_witness :
  let w := Sample.healthy [] in
  let st' := snd (save_posted_article w "https://example.com/blog/post-a"
                    (PostInfo (Some "Post A") None) Sample.fresh) in
  fst (is_already_posted "https://example.com/blog/post-b" st') = Ret false.
Proof.
  intros w st'.
  refine (eq_trans
            (proj2 (proj1 (proj2 (proj2
               (cache_round_trip w Sample.fresh "https://example.com/blog/post-a"
                  (PostInfo (Some "Post A") None))))
               "https://example.com/blog/post-b" _)) _).
  - intros H. vm_compute in H. discriminate.
  - reflexivity.
Defined.

(** ** The fingerprint *)

Lemma le_bytes_length n x : length (Md5.le_bytes n x) = n.
Proof. revert x. induction n as [| n IH]; intros x; simpl; [done | by rewrite IH]. Qed.

Lemma le_bytes_range n x : Forall (fun b => (0 <= b < 256)%Z) (Md5.le_bytes n x).
Proof.
  revert x. induction n as [| n IH]; intros x; simpl; constructor; [| apply IH].
  change 255%Z with (Z.ones 8). rewrite Z.land_ones by lia.
  apply Z.mod_pos_bound. lia.
Qed.

Lemma hex_digit_range x :
  (0 <= x < 16)%Z -> Md5.hex_digit x ∈ list_ascii_of_string "0123456789abcdef".
Proof.
  intros Hx. unfold Md5.hex_digit.
  apply list_elem_of_In, nth_In. simpl. lia.
Qed.

Lemma hex_byte_range b :
  (0 <= b < 256)%Z ->
  Forall (fun c => c ∈ list_ascii_of_string "0123456789abcdef") (Md5.hex_byte b).
Proof.
  intros Hb. unfold Md5.hex_byte.
  apply List.Forall_cons; [| apply List.Forall_cons; [| apply List.Forall_nil]];
    apply hex_digit_range.
  - rewrite Z.shiftr_div_pow2 by lia. change (2 ^ 4)%Z with 16%Z.
    split; [apply Z.div_pos; lia | apply Z.div_lt_upper_bound; lia].
  - change 15%Z with (Z.ones 4). rewrite Z.land_ones by lia.
    apply Z.mod_pos_bound. lia.
Qed.

Lemma string_of_list_ascii_length l : String.length (string_of_list_ascii l) = length l.
Proof. induction l as [| c l IH]; simpl; [done | by rewrite IH]. Qed.

Lemma digest_length msg : length (Md5.digest msg) = 16%nat.
Proof. unfold Md5.digest. by rewrite !length_app, !le_bytes_length. Qed.

Lemma digest_range msg : Forall (fun b => (0 <= b < 256)%Z) (Md5.digest msg).
Proof. unfold Md5.digest. rewrite !Forall_app. repeat split; apply le_bytes_range. Qed.

(** X16. A fingerprint is a string of 32 lower-case hexadecimal digits,
    whatever the URL: the keys of [posted_articles.json] all have this
    form. *)
Theorem fingerprint_is_32_hex_digits :
  forall url,
    String.length (get_article_hash url) = 32%nat /\
    Forall (fun c => c ∈ list_ascii_of_string "0123456789abcdef")
      (list_ascii_of_string (get_article_hash url)).
Proof.
  intros url. unfold get_article_hash, Md5.hexdigest.
  rewrite string_of_list_ascii_length, list_ascii_of_string_of_list_ascii.
  pose proof (digest_length (Md5.bytes_of_string url)) as Hlen.
  pose proof (digest_range (Md5.bytes_of_string url)) as Hrange.
  revert Hlen Hrange. generalize (Md5.digest (Md5.bytes_of_string url)). intros bytes.
  intros Hlen Hrange. split.
  - assert (length (concat (map Md5.hex_byte bytes)) = 2 * length bytes)%nat as ->; [| lia].
    clear. induction bytes as [| b bytes IH]; simpl; [done |]. rewrite IH. lia.
  - clear Hlen. induction Hrange as [| b bytes Hb _ IH]; [constructor |].
    change (Forall (fun c => c ∈ list_ascii_of_string "0123456789abcdef")
              (Md5.hex_byte b ++ concat (map Md5.hex_byte bytes))).
    apply Forall_app. split; [by apply hex_byte_range | done].
Qed.

(** ** The selection step *)

Lemma first_of_highest_unique {A} (key : A -> Z) b1 x1 a1 b2 x2 a2 :
  b1 ++ x1 :: a1 = b2 ++ x2 :: a2 ->
  Forall (fun v => (key v < key x1)%Z) b1 ->
  Forall (fun v => (key v <= key x1)%Z) a1 ->
  Forall (fun v => (key v < key x2)%Z) b2 ->
  Forall (fun v => (key v <= key x2)%Z) a2 ->
  b1 = b2 /\ x1 = x2 /\ a1 = a2.
Proof.
  revert b2. induction b1 as [| y b1 IH]; intros [| z b2] E Hb1 Ha1 Hb2 Ha2; simpl in E.
  - by injection E as -> ->.
  - injection E as -> ->. exfalso.
    apply Forall_cons in Hb2 as [Hlt _].
    apply Forall_app in Ha1 as [_ [Hle _]%Forall_cons]. lia.
  - injection E as -> <-. exfalso.
    apply Forall_cons in Hb1 as [Hlt _].
    apply Forall_app in Ha2 as [_ [Hle _]%Forall_cons]. lia.
  - injection E as -> E.
    apply Forall_cons in Hb1 as [_ Hb1]. apply Forall_cons in Hb2 as [_ Hb2].
    destruct (IH b2 E Hb1 Ha1 Hb2 Ha2) as (-> & -> & ->). done.
Qed.

(** X17. [select_best_variant] looks at one candidate only, the first of
    those with the highest score (a missing score counting as 0): it
    returns that candidate when it has a type, a score and a reason, and
    raises the [KeyError] of the first of these three it lacks; what the
    other candidates lack, and whether the best one has a caption or
    hashtags, makes no difference.  It makes no call and leaves the cache
    file alone. *)
Theorem select_best_variant_reads_the_best_only :
  forall before best after st,
    Forall (fun v => (score_key v < score_key best)%Z) before ->
    Forall (fun v => (score_key v <= score_key best)%Z) after ->
    let st' := snd (select_best_variant (before ++ best :: after) st) in
    fst (select_best_variant (before ++ best :: after) st) =
      match v_type best, v_engagement_score best, v_why_it_works best with
      | None, _, _ => Raise (KeyError "type")
      | Some _, None, _ => Raise (KeyError "engagement_score")
      | Some _, Some _, None => Raise (KeyError "why_it_works")
      | Some _, Some _, Some _ => Ret (Some best)
      end /\
    new_events st st' = [] /\
    cache_file st' = cache_file st.
Proof.
  intros before best after st Hb Ha. cbv zeta.
  destruct (sorted_reverse_head score_key (before ++ best :: after))
    as (b & x & a & E & Hhd & Hb' & Ha'); [by destruct before |].
  destruct (first_of_highest_unique score_key _ _ _ _ _ _ E Hb Ha Hb' Ha') as (_ & <- & _).
  split; [by apply select_best_variant_head |].
  destruct (select_best_variant_selected (before ++ best :: after) st) as (ls & ->).
  cbn [snd]. by rewrite new_events_effect.
Qed.

Lemma select_best_variant_reads_the_best_only_witness :
  fst (select_best_variant
         [Variant None None None (Some 10%Z) None; Sample.unscored "question_interrupt";
          Sample.candidate "contrarian_hook" 90; Variant None None None None None]
         Sample.fresh) =
    Ret (Some (Sample.candidate "contrarian_hook" 90)).
Proof.
  refine (proj1 (select_best_variant_reads_the_best_only
                   [Variant None None None (Some 10%Z) None;
                    Sample.unscored "question_interrupt"]
                   (Sample.candidate "contrarian_hook" 90)
                   [Variant None None None None None] Sample.fresh _ _)).
  - repeat first [apply List.Forall_nil | apply List.Forall_cons; [by vm_compute |]].
  - repeat first [apply List.Forall_nil | apply List.Forall_cons; [by vm_compute |]].
Defined.

(** ** The text handed to the decoder *)

Lemma prefix_empty s : String.prefix "" s = true.
Proof. by destruct s. Qed.

Lemma prefix_cons_eq a p s : String.prefix (String a p) (String a s) = String.prefix p s.
Proof. simpl. by destruct (ascii_dec a a). Qed.

Lemma prefix_cons_inv a p c s :
  String.prefix (String a p) (String c s) = true -> a = c /\ String.prefix p s = true.
Proof. simpl. by destruct (ascii_dec a c). Qed.

Lemma prefix_cons_false a p c s :
  String.prefix (String a p) (String c s) = false ->
  a <> c \/ String.prefix p s = false.
Proof. simpl. destruct (ascii_dec a c); auto. Qed.

Lemma str_in_cons p c s :
  Py.str_in p (String c s) = String.prefix p (String c s) || Py.str_in p s.
Proof. reflexivity. Qed.

(** What is left of a run of one or two backticks stays as short. *)
Lemma replace_fence_one s :
  String.prefix "`" s = false ->
  String.prefix "`" (Py.replace_from "```" "" 0 s) = false.
Proof.
  destruct s as [| c s]; [done |]. intros H.
  apply prefix_cons_false in H as [H | H]; [| by rewrite prefix_empty in H].
  rewrite replace_from_cons, !prefix_cons_ne by done. done.
Qed.

Lemma replace_fence_two s :
  String.prefix "``" s = false ->
  String.prefix "``" (Py.replace_from "```" "" 0 s) = false.
Proof.
  destruct s as [| c s]; [done |]. intros H.
  destruct (ascii_dec "`" c) as [<- | Hc].
  - rewrite prefix_cons_eq in H.
    assert (String.prefix "```" (String "`" s) = false) as Hno.
    { rewrite prefix_cons_eq. destruct s as [| c' s]; [done |].
      apply prefix_cons_false in H as [H | H]; [| by rewrite prefix_empty in H].
      by rewrite prefix_cons_ne. }
    rewrite replace_from_cons, Hno, prefix_cons_eq. by apply replace_fence_one.
  - rewrite replace_from_cons, !prefix_cons_ne by done. done.
Qed.

Lemma replace_fence_from k s :
  (k <= 2)%nat -> Py.str_in "```" (Py.replace_from "```" "" k s) = false.
Proof.
  revert k. induction s as [| c s IH]; intros k Hk; [by destruct k |].
  destruct k as [| k]; [| apply IH; lia].
  rewrite replace_from_cons.
  destruct (String.prefix "```" (String c s)) eqn:Hp.
  - change ("" +:+ ?x) with x. apply IH. simpl. lia.
  - rewrite str_in_cons, (IH 0%nat) by lia. rewrite orb_false_r.
    destruct (ascii_dec "`" c) as [<- | Hc]; [| by rewrite prefix_cons_ne].
    rewrite prefix_cons_eq in Hp |- *. by apply replace_fence_two.
Qed.

Lemma str_in_drop_chars p k s :
  Py.str_in p (Py.drop_chars k s) = true -> Py.str_in p s = true.
Proof.
  revert s. induction k as [| k IH]; intros [| c s]; simpl Py.drop_chars; try done.
  intros H%IH. by rewrite str_in_cons, H, orb_true_r.
Qed.

Lemma drop_chars_drop_chars j k s :
  Py.drop_chars j (Py.drop_chars k s) = Py.drop_chars (k + j) s.
Proof.
  revert s. induction k as [| k IH]; intros s; [done |].
  destruct s as [| c s]; [by destruct j | apply IH].
Qed.

Lemma lstrip_with_drop_chars ws fuel s :
  exists k, Py.lstrip_with ws fuel s = Py.drop_chars k s.
Proof.
  revert s. induction fuel as [| fuel IH]; intros s; simpl; [by exists 0%nat |].
  destruct (List.find _ ws) as [w |]; [| by exists 0%nat].
  destruct (IH (Py.drop_chars (String.length w) s)) as (k & ->).
  rewrite drop_chars_drop_chars. by eexists.
Qed.

Lemma drop_chars_split k s : exists t, s = t +:+ Py.drop_chars k s.
Proof.
  revert s. induction k as [| k IH]; intros s; [by exists "" |].
  destruct s as [| c s]; [by exists "" |].
  destruct (IH s) as (t & Ht). exists (String c t). simpl Py.drop_chars.
  rewrite append_cons. by f_equal.
Qed.

Lemma prefix_append p a t :
  String.prefix p a = true -> String.prefix p (a +:+ t) = true.
Proof.
  revert a. induction p as [| x p IH]; intros a; [by rewrite !prefix_empty |].
  destruct a as [| c a]; [done |].
  intros [<- H]%prefix_cons_inv. rewrite append_cons, prefix_cons_eq. by apply IH.
Qed.

Lemma str_in_append p a t : Py.str_in p a = true -> Py.str_in p (a +:+ t) = true.
Proof.
  induction a as [| c a IH].
  - simpl. rewrite orb_false_r. destruct p; [| done]. intros _.
    change ("" +:+ t) with t. by destruct t.
  - rewrite append_cons, !str_in_cons.
    intros [H | H]%orb_true_iff.
    + by rewrite <- append_cons, (prefix_append _ _ _ H).
    + by rewrite (IH H), orb_true_r.
Qed.

Lemma str_in_strip p s : Py.str_in p (Py.strip s) = true -> Py.str_in p s = true.
Proof.
  unfold Py.strip, Py.rstrip, Py.lstrip.
  destruct (lstrip_with_drop_chars Py.whitespace (String.length s) s) as (k & ->).
  set (u := Py.drop_chars k s).
  destruct (lstrip_with_drop_chars (map Py.rev_string Py.whitespace) (String.length u)
              (Py.rev_string u)) as (j & ->).
  destruct (drop_chars_split j (Py.rev_string u)) as (t & Ht).
  apply (f_equal Py.rev_string) in Ht.
  rewrite rev_string_involutive, rev_string_app in Ht.
  intros H. apply (str_in_drop_chars p k). fold u. rewrite Ht. by apply str_in_append.
Qed.

Lemma drop_chars_length k s :
  String.length (Py.drop_chars k s) = (String.length s - k)%nat.
Proof.
  revert s. induction k as [| k IH]; intros [| c s]; simpl; done.
Qed.

Lemma prefix_length p s : String.prefix p s = true -> (String.length p <= String.length s)%nat.
Proof.
  revert s. induction p as [| a p IH]; intros [| c s]; simpl; try done; try lia.
  destruct (ascii_dec a c); [| done]. intros H%IH. lia.
Qed.

(** With fuel for every character, nothing of [ws] is left in front. *)
Lemma lstrip_with_done ws fuel s :
  Forall (fun w => w <> "") ws ->
  (String.length s <= fuel)%nat ->
  Forall (fun w => String.prefix w (Py.lstrip_with ws fuel s) = false) ws.
Proof.
  intros Hws. revert s. induction fuel as [| fuel IH]; intros s Hfuel; simpl.
  - destruct s; [| simpl in Hfuel; lia].
    eapply Forall_impl; [exact Hws |]. intros [| a w] Hw; done.
  - destruct (List.find (fun w => String.prefix w s) ws) as [w |] eqn:Hfind.
    + apply find_some in Hfind as [Hin Hp]. apply IH.
      rewrite drop_chars_length. apply prefix_length in Hp.
      rewrite Forall_forall in Hws. apply list_elem_of_In, Hws in Hin.
      destruct w; [done |]. simpl in *. lia.
    + apply Forall_forall. intros w Hin%list_elem_of_In.
      by apply (find_none _ _ Hfind) in Hin.
Qed.

Lemma rev_string_length s : String.length (Py.rev_string s) = String.length s.
Proof.
  unfold Py.rev_string.
  by rewrite string_of_list_ascii_length, length_rev, <- string_of_list_ascii_length,
    string_of_list_ascii_of_string.
Qed.

Lemma whitespace_not_empty : Forall (fun w => w <> "") Py.whitespace.
Proof. repeat constructor; done. Qed.

Lemma rev_whitespace_not_empty : Forall (fun w => w <> "") (map Py.rev_string Py.whitespace).
Proof. repeat constructor; done. Qed.

Lemma strip_done s :
  Forall (fun w => String.prefix w (Py.strip s) = false /\
                   String.prefix (Py.rev_string w) (Py.rev_string (Py.strip s)) = false)
    Py.whitespace.
Proof.
  unfold Py.strip, Py.rstrip.
  pose proof (lstrip_with_done Py.whitespace (String.length s) s whitespace_not_empty
                (le_n _)) as Hl.
  fold (Py.lstrip s) in Hl. set (u := Py.lstrip s) in *.
  pose proof (lstrip_with_done (map Py.rev_string Py.whitespace) (String.length u)
                (Py.rev_string u) rev_whitespace_not_empty) as Hr.
  rewrite rev_string_length in Hr. specialize (Hr (le_n _)).
  destruct (lstrip_with_drop_chars (map Py.rev_string Py.whitespace) (String.length u)
              (Py.rev_string u)) as (j & Hj).
  destruct (drop_chars_split j (Py.rev_string u)) as (t & Ht).
  apply (f_equal Py.rev_string) in Ht.
  rewrite rev_string_involutive, rev_string_app, <- Hj in Ht.
  rewrite Forall_forall in Hl, Hr. apply Forall_forall. intros w Hw. split.
  - apply not_true_is_false. intros H.
    apply (prefix_append _ _ (Py.rev_string t)) in H. rewrite <- Ht in H.
    by rewrite (Hl w Hw) in H.
  - rewrite rev_string_involutive. apply Hr. by apply list_elem_of_fmap_2.
Qed.

(** X18. Whatever the reply, the text handed to [json.loads] holds no code
    fence marker and neither starts nor ends with white space: removing
    the markers leaves no run of three backticks, and stripping the white
    space cannot bring one back. *)
Theorem decoder_sees_no_fence :
  forall generated_text,
    let cleaned := clean_up_markdown generated_text in
    Py.str_in "```" cleaned = false /\
    Forall (fun space => startswith cleaned space = false /\ endswith cleaned space = false)
      Py.whitespace.
Proof.
  intros generated_text. cbv zeta. split.
  - unfold clean_up_markdown, Py.replace.
    apply not_true_is_false. intros H%str_in_strip.
    by rewrite replace_fence_from in H by lia.
  - apply strip_done.
Qed.

(** ** White space in the text of the post *)

Example str_split_sample :
  str_split (Py.chr 10 +:+ "  Body   of" +:+ Py.utf8 [194; 160] +:+ "A" +:+ Py.chr 9 +:+
             Py.utf8 [226; 128; 137] +:+ "é " ) = ["Body"; "of"; "A"; "é"].
Proof. vm_compute. reflexivity. Qed.

Example str_split_blank : str_split (" " +:+ Py.chr 10 +:+ " ") = [].
Proof. reflexivity. Qed.

Example str_len_utf8 : str_len "héé" = 3%nat.
Proof. reflexivity. Qed.

Lemma clear_of_space_snoc word c rest :
  clear_of_space word (String c rest) = true ->
  forallb (fun space => negb (String.prefix space (String c rest))) Py.whitespace = true ->
  clear_of_space (word +:+ String c "") rest = true.
Proof.
  intros Hword Hc. induction word as [| d word IH].
  - change ("" +:+ String c "") with (String c ""). cbn [clear_of_space].
    change (String c "" +:+ rest) with (String c rest). by rewrite Hc.
  - rewrite append_cons. cbn [clear_of_space] in *.
    apply andb_true_iff in Hword as [Hd Hword].
    rewrite <- append_cons, append_assoc.
    change (String c "" +:+ rest) with (String c rest).
    by rewrite Hd, IH.
Qed.

Lemma prefix_append_false p a t :
  String.prefix p (a +:+ t) = false -> String.prefix p a = false.
Proof.
  intros H. apply not_true_is_false. intros H'.
  by rewrite (prefix_append _ _ t H') in H.
Qed.

Lemma clear_of_space_str_in word rest space :
  space ∈ Py.whitespace ->
  clear_of_space word rest = true ->
  Py.str_in space word = false.
Proof.
  intros Hin. induction word as [| c word IH]; intros H.
  - simpl. rewrite orb_false_r.
    pose proof whitespace_not_empty as Hne. rewrite Forall_forall in Hne.
    specialize (Hne _ Hin). by destruct space.
  - cbn [clear_of_space] in H. apply andb_true_iff in H as [Hc H].
    rewrite str_in_cons, (IH H), orb_false_r.
    rewrite forallb_forall in Hc. apply list_elem_of_In, Hc, negb_true_iff in Hin.
    by apply prefix_append_false in Hin.
Qed.

Lemma word_read_is_word word rest :
  clear_of_space word rest = true -> Forall is_word (word_read word).
Proof.
  intros H. unfold word_read. destruct word as [| c word]; [constructor |].
  cbn [is_empty]. apply List.Forall_cons; [| constructor]. split; [done |].
  apply Forall_forall. intros space Hin. by eapply clear_of_space_str_in.
Qed.

Lemma split_from_words s :
  forall skip word,
    (skip = 0%nat -> clear_of_space word s = true) ->
    (skip <> 0%nat -> word = "") ->
    Forall is_word (split_from skip word s).
Proof.
  induction s as [| c s IH]; intros skip word Hclear Hskip.
  - destruct skip as [| k].
    + by apply (word_read_is_word word ""), Hclear.
    + rewrite Hskip by done. constructor.
  - destruct skip as [| k]; cbn [split_from].
    + specialize (Hclear eq_refl).
      destruct (List.find (fun space => String.prefix space (String c s)) Py.whitespace)
        as [space |] eqn:Hfind.
      * apply Forall_app. split; [by eapply word_read_is_word |].
        apply IH; [| done]. by intros _.
      * apply IH; [| done]. intros _. apply clear_of_space_snoc; [done |].
        apply forallb_forall. intros space Hin. apply negb_true_iff.
        by apply (find_none _ _ Hfind).
    + rewrite (Hskip ltac:(done)). apply IH; [| done]. by intros _.
Qed.

Lemma str_split_words s : Forall is_word (str_split s).
Proof. apply split_from_words; [by intros _ | done]. Qed.

(** *** Joining words by a space *)

Lemma has_space_cons c text :
  has_space (String c text) = Ascii.eqb " " c || has_space text.
Proof. reflexivity. Qed.

Lemma prefix_append_sep p x y :
  has_space p = false ->
  String.prefix p (x +:+ String " " y) = true -> String.prefix p x = true.
Proof.
  revert x. induction p as [| a p IH]; intros x Hp H; [by rewrite prefix_empty |].
  rewrite has_space_cons in Hp. apply orb_false_iff in Hp as [Ha Hp].
  apply Ascii.eqb_neq in Ha.
  destruct x as [| c x].
  - change ("" +:+ String " " y) with (String " " y) in H.
    apply prefix_cons_inv in H as [Heq _]. congruence.
  - rewrite append_cons in H. apply prefix_cons_inv in H as [<- H].
    rewrite prefix_cons_eq. by apply IH.
Qed.

Lemma str_in_append_sep p x y :
  p <> "" -> has_space p = false ->
  Py.str_in p x = false -> Py.str_in p y = false ->
  Py.str_in p (x +:+ String " " y) = false.
Proof.
  intros Hne Hp Hx Hy. induction x as [| c x IH].
  - change ("" +:+ String " " y) with (String " " y).
    rewrite str_in_cons, Hy, orb_false_r.
    destruct p as [| a p]; [done |].
    rewrite has_space_cons in Hp. apply orb_false_iff in Hp as [Ha _].
    apply Ascii.eqb_neq in Ha. apply prefix_cons_ne. congruence.
  - rewrite str_in_cons in Hx. apply orb_false_iff in Hx as [Hc Hx].
    rewrite append_cons, str_in_cons, (IH Hx), orb_false_r.
    apply not_true_is_false. intros H.
    rewrite <- append_cons in H. apply prefix_append_sep in H; [| done]. congruence.
Qed.

Lemma join_cons sep x y rest :
  Py.join sep (x :: y :: rest) = x +:+ sep +:+ Py.join sep (y :: rest).
Proof. reflexivity. Qed.

Lemma join_snoc sep words z :
  words <> [] -> Py.join sep (words ++ [z]) = Py.join sep words +:+ sep +:+ z.
Proof.
  induction words as [| x words IH]; [done |]. intros _.
  destruct words as [| y words]; [done |].
  change ((x :: y :: words) ++ [z]) with (x :: (y :: words) ++ [z]).
  change ((y :: words) ++ [z]) with (y :: words ++ [z]) at 1.
  rewrite !join_cons.
  change (y :: words ++ [z]) with ((y :: words) ++ [z]).
  rewrite IH by done. by rewrite !append_assoc.
Qed.

Lemma is_word_space word : is_word word -> Py.str_in " " word = false.
Proof.
  intros [_ H]. rewrite Forall_forall in H. apply H.
  unfold Py.whitespace. apply elem_of_app. left. elem_of_listed.
Qed.

Lemma str_in_space_first c text : Py.str_in " " (String c text) = false -> c <> " "%char.
Proof.
  rewrite str_in_cons. intros [H _]%orb_false_iff ->. by rewrite prefix_cons_eq, prefix_empty in H.
Qed.

(** In words joined by a space, white space other than that space is as
    absent as it is in the words. *)
Lemma join_words_other_space words space :
  Forall is_word words ->
  space ∈ Py.whitespace -> has_space space = false ->
  Py.str_in space (Py.join " " words) = false.
Proof.
  intros Hwords Hin Hsp.
  assert (space <> "") as Hne.
  { pose proof whitespace_not_empty as H. rewrite Forall_forall in H. by apply H. }
  induction Hwords as [| x words [_ Hx] Hwords IH].
  - simpl. rewrite orb_false_r. by destruct space.
  - rewrite Forall_forall in Hx. specialize (Hx _ Hin).
    destruct words as [| y words]; [done |].
    rewrite join_cons. change (" " +:+ ?t) with (String " " t).
    by apply str_in_append_sep.
Qed.

(** Words joined by a space: no space in front, no two spaces in a row. *)
Lemma join_words_single_space words :
  Forall is_word words ->
  String.prefix " " (Py.join " " words) = false /\
  Py.str_in "  " (Py.join " " words) = false.
Proof.
  induction 1 as [| x words Hx Hwords [IH1 IH2]]; [done |].
  pose proof (is_word_space x Hx) as Hsp. destruct Hx as [Hne _].
  assert (String.prefix " " x = false /\ forall t,
            String.prefix " " t = false -> Py.str_in "  " t = false ->
            Py.str_in "  " (x +:+ String " " t) = false) as [Hfront Hrow].
  { clear -Hsp Hne. split.
    - destruct x as [| c x]; [done |]. apply str_in_space_first in Hsp.
      apply prefix_cons_ne. congruence.
    - intros t Ht1 Ht2. clear Hne. induction x as [| c x IH].
      + change ("" +:+ String " " t) with (String " " t).
        by rewrite str_in_cons, prefix_cons_eq, Ht1, Ht2.
      + pose proof (str_in_space_first _ _ Hsp) as Hc.
        rewrite str_in_cons in Hsp. apply orb_false_iff in Hsp as [_ Hsp].
        rewrite append_cons, str_in_cons, (IH Hsp), orb_false_r.
        apply prefix_cons_ne. congruence. }
  destruct words as [| y words].
  - simpl Py.join. split; [done |].
    clear -Hsp. induction x as [| c x IH]; [done |].
    pose proof (str_in_space_first _ _ Hsp) as Hc.
    rewrite str_in_cons in Hsp. apply orb_false_iff in Hsp as [_ Hsp].
    rewrite str_in_cons, (IH Hsp), orb_false_r. apply prefix_cons_ne. congruence.
  - rewrite join_cons. change (" " +:+ ?t) with (String " " t). split.
    + destruct x as [| c x]; [done |]. rewrite append_cons.
      destruct (ascii_dec " " c) as [<- | Hc]; [| by apply prefix_cons_ne].
      by rewrite prefix_cons_eq, prefix_empty in Hfront.
    + by apply Hrow.
Qed.

Lemma prefix_split p s : String.prefix p s = true -> exists t, s = p +:+ t.
Proof.
  revert s. induction p as [| a p IH]; intros s H; [by exists s |].
  destruct s as [| c s]; [done |].
  apply prefix_cons_inv in H as [<- H]. destruct (IH s H) as (t & ->).
  by exists t.
Qed.

Lemma prefix_refl p : String.prefix p p = true.
Proof. induction p as [| a p IH]; [done |]. by rewrite prefix_cons_eq. Qed.

Lemma str_in_append_r p a : Py.str_in p (a +:+ p) = true.
Proof.
  induction a as [| c a IH].
  - change ("" +:+ p) with p. destruct p as [| x p]; [done |].
    by rewrite str_in_cons, prefix_refl.
  - by rewrite append_cons, str_in_cons, IH, orb_true_r.
Qed.

Lemma endswith_str_in s t : endswith s t = true -> Py.str_in t s = true.
Proof.
  unfold endswith. intros (u & Hu)%prefix_split.
  apply (f_equal Py.rev_string) in Hu.
  rewrite rev_string_involutive, rev_string_app, rev_string_involutive in Hu.
  rewrite Hu. apply str_in_append_r.
Qed.

Lemma startswith_str_in s t : startswith s t = true -> Py.str_in t s = true.
Proof.
  unfold startswith. intros H. destruct s as [| c s].
  - by destruct t.
  - by rewrite str_in_cons, H.
Qed.

Lemma whitespace_with_space :
  Forall (fun space => space = " " \/ has_space space = false) Py.whitespace.
Proof.
  apply Forall_forall. intros space Hin%list_elem_of_In.
  unfold Py.whitespace in Hin. cbn [map app In] in Hin.
  repeat (destruct Hin as [<- | Hin]; [first [by left | right; reflexivity] |]). done.
Qed.

Lemma has_space_str_in text : Py.str_in " " text = false -> has_space text = false.
Proof.
  induction text as [| c text IH]; [done |]. intros H.
  pose proof (str_in_space_first _ _ H) as Hc.
  rewrite str_in_cons in H. apply orb_false_iff in H as [_ H].
  rewrite has_space_cons, (IH H), orb_false_r. apply Ascii.eqb_neq. congruence.
Qed.

Lemma has_space_rev text : has_space (Py.rev_string text) = has_space text.
Proof.
  unfold has_space, Py.rev_string. rewrite list_ascii_of_string_of_list_ascii.
  apply eq_true_iff_eq. rewrite !existsb_exists.
  split; intros (c & Hin & Hc); exists c; (split; [| done]).
  - by rewrite <- in_rev in Hin.
  - by rewrite <- in_rev.
Qed.

Lemma join_words_end words :
  Forall is_word words -> endswith (Py.join " " words) " " = false.
Proof.
  intros Hwords. unfold endswith. change (Py.rev_string " ") with " ".
  destruct words as [| x words _] using rev_ind; [done |].
  apply Forall_app in Hwords as [_ [Hx _]%Forall_cons].
  assert (exists a, Py.join " " (words ++ [x]) = a +:+ x) as (a & ->).
  { destruct words as [| y words]; [by exists "" |].
    rewrite join_snoc by done. exists (Py.join " " (y :: words) +:+ " ").
    by rewrite append_assoc. }
  rewrite rev_string_app.
  pose proof (has_space_str_in _ (is_word_space x Hx)) as Hsp.
  rewrite <- has_space_rev in Hsp. destruct Hx as [Hne _].
  destruct (Py.rev_string x) as [| c r] eqn:Hr.
  - apply (f_equal Py.rev_string) in Hr. by rewrite rev_string_involutive in Hr.
  - rewrite append_cons. rewrite has_space_cons in Hsp.
    apply orb_false_iff in Hsp as [Hc%Ascii.eqb_neq _]. by apply prefix_cons_ne.
Qed.

(** Words joined by a space are in normal form. *)
Lemma join_words_normal words :
  Forall is_word words ->
  let text := Py.join " " words in
  Forall (fun space => space = " " \/ Py.str_in space text = false) Py.whitespace /\
  Py.str_in "  " text = false /\
  Forall (fun space => startswith text space = false /\ endswith text space = false)
    Py.whitespace.
Proof.
  intros Hwords text.
  destruct (join_words_single_space words Hwords) as [Hfront Hrow].
  pose proof (join_words_end words Hwords) as Hend.
  assert (Forall (fun space => space = " " \/ Py.str_in space text = false) Py.whitespace)
    as Hother.
  { pose proof whitespace_with_space as H. rewrite Forall_forall in H.
    apply Forall_forall. intros space Hin.
    destruct (H space Hin) as [-> | Hsp]; [by left | right].
    by apply join_words_other_space. }
  split; [done |]. split; [done |].
  rewrite Forall_forall in Hother. apply Forall_forall. intros space Hin.
  destruct (Hother space Hin) as [-> | Hno]; [done |].
  split; apply not_true_is_false; intros H.
  - apply startswith_str_in in H. congruence.
  - apply endswith_str_in in H. congruence.
Qed.

(** *** Splitting what was joined *)

Lemma find_space_in_word x rest :
  x <> "" ->
  Forall (fun space => Py.str_in space x = false) Py.whitespace ->
  List.find (fun space => String.prefix space (x +:+ String " " rest)) Py.whitespace = None.
Proof.
  intros Hne Hx.
  destruct (List.find _ Py.whitespace) as [space |] eqn:Hfind; [| done]. exfalso.
  apply find_some in Hfind as [Hin%list_elem_of_In Hp].
  pose proof whitespace_with_space as H. rewrite Forall_forall in H, Hx.
  specialize (Hx space Hin).
  destruct (H space Hin) as [-> | Hsp].
  - destruct x as [| c x]; [done |]. apply str_in_space_first in Hx.
    rewrite append_cons in Hp. apply prefix_cons_inv in Hp as [Hc _]. congruence.
  - apply prefix_append_sep in Hp; [| done].
    apply (startswith_str_in x space) in Hp. congruence.
Qed.

Lemma find_space_at_space rest :
  List.find (fun space => String.prefix space (String " " rest)) Py.whitespace = Some " ".
Proof.
  by destruct rest.
Qed.

Lemma find_space_in_last x :
  x <> "" ->
  Forall (fun space => Py.str_in space x = false) Py.whitespace ->
  List.find (fun space => String.prefix space x) Py.whitespace = None.
Proof.
  intros Hne Hx.
  destruct (List.find _ Py.whitespace) as [space |] eqn:Hfind; [| done]. exfalso.
  apply find_some in Hfind as [Hin%list_elem_of_In Hp].
  rewrite Forall_forall in Hx. specialize (Hx space Hin).
  apply (startswith_str_in x space) in Hp. congruence.
Qed.

Lemma str_in_tail p c x : Py.str_in p (String c x) = false -> Py.str_in p x = false.
Proof. rewrite str_in_cons. by intros [_ H]%orb_false_iff. Qed.

Lemma split_from_word x :
  Forall (fun space => Py.str_in space x = false) Py.whitespace ->
  forall word rest,
    split_from 0 word (x +:+ String " " rest) =
      word_read (word +:+ x) ++ split_from 0 "" rest.
Proof.
  induction x as [| c x IH]; intros Hx word rest.
  - change ("" +:+ String " " rest) with (String " " rest). cbn [split_from].
    by rewrite find_space_at_space, append_empty_r.
  - rewrite append_cons. cbn [split_from]. rewrite <- append_cons.
    rewrite find_space_in_word by done.
    rewrite IH.
    + by rewrite append_assoc.
    + eapply Forall_impl; [exact Hx |]. intros space. apply str_in_tail.
Qed.

Lemma split_from_last x :
  Forall (fun space => Py.str_in space x = false) Py.whitespace ->
  forall word, split_from 0 word x = word_read (word +:+ x).
Proof.
  induction x as [| c x IH]; intros Hx word.
  - by rewrite append_empty_r.
  - cbn [split_from]. rewrite find_space_in_last by done.
    rewrite IH.
    + by rewrite append_assoc.
    + eapply Forall_impl; [exact Hx |]. intros space. apply str_in_tail.
Qed.

Lemma str_split_join words : Forall is_word words -> str_split (Py.join " " words) = words.
Proof.
  unfold str_split. induction 1 as [| x words [Hne Hx] Hwords IH]; [done |].
  destruct words as [| y words].
  - simpl Py.join. rewrite split_from_last by done.
    change ("" +:+ x) with x. by destruct x.
  - rewrite join_cons. change (" " +:+ ?t) with (String " " t).
    rewrite split_from_word by done. rewrite IH.
    change ("" +:+ x) with x. by destruct x.
Qed.

(** *** Slices *)

Lemma str_len_cons c s :
  str_len (String c s) = ((if Py.is_continuation c then 0 else 1) + str_len s)%nat.
Proof.
  unfold str_len. cbn [list_ascii_of_string]. rewrite filter_cons.
  destruct (Py.is_continuation c); by case_decide.
Qed.

Lemma take_length n s : str_len (Py.take n s) = Nat.min n (str_len s).
Proof.
  revert n. induction s as [| c s IH]; intros n; [by destruct n |].
  cbn [Py.take]. rewrite (str_len_cons c s).
  destruct (Py.is_continuation c) eqn:Hc.
  - by rewrite str_len_cons, Hc, IH.
  - destruct n as [| n]; [done |]. rewrite str_len_cons, Hc, IH. done.
Qed.

Lemma take_prefix n s : exists rest, s = Py.take n s +:+ rest.
Proof.
  revert n. induction s as [| c s IH]; intros n; [by exists "" |].
  cbn [Py.take]. destruct (Py.is_continuation c).
  - destruct (IH n) as (rest & Hrest). exists rest. rewrite append_cons. by f_equal.
  - destruct n as [| n]; [by exists (String c s) |].
    destruct (IH n) as (rest & Hrest). exists rest. rewrite append_cons. by f_equal.
Qed.

(** X19. [clean_html] puts the text of the post into a normal form, whatever
    the parser extracts: the only white space left is single spaces
    between words, none in front and none at the end; and a text that is
    in this form already comes out as it went in. *)
Theorem clean_html_leaves_single_spaces :
  forall get_text html_content,
    let text := clean_html get_text html_content in
    Forall (fun space => space = " " \/ Py.str_in space text = false) Py.whitespace /\
    Py.str_in "  " text = false /\
    Forall (fun space => startswith text space = false /\ endswith text space = false)
      Py.whitespace /\
    Py.join " " (str_split text) = text.
Proof.
  intros get_text html_content text.
  pose proof (str_split_words (get_text html_content)) as Hwords.
  destruct (join_words_normal _ Hwords) as (Hother & Hrow & Hends).
  split; [done |]. split; [done |]. split; [done |].
  unfold text, clean_html. by rewrite str_split_join.
Qed.

(** X20. The content put into the prompt is the cleaned text cut after 3000
    characters: it is the beginning of that text, holds 3000 characters
    or the whole text if that is shorter, and has no white space but
    single spaces. *)
Theorem prompt_content_is_bounded :
  forall get_text blog_post,
    let text := clean_html get_text (content blog_post) in
    let shown := prompt_content get_text blog_post in
    str_len shown = Nat.min 3000 (str_len text) /\
    (exists rest, text = shown +:+ rest) /\
    Forall (fun space => space = " " \/ Py.str_in space shown = false) Py.whitespace /\
    Py.str_in "  " shown = false.
Proof.
  intros get_text blog_post text shown.
  pose proof (str_split_words (get_text (content blog_post))) as Hwords.
  destruct (join_words_normal _ Hwords) as (Hother & Hrow & _).
  fold (clean_html get_text (content blog_post)) in Hother, Hrow. fold text in Hother, Hrow.
  assert (shown = Py.take 3000 text) as -> by reflexivity.
  destruct (take_prefix 3000 text) as (rest & Hrest).
  split; [apply take_length |]. split; [by exists rest |].
  assert (forall p, Py.str_in p text = false -> Py.str_in p (Py.take 3000 text) = false)
    as Hsub.
  { intros p Hp. apply not_true_is_false. intros H.
    apply (str_in_append _ _ rest) in H. rewrite <- Hrest in H. congruence. }
  split; [| by apply Hsub].
  eapply Forall_impl; [exact Hother |]. intros space [-> | H]; [by left | right; by apply Hsub].
Qed.

(** ** What a run publishes *)

Lemma keeps_post_to_linkedin_comment w caption hashtags blog_url :
  keeps (comment_gets ("Read the full post: " +:+ blog_url))
        (post_to_linkedin w caption hashtags blog_url).
Proof.
  unfold post_to_linkedin, browser_session, login_rejected, publish_main_post,
    add_comment, read_current_url.
  repeat first [ apply keeps_call; simpl; try done; vm_compute; discriminate
               | keeps_step ].
Qed.

Lemma comment_texts_gets text evs :
  Forall (comment_gets text) evs -> Forall (fun keys => keys = text) (comment_texts evs).
Proof.
  induction 1 as [| ev evs H _ IH]; simpl; [constructor |].
  unfold comment_texts in *; simpl.
  destruct ev as [| | [] |]; simpl in *; try done.
  destruct (String.eqb element comment_box); [| done].
  constructor; auto.
Qed.

Lemma post_to_linkedin_texts w caption hashtags blog_url st ls evs r :
  post_to_linkedin w caption hashtags blog_url st = (r, effect st ls evs) ->
  Forall (fun text => text = full_caption caption hashtags) (composer_texts evs) /\
  Forall (fun text => text = "Read the full post: " +:+ blog_url) (comment_texts evs).
Proof.
  intros E.
  destruct (keeps_post_to_linkedin w caption hashtags blog_url st) as (l1 & e1 & E1 & F1).
  destruct (keeps_post_to_linkedin_comment w caption hashtags blog_url st)
    as (l2 & e2 & E2 & F2).
  rewrite E in E1, E2. simpl in E1, E2.
  apply effect_same_base in E1 as [_ ->]. apply effect_same_base in E2 as [_ ->].
  split; [by apply composer_texts_gets | by apply comment_texts_gets].
Qed.

Lemma selected_highest variants best :
  selected variants = Ret (Some best) ->
  best ∈ variants /\ Forall (fun v => (score_key v <= score_key best)%Z) variants.
Proof.
  intros Hsel. split; [by apply selected_member |].
  destruct variants as [| v vs]; [done |].
  destruct (sorted_reverse_head score_key (v :: vs)) as (b & x & a & E & Hhd & Hb & Ha);
    [done |].
  assert (x = best) as ->.
  { unfold selected in Hsel.
    destruct (sorted_reverse score_key (v :: vs)) as [| y s]; [done |].
    injection Hhd as ->. repeat case_match; by simplify_eq. }
  rewrite E. apply Forall_app. split.
  - eapply Forall_impl; [exact Hb |]. intros ? ?. simpl in *. lia.
  - constructor; [lia | done].
Qed.

(** X21. What a run publishes.  Either nothing is typed into the composer or
    the comment box, or the feed has a first unrecorded entry, the backend
    has answered for it with candidates, and among them is one of the
    highest score such that every text typed into the composer is its
    caption with its hashtags, and every text typed into the comment box
    is "Read the full post: " followed by the link of that entry. *)
Theorem run_publishes_the_best_candidate :
  forall w st,
    let evs := new_events st (snd (main w st)) in
    composer_texts evs = [] /\ comment_texts evs = [] \/
    exists entries e reply variants best caption hashtags,
      feedparser_parse w (SQUARESPACE_RSS_URL w) = inr entries /\
      first_unrecorded (store st) entries e /\
      anthropic_messages w (ANTHROPIC_API_KEY w) (post_of_entry e) = inr reply /\
      json_loads w (clean_up_markdown reply) = inr (DocVariants variants) /\
      best ∈ variants /\
      Forall (fun v => (score_key v <= score_key best)%Z) variants /\
      v_caption best = Some caption /\
      v_hashtags best = Some hashtags /\
      Forall (fun text => text = full_caption caption hashtags) (composer_texts evs) /\
      Forall (fun text => text = "Read the full post: " +:+ default "" (e_link e))
        (comment_texts evs).
Proof.
  intros w st. cbv zeta. pose proof (main_cases w st) as H.
  assert (forall r l,
            main w st = (r, effect st l (chosen_events w (store st))) ->
            composer_texts (new_events st (snd (main w st))) = [] /\
            comment_texts (new_events st (snd (main w st))) = []) as Hquiet.
  { intros r l ->. cbn [snd]. rewrite new_events_effect.
    by rewrite composer_texts_chosen_events, comment_texts_chosen_events. }
  destruct (chosen w (store st)) as [[[blog_post best] |] | e] eqn:Hchosen;
    [| destruct H as (l & H); left; by eapply Hquiet ..].
  destruct (v_caption best) as [caption |] eqn:Hc;
    [destruct (v_hashtags best) as [hashtags |] eqn:Hh |];
    [| destruct H as (l & H); left; by eapply Hquiet ..].
  destruct H as (l1 & ls & evs & success & l & E & H). right.
  apply chosen_some in Hchosen as (_ & Hnext & variants & Hgen & Hsel).
  apply next_post_some in Hnext as (entries & e & Hfeed & Hfirst & _ & ->).
  apply generated_some in Hgen as (reply & Hreply & Hdoc).
  apply selected_highest in Hsel as [Hin Hmax].
  apply post_to_linkedin_texts in E as [Hcomposer Hcomment].
  exists entries, e, reply, variants, best, caption, hashtags.
  do 8 (split; [done |]).
  destruct success.
  - cbv zeta in H. rewrite H. cbn [snd]. rewrite new_events_written.
    rewrite !composer_texts_app, !comment_texts_app.
    rewrite composer_texts_chosen_events, comment_texts_chosen_events.
    cbn [composer_texts comment_texts omap app]. by rewrite !app_nil_r.
  - rewrite H. cbn [snd]. rewrite new_events_effect.
    rewrite !composer_texts_app, !comment_texts_app.
    by rewrite composer_texts_chosen_events, comment_texts_chosen_events.
Qed.

(** ** Where a run ends *)

Lemma finds_entry_next w st e :
  finds_entry w st e ->
  configured w = true /\
  next_post w (SQUARESPACE_RSS_URL w) (store st) = Some (post_of_entry e).
Proof.
  intros (Hconf & entries & Hfeed & Hfirst & Hwf). split; [done |].
  apply next_post_some. by exists entries, e.
Qed.

Lemma selected_first_of_highest before best after :
  Forall (fun v => (score_key v < score_key best)%Z) before ->
  Forall (fun v => (score_key v <= score_key best)%Z) after ->
  selected (before ++ best :: after) =
    match v_type best, v_engagement_score best, v_why_it_works best with
    | None, _, _ => Raise (KeyError "type")
    | Some _, None, _ => Raise (KeyError "engagement_score")
    | Some _, Some _, None => Raise (KeyError "why_it_works")
    | Some _, Some _, Some _ => Ret (Some best)
    end.
Proof.
  intros Hb Ha.
  destruct (sorted_reverse_head score_key (before ++ best :: after))
    as (b & x & a & E & Hhd & Hb' & Ha'); [by destruct before |].
  destruct (first_of_highest_unique score_key _ _ _ _ _ _ E Hb Ha Hb' Ha') as (_ & <- & _).
  unfold selected.
  destruct (sorted_reverse score_key (before ++ best :: after)) as [| y s]; [done |].
  by injection Hhd as ->.
Qed.

Lemma ranks_first_chosen w st e best :
  ranks_first w st e best ->
  chosen w (store st) =
    match v_type best, v_engagement_score best, v_why_it_works best with
    | None, _, _ => Raise (KeyError "type")
    | Some _, None, _ => Raise (KeyError "engagement_score")
    | Some _, Some _, None => Raise (KeyError "why_it_works")
    | Some _, Some _, Some _ => Ret (Some (post_of_entry e, best))
    end /\
  chosen_events w (store st) =
    [EvFeedParse (SQUARESPACE_RSS_URL w);
     EvApiPost (ANTHROPIC_API_KEY w) (post_of_entry e)].
Proof.
  intros ([Hconf Hnext]%finds_entry_next & text & before & after & Ha & Hj & Hb & Hafter).
  unfold chosen, chosen_events, generated. rewrite Hconf, Hnext, Ha, Hj.
  split; [| done].
  rewrite (selected_first_of_highest before best after Hb Hafter).
  destruct before; cbn [app];
    by destruct (v_type best), (v_engagement_score best), (v_why_it_works best).
Qed.

(** X8. Two ways for an exception to leave [main], each after the feed
    fetch and the one generation request, with nothing published and
    nothing recorded.  When the candidate ranked first lacks a member, the
    run ends with the [KeyError] of the first member it reads and does not
    find: ['type'], ['engagement_score'] or ['why_it_works'] in
    [select_best_variant], ['caption'] or ['hashtags'] at the call of
    [post_to_linkedin].  When the request itself raises a
    [JSONDecodeError], the run ends with the [UnboundLocalError] of the
    generation step. *)
Theorem incomplete_best_candidate_leaves_main :
  forall w st e,
    let st' := snd (main w st) in
    let fetch_and_request :=
      [EvFeedParse (SQUARESPACE_RSS_URL w);
       EvApiPost (ANTHROPIC_API_KEY w) (post_of_entry e)] in
    (forall best member,
       ranks_first w st e best ->
       first_missing best = Some member ->
       fst (main w st) = Raise (KeyError member) /\
       new_events st st' = fetch_and_request /\
       cache_file st' = cache_file st) /\
    (forall msg,
       finds_entry w st e ->
       anthropic_messages w (ANTHROPIC_API_KEY w) (post_of_entry e) =
         inl (JSONDecodeError msg) ->
       fst (main w st) = Raise (UnboundLocalError "generated_text") /\
       new_events st st' = fetch_and_request /\
       cache_file st' = cache_file st).
Proof.
  intros w st e. cbv zeta. pose proof (main_cases w st) as H. split.
  - intros best member [Hchosen Hevents]%ranks_first_chosen Hmissing.
    rewrite Hchosen, Hevents in H. unfold first_missing in Hmissing.
    destruct (v_type best) as [type |], (v_engagement_score best) as [score |],
      (v_why_it_works best) as [why |];
      [destruct (v_caption best) as [caption |];
       [destruct (v_hashtags best) as [hashtags |]; [done |] |] | ..];
      injection Hmissing as <-; destruct H as (l & ->); cbn [fst snd];
      by rewrite new_events_effect.
  - intros msg [Hconf Hnext]%finds_entry_next Ha.
    unfold chosen, chosen_events, generated in H. rewrite Hconf, Hnext, Ha in H.
    destruct H as (l & ->). cbn [fst snd]. by rewrite new_events_effect.
Qed.

Lemma incomplete_best_candidate_leaves_main_witness :
  fst (main Scenario.unscored_reply Sample.fresh) = Raise (KeyError "engagement_score").
Proof.
  refine (proj1 (proj1 (incomplete_best_candidate_leaves_main Scenario.unscored_reply
                          Sample.fresh Sample.entry_a)
                   (Sample.unscored "question_interrupt") "engagement_score" _ eq_refl)).
  split.
  - split; [reflexivity |]. exists [Sample.entry_a].
    split; [reflexivity |]. split; [| reflexivity].
    exists [], []. split; [reflexivity |]. split; [constructor |].
    intros [record H]. vm_compute in H. discriminate.
  - exists (Sample.json_reply [Sample.unscored "question_interrupt"]), [], [].
    split; [reflexivity |]. split; [vm_compute; reflexivity |]. split; constructor.
Defined.

(** X9. The errors a run catches.  A feed that cannot be parsed, a request
    that raises anything but a [JSONDecodeError], and whatever goes wrong
    on the platform once a candidate with all five members is ranked
    first: in each case [main] ends normally; in the first two nothing is
    published and the cache file is left alone. *)
Theorem caught_errors_end_the_run_normally :
  forall w st,
    let st' := snd (main w st) in
    (forall err,
       configured w = true ->
       feedparser_parse w (SQUARESPACE_RSS_URL w) = inl err ->
       fst (main w st) = Ret tt /\
       new_events st st' = [EvFeedParse (SQUARESPACE_RSS_URL w)] /\
       cache_file st' = cache_file st) /\
    (forall e err,
       finds_entry w st e ->
       anthropic_messages w (ANTHROPIC_API_KEY w) (post_of_entry e) = inl err ->
       (forall msg, err <> JSONDecodeError msg) ->
       fst (main w st) = Ret tt /\
       new_events st st' =
         [EvFeedParse (SQUARESPACE_RSS_URL w);
          EvApiPost (ANTHROPIC_API_KEY w) (post_of_entry e)] /\
       cache_file st' = cache_file st) /\
    (forall e best,
       ranks_first w st e best ->
       first_missing best = None ->
       fst (main w st) = Ret tt).
Proof.
  intros w st. cbv zeta. pose proof (main_cases w st) as H. split; [| split].
  - intros err Hconf Hfeed.
    unfold chosen, chosen_events, next_post in H. rewrite Hconf, Hfeed in H.
    destruct H as (l & ->). cbn [fst snd]. by rewrite new_events_effect.
  - intros e err [Hconf Hnext]%finds_entry_next Ha Hne.
    unfold chosen, chosen_events, generated in H. rewrite Hconf, Hnext, Ha in H.
    destruct err; try (by destruct (Hne msg)); destruct H as (l & ->); cbn [fst snd];
      by rewrite new_events_effect.
  - intros e best [Hchosen Hevents]%ranks_first_chosen Hmissing.
    rewrite Hchosen in H. unfold first_missing in Hmissing.
    destruct (v_type best) as [type |], (v_engagement_score best) as [score |],
      (v_why_it_works best) as [why |], (v_caption best) as [caption |],
      (v_hashtags best) as [hashtags |]; try done.
    destruct H as (l1 & ls & evs & [] & l & _ & ->); done.
Qed.

Lemma caught_errors_end_the_run_normally_witness :
  fst (main (Sample.make "steven@example.com" [Sample.entry_a]
               (fenced (Sample.json_reply Sample.three)) Sample.no_comment_box)
         Sample.fresh) = Ret tt.
Proof.
  refine (proj2 (proj2 (caught_errors_end_the_run_normally
                          (Sample.make "steven@example.com" [Sample.entry_a]
                             (fenced (Sample.json_reply Sample.three)) Sample.no_comment_box)
                          Sample.fresh))
            Sample.entry_a (Sample.candidate "question_interrupt" 90) _ eq_refl).
  split.
  - split; [reflexivity |]. exists [Sample.entry_a].
    split; [reflexivity |]. split; [| reflexivity].
    exists [], []. split; [reflexivity |]. split; [constructor |].
    intros [record H]. vm_compute in H. discriminate.
  - exists (fenced (Sample.json_reply Sample.three)),
      [Sample.candidate "personal_story" 85], [Sample.candidate "contrarian_hook" 88].
    split; [reflexivity |]. split; [vm_compute; reflexivity |].
    split; repeat first [apply List.Forall_nil | apply List.Forall_cons; [by vm_compute |]].
Defined.
